(** * Skill auditor analysis engine: a shallow embedding of [analyze.py]

    The development follows the layout of the Python module
    [skills/opencode-skill-auditor/analyze.py]:

    - [PyStr]: the string primitives the module relies on ([find], [in],
      [lower], slicing, [startswith]/[endswith], [count], [strip],
      [split]);
    - [Parser]: [_extract_section];
    - [Loader]: [_parse_yaml_frontmatter], [_extract_skill_content] and
      the loop of [load_all_skills] over the skill files found, each of
      which is read or fails to be read;
    - [Reports]: the figures the three report generators compute before
      they fill in their templates;
    - [PyFloat]: binary64 arithmetic (round to nearest, ties to even) on
      rationals, as used by [estimate_tokens] and by the similarity score;
    - [Difflib]: [difflib.SequenceMatcher] ([__chain_b],
      [find_longest_match], [get_matching_blocks], [ratio]);
    - [Auditor]: the methods of [SkillAuditor].

    Texts are sequences of characters.  A character is modelled by
    [ascii], read as its code point: the embedding covers the documents
    whose characters lie below U+0100 (ASCII and the Latin-1 supplement),
    and [lower] and [strip] treat every one of these 256 characters as
    Python does. *)

From Stdlib Require Import String.
From Stdlib Require Import ZArith QArith Qround Qpower Qabs Lia Lqa List Bool Ascii.
From Stdlib Require Import Sorted Permutation.
Import ListNotations.

Open Scope Z_scope.

(** A Python [str] is a sequence of characters. *)
Definition str : Type := list ascii.

(** String literals of the source, as character lists. *)
Definition lit (s : string) : str := list_ascii_of_string s.

(* ================================================================== *)
(** * Python string primitives *)
(* ================================================================== *)

Module PyStr.

(** [s.startswith(p)] *)
Fixpoint startswith (s p : str) {struct p} : bool :=
  match p, s with
  | [], _ => true
  | _ :: _, [] => false
  | c :: p', d :: s' => Ascii.eqb c d && startswith s' p'
  end.

(** [s.endswith(p)] *)
Definition endswith (s p : str) : bool := startswith (rev s) (rev p).

(** [s.find(sub)] scanning from offset [i]; -1 when [sub] does not occur. *)
Fixpoint find_from (s sub : str) (i : Z) : Z :=
  if startswith s sub then i
  else match s with
       | [] => -1
       | _ :: s' => find_from s' sub (i + 1)
       end.

(** [s.find(sub)] *)
Definition find (s sub : str) : Z := find_from s sub 0.

(** [sub in s] *)
Fixpoint contains (s sub : str) : bool :=
  startswith s sub ||
  match s with
  | [] => false
  | _ :: s' => contains s' sub
  end.

(** [s.count(sub)]: number of non-overlapping occurrences, scanning left
    to right; [skip] characters of the last occurrence are still to be
    passed over. *)
Fixpoint count_from (s sub : str) (skip : nat) : Z :=
  match s with
  | [] => 0
  | _ :: s' =>
      match skip with
      | S skip' => count_from s' sub skip'
      | O =>
          if startswith s sub
          then 1 + count_from s' sub (length sub - 1)
          else count_from s' sub 0
      end
  end.

Definition count (s sub : str) : Z :=
  match sub with
  | [] => Z.of_nat (length s) + 1
  | _ => count_from s sub 0
  end.

(** [c.lower()] on one character below U+0100.  The capital letters are
    A..Z (65..90) and, in the Latin-1 supplement, U+00C0..U+00DE without
    the multiplication sign U+00D7 (192..222 without 215); the small
    letter of each lies 32 code points above it.  Every other character
    below U+0100 is its own lower case. *)
Definition is_upper (c : ascii) : bool :=
  let n := nat_of_ascii c in
  ((65 <=? n)%nat && (n <=? 90)%nat)
  || ((192 <=? n)%nat && (n <=? 222)%nat && negb (n =? 215)%nat).

Definition lower_char (c : ascii) : ascii :=
  if is_upper c then ascii_of_nat (nat_of_ascii c + 32) else c.

(** [s.lower()] *)
Definition lower (s : str) : str := map lower_char s.

(** [s[lo:hi]] with Python's treatment of negative and out-of-range
    bounds. *)
Definition clamp_index (len i : Z) : Z :=
  if i <? 0 then Z.max (i + len) 0 else Z.min i len.

Definition slice (s : str) (lo hi : Z) : str :=
  let len := Z.of_nat (length s) in
  let lo' := clamp_index len lo in
  let hi' := clamp_index len hi in
  firstn (Z.to_nat (hi' - lo')) (skipn (Z.to_nat lo') s).

(** Comparison of strings: lexicographic on character codes. *)
Fixpoint ltb (s t : str) : bool :=
  match s, t with
  | _, [] => false
  | [], _ :: _ => true
  | c :: s', d :: t' =>
      (nat_of_ascii c <? nat_of_ascii d)%nat
      || (Ascii.eqb c d && ltb s' t')
  end.

Definition leb (s t : str) : bool := negb (ltb t s).

(** [s == t] *)
Fixpoint eqb (s t : str) : bool :=
  match s, t with
  | [], [] => true
  | c :: s', d :: t' => Ascii.eqb c d && eqb s' t'
  | _, _ => false
  end.

(** [s.find(sub, start)] for a start offset that is not negative: the
    search begins at [start]; beyond the end of [s] nothing is found. *)
Definition find_start (s sub : str) (start : nat) : Z :=
  if (length s <? start)%nat then -1
  else find_from (skipn start s) sub (Z.of_nat start).

(** The characters below U+0100 that [strip] removes, those for which
    [c.isspace()] holds: tab, line feed, vertical tab, form feed, carriage
    return (9..13), the four separators 28..31, space (32), next line
    (U+0085, 133) and no-break space (U+00A0, 160). *)
Definition is_space (c : ascii) : bool :=
  let n := nat_of_ascii c in
  ((9 <=? n)%nat && (n <=? 13)%nat) || ((28 <=? n)%nat && (n <=? 32)%nat)
  || (n =? 133)%nat || (n =? 160)%nat.

(** [s.lstrip()], [s.rstrip()], [s.strip()] *)
Fixpoint lstrip (s : str) : str :=
  match s with
  | [] => []
  | c :: s' => if is_space c then lstrip s' else s
  end.

Definition rstrip (s : str) : str := rev (lstrip (rev s)).

Definition strip (s : str) : str := rstrip (lstrip s).

(** [s.split(sep)] for a separator of one character, as the first piece
    and the pieces after it: the list is never empty. *)
Fixpoint split_pieces (s : str) (sep : ascii) : str * list str :=
  match s with
  | [] => ([], [])
  | c :: s' =>
      let '(piece, rest) := split_pieces s' sep in
      if Ascii.eqb c sep then ([], piece :: rest) else (c :: piece, rest)
  end.

Definition split (s : str) (sep : ascii) : list str :=
  let '(piece, rest) := split_pieces s sep in piece :: rest.

(** The text before the first [sep] and, when there is one, the text
    after it. *)
Fixpoint cut (s : str) (sep : ascii) : str * option str :=
  match s with
  | [] => ([], None)
  | c :: s' =>
      if Ascii.eqb c sep then ([], Some s')
      else let '(head, tail) := cut s' sep in (c :: head, tail)
  end.

(** [s.split(sep, 1)] for a separator of one character: one element when
    [sep] does not occur, two otherwise. *)
Definition split1 (s : str) (sep : ascii) : list str :=
  match cut s sep with
  | (head, None) => [head]
  | (head, Some tail) => [head; tail]
  end.

(** [sep.join(pieces)] *)
Fixpoint join (sep : str) (pieces : list str) : str :=
  match pieces with
  | [] => []
  | [piece] => piece
  | piece :: rest => piece ++ sep ++ join sep rest
  end.

(** ** Specification of occurrences *)

(** [sub] occurs in [s] at offset [i]. *)
Definition occurs_at (sub s : str) (i : nat) : Prop :=
  exists pre post, s = pre ++ sub ++ post /\ length pre = i.

(** [i] is the offset of the first occurrence of [sub] in [s]. *)
Definition first_occurrence (sub s : str) (i : nat) : Prop :=
  occurs_at sub s i /\ forall k, (k < i)%nat -> ~ occurs_at sub s k.

End PyStr.

(* ================================================================== *)
(** * Document parser: section extraction *)
(* ================================================================== *)

Module Parser.

(** [SkillAuditor._extract_section] *)
Definition _extract_section (content start_marker end_marker : str) : str :=
  let start_idx := PyStr.find content start_marker in
  let end_idx := PyStr.find content end_marker in
  if (start_idx =? -1) || (end_idx =? -1) then []
  else PyStr.slice content start_idx end_idx.

(** The marker pairs [_extract_skill_content] passes to
    [_extract_section]. *)
Definition what_i_do_markers : str * str :=
  (lit "## What I do", lit "## When to use me").
Definition when_to_use_markers : str * str :=
  (lit "## When to use me", lit "## Prerequisites").
Definition steps_markers : str * str :=
  (lit "## Steps", lit "## Best Practices").

Definition section_markers : list (str * str) :=
  [what_i_do_markers; when_to_use_markers; steps_markers].

(** Two texts agree as far as both reach. *)
Definition agree (u v : str) : bool :=
  PyStr.startswith u v || PyStr.startswith v u.

(** No occurrence of [em] can begin strictly inside an occurrence of
    [sm]. *)
Definition no_inner_overlap (sm em : str) : bool :=
  forallb (fun k => negb (agree (skipn k sm) em))
          (seq 1 (length sm - 1)).

End Parser.

(* ================================================================== *)
(** * Python floats: binary64 arithmetic *)
(* ================================================================== *)

(** A finite float is represented by the rational it denotes.  Every
    arithmetic operation returns the exact result rounded to the nearest
    binary64 number, ties to even ([rnd]); subnormal numbers are covered,
    infinities and NaN are not (no operation of [analyze.py] produces them
    on lengths of strings). *)

Module PyFloat.

Local Open Scope Q_scope.

(** Nearest integer, ties to even. *)
Definition rne (x : Q) : Z :=
  let f := Qfloor x in
  match Qcompare (x - inject_Z f) (1 # 2) with
  | Lt => f
  | Gt => (f + 1)%Z
  | Eq => if Z.even f then f else (f + 1)%Z
  end.

(** Binary exponent of a positive rational: [2^ilog2 x <= x < 2^(ilog2 x + 1)]. *)
Definition ilog2 (x : Q) : Z :=
  let l := (Z.log2 (Qnum x) - Z.log2 (Zpos (Qden x)))%Z in
  if Qle_bool (2 ^ l) x then l else (l - 1)%Z.

(** Exponent of the last place of the binary64 format: 53 significant
    bits, smallest exponent -1074. *)
Definition cexp (x : Q) : Z := Z.max (ilog2 x - 52) (-1074).

Definition rnd_pos (x : Q) : Q :=
  let e := cexp x in
  Qred (inject_Z (rne (x / 2 ^ e)) * 2 ^ e).

(** Rounding to binary64. *)
Definition rnd (x : Q) : Q :=
  match Qnum x with
  | Z0 => 0
  | Zpos _ => rnd_pos x
  | Zneg _ => - rnd_pos (- x)
  end.

(** [x + y], [x - y], [x * y], [x / y] on floats. *)
Definition fadd (x y : Q) : Q := rnd (x + y).
Definition fsub (x y : Q) : Q := rnd (x - y).
Definition fmul (x y : Q) : Q := rnd (x * y).
Definition fdiv (x y : Q) : Q := rnd (x / y).

(** Conversion of an [int] operand to float. *)
Definition of_int (n : Z) : Q := rnd (inject_Z n).

(** [a / b] on two [int]s: the correctly rounded quotient. *)
Definition int_truediv (a b : Z) : Q := rnd (inject_Z a / inject_Z b).

(** [int(x)]: truncation towards zero. *)
Definition to_int (x : Q) : Z := Z.quot (Qnum x) (Zpos (Qden x)).

(** The literal [x] of the source text: the float nearest to it. *)
Definition literal (x : Q) : Q := rnd x.

(** ** The builtin [sum] on a list of floats

    [sum] starts from the [int] 0 and adds the items from left to right.
    Up to CPython 3.11 every addition is a float addition.  From CPython
    3.12 on, the additions after the first are compensated (Neumaier's
    variant of Kahan summation): the rounding errors are accumulated in
    [c] and added to the total at the end. *)

Inductive sum_impl : Type :=
  | SumPlain        (* CPython up to 3.11 *)
  | SumCompensated. (* CPython 3.12 and later *)

Definition sum_plain (xs : list Q) : Q := fold_left fadd xs 0.

Definition neumaier_step (st : Q * Q) (x : Q) : Q * Q :=
  let '(f_result, c) := st in
  let t := fadd f_result x in
  let c :=
    if Qle_bool (Qabs x) (Qabs f_result)
    then fadd c (fadd (fsub f_result t) x)
    else fadd c (fadd (fsub x t) f_result) in
  (t, c).

Definition sum_compensated (xs : list Q) : Q :=
  match xs with
  | [] => 0
  | x :: xs' =>
      let '(f_result, c) := fold_left neumaier_step xs' (fadd 0 x, 0) in
      if Qeq_bool c 0 then f_result else fadd f_result c
  end.

Definition py_sum (impl : sum_impl) (xs : list Q) : Q :=
  match impl with
  | SumPlain => sum_plain xs
  | SumCompensated => sum_compensated xs
  end.

(** Numbers [m * 2^e] with a 53-bit significand and an exponent in
    range. *)
Definition representable (x : Q) : Prop :=
  exists m e : Z,
    x == inject_Z m * 2 ^ e /\ (0 <= m < 2 ^ 53)%Z /\ (-1074 <= e)%Z.

End PyFloat.

(* ================================================================== *)
(** * Python dictionaries with string keys *)
(* ================================================================== *)

(** A [dict] keeps its items in the order in which the keys were first
    inserted; assigning to a key that is present replaces the value in
    place. *)

Module Dict.

Definition dict (V : Type) : Type := list (str * V).

Section Operations.

Context {V : Type}.

(** [d.get(k)] / [d[k]]; [None] stands for a missing key. *)
Fixpoint get (d : dict V) (k : str) : option V :=
  match d with
  | [] => None
  | (k', v) :: d' => if PyStr.eqb k' k then Some v else get d' k
  end.

(** [d[k] = v] *)
Fixpoint set (d : dict V) (k : str) (v : V) : dict V :=
  match d with
  | [] => [(k, v)]
  | (k', v') :: d' =>
      if PyStr.eqb k' k then (k', v) :: d' else (k', v') :: set d' k v
  end.

(** [d.keys()], [d.values()], [d.items()] *)
Definition keys (d : dict V) : list str := map fst d.
Definition values (d : dict V) : list V := map snd d.
Definition items (d : dict V) : list (str * V) := d.

(** The dictionary built by assigning the entries in turn, starting from
    the empty dictionary. *)
Definition of_entries (entries : list (str * V)) : dict V :=
  fold_left (fun d (e : str * V) => set d (fst e) (snd e)) entries [].

End Operations.

End Dict.

(* ================================================================== *)
(** * Sorting *)
(* ================================================================== *)

(** [sorted] and [list.sort] are stable; on a list the result of a stable
    sort is determined by the order, and is computed here by insertion. *)

Module PySort.

Section Sort.

Context {A : Type}.
Variable le : A -> A -> bool.

Fixpoint insert (x : A) (l : list A) : list A :=
  match l with
  | [] => [x]
  | y :: l' => if le x y then x :: l else y :: insert x l'
  end.

Fixpoint sort (l : list A) : list A :=
  match l with
  | [] => []
  | x :: l' => insert x (sort l')
  end.

End Sort.

(** [sorted(names)] on strings. *)
Definition sorted_str (l : list str) : list str := sort PyStr.leb l.

End PySort.

(* ================================================================== *)
(** * difflib.SequenceMatcher *)
(* ================================================================== *)

(** [difflib.SequenceMatcher(None, a, b)] as [_calculate_similarity] uses
    it: no junk predicate ([isjunk] is [None], so [bjunk] stays empty) and
    the automatic junk heuristic switched on ([autojunk=True]).  Indices
    are natural numbers. *)

Module Difflib.

(** A matching block [(i, j, k)]: [a[i:i+k] == b[j:j+k]]. *)
Definition block : Type := nat * nat * nat.

(** A pending rectangle [(alo, ahi, blo, bhi)] of [get_matching_blocks]. *)
Definition rect : Type := nat * nat * nat * nat.

(** [s[i]] for an index in range. *)
Definition at_index (s : str) (i : nat) : ascii := nth i s zero.

(** The dictionary [j2len] of [find_longest_match], keys in the order of
    insertion. *)
Definition j2len_t : Type := list (nat * nat).

Fixpoint j2len_lookup (m : j2len_t) (j : nat) : nat :=
  match m with
  | [] => 0
  | (j', k) :: m' => if (j' =? j)%nat then k else j2len_lookup m' j
  end.

(** [j2len.get(j-1, 0)]; the key [-1] is never present. *)
Definition j2len_get_prev (m : j2len_t) (j : nat) : nat :=
  match j with
  | O => 0
  | S j' => j2len_lookup m j'
  end.

(** Comparison of blocks as Python compares tuples. *)
Definition block_leb (x y : block) : bool :=
  let '(i1, j1, k1) := x in
  let '(i2, j2, k2) := y in
  (i1 <? i2)%nat
  || ((i1 =? i2)%nat
      && ((j1 <? j2)%nat || ((j1 =? j2)%nat && (k1 <=? k2)%nat))).

(** [matching_blocks.sort()] *)
Definition block_sort (l : list block) : list block :=
  PySort.sort block_leb l.

Section Matcher.

Variables a b : str.

(** ** [__chain_b] *)

(** The indices of [elt] in [b], in increasing order. *)
Fixpoint indices_from (s : str) (j : nat) (elt : ascii) : list nat :=
  match s with
  | [] => []
  | c :: s' =>
      if Ascii.eqb c elt then j :: indices_from s' (S j) elt
      else indices_from s' (S j) elt
  end.

Definition indices (elt : ascii) : list nat := indices_from b 0 elt.

(** [elt in bpopular]: with at least 200 elements in [b], an element
    occurring more than [n // 100 + 1] times is dropped from [b2j]. *)
Definition popular (elt : ascii) : bool :=
  let n := length b in
  (200 <=? n)%nat && (n / 100 + 1 <? length (indices elt))%nat.

(** [b2j.get(elt, [])] *)
Definition b2j (elt : ascii) : list nat :=
  if popular elt then [] else indices elt.

(** [bjunk.__contains__]: the junk set is empty. *)
Definition isbjunk (elt : ascii) : bool := false.

(** ** [find_longest_match] *)

Section FindLongestMatch.

Variables alo ahi blo bhi : nat.

(** The loop over [b2j.get(a[i], nothing)], with its [continue] and
    [break]. *)
Fixpoint scan_row (js : list nat) (i : nat) (j2len newj2len : j2len_t)
    (best : block) : j2len_t * block :=
  match js with
  | [] => (newj2len, best)
  | j :: js' =>
      if (j <? blo)%nat then scan_row js' i j2len newj2len best
      else if (bhi <=? j)%nat then (newj2len, best)
      else
        let k := (j2len_get_prev j2len j + 1)%nat in
        let newj2len := (j, k) :: newj2len in
        let '(besti, bestj, bestsize) := best in
        let best :=
          if (bestsize <? k)%nat then ((i + 1 - k)%nat, (j + 1 - k)%nat, k)
          else best in
        scan_row js' i j2len newj2len best
  end.

(** The loop [for i in range(alo, ahi)]. *)
Definition scan_rows : j2len_t * block :=
  fold_left
    (fun (st : j2len_t * block) (i : nat) =>
       let '(j2len, best) := st in
       scan_row (b2j (at_index a i)) i j2len [] best)
    (seq alo (ahi - alo))
    ([], (alo, blo, 0%nat)).

(** The loops extending the match to the left: [keep] is
    [not isbjunk(...)] for the first one and [isbjunk(...)] for the
    second. *)
Fixpoint extend_left (keep : ascii -> bool) (besti bestj bestsize : nat)
    {struct besti} : block :=
  match besti, bestj with
  | S i', S j' =>
      if (alo <? besti)%nat && (blo <? bestj)%nat
         && keep (at_index b j')
         && Ascii.eqb (at_index a i') (at_index b j')
      then extend_left keep i' j' (S bestsize)
      else (besti, bestj, bestsize)
  | _, _ => (besti, bestj, bestsize)
  end.

(** The loops extending the match to the right; [n] bounds the number of
    iterations by the number of elements of [a] right of the match. *)
Fixpoint extend_right (keep : ascii -> bool) (n : nat)
    (besti bestj bestsize : nat) : block :=
  match n with
  | O => (besti, bestj, bestsize)
  | S n' =>
      if (besti + bestsize <? ahi)%nat && (bestj + bestsize <? bhi)%nat
         && keep (at_index b (bestj + bestsize))
         && Ascii.eqb (at_index a (besti + bestsize))
                      (at_index b (bestj + bestsize))
      then extend_right keep n' besti bestj (S bestsize)
      else (besti, bestj, bestsize)
  end.

Definition extend (keep : ascii -> bool) (m : block) : block :=
  let '(besti, bestj, bestsize) := m in
  let '(besti, bestj, bestsize) := extend_left keep besti bestj bestsize in
  extend_right keep (ahi - (besti + bestsize)) besti bestj bestsize.

Definition find_longest_match : block :=
  let m := snd scan_rows in
  let m := extend (fun c => negb (isbjunk c)) m in
  extend isbjunk m.

End FindLongestMatch.

(** ** [get_matching_blocks] *)

(** One iteration of [while queue]: the top of the stack is the head of
    the list. *)
Definition step (alo ahi blo bhi : nat) (queue : list rect)
    (matching_blocks : list block) : list rect * list block :=
  let '(i, j, k) := find_longest_match alo ahi blo bhi in
  if (k =? 0)%nat then (queue, matching_blocks)
  else
    let queue :=
      if (alo <? i)%nat && (blo <? j)%nat
      then (alo, i, blo, j) :: queue else queue in
    let queue :=
      if (i + k <? ahi)%nat && (j + k <? bhi)%nat
      then ((i + k)%nat, ahi, (j + k)%nat, bhi) :: queue else queue in
    (queue, matching_blocks ++ [(i, j, k)]).

(** The loop [while queue], for at most [fuel] iterations. *)
Fixpoint loop (fuel : nat) (queue : list rect) (matching_blocks : list block)
  : list rect * list block :=
  match fuel, queue with
  | S fuel', (alo, ahi, blo, bhi) :: queue' =>
      let '(queue', matching_blocks) :=
        step alo ahi blo bhi queue' matching_blocks in
      loop fuel' queue' matching_blocks
  | _, _ => (queue, matching_blocks)
  end.

(** Merging of adjacent blocks. *)
Fixpoint collapse (l : list block) (i1 j1 k1 : nat) : list block :=
  match l with
  | [] => if (k1 =? 0)%nat then [] else [(i1, j1, k1)]
  | (i2, j2, k2) :: l' =>
      if ((i1 + k1 =? i2) && (j1 + k1 =? j2))%nat
      then collapse l' i1 j1 (k1 + k2)
      else
        (if (k1 =? 0)%nat then [] else [(i1, j1, k1)])
        ++ collapse l' i2 j2 k2
  end.

(** Every iteration of the loop removes a rectangle and adds at most two
    that share less of [a]: [2 * len(a) + 1] iterations empty the queue. *)
Definition get_matching_blocks : list block :=
  let la := length a in
  let lb := length b in
  let '(_, matching_blocks) := loop (2 * la + 1) [(0%nat, la, 0%nat, lb)] [] in
  let matching_blocks := block_sort matching_blocks in
  let non_adjacent := collapse matching_blocks 0 0 0 in
  non_adjacent ++ [(la, lb, 0%nat)].

(** [sum(triple[-1] for triple in self.get_matching_blocks())] *)
Definition matches : nat :=
  fold_left (fun acc (t : block) => (acc + snd t)%nat) get_matching_blocks 0%nat.

(** [_calculate_ratio(matches, length)] *)
Definition _calculate_ratio (matches length : nat) : Q :=
  if (length =? 0)%nat then 1%Q
  else PyFloat.fdiv
         (PyFloat.fmul 2 (PyFloat.of_int (Z.of_nat matches)))
         (PyFloat.of_int (Z.of_nat length)).

(** [SequenceMatcher(None, a, b).ratio()] *)
Definition ratio : Q := _calculate_ratio matches (length a + length b).

End Matcher.

End Difflib.

(* ================================================================== *)
(** * The methods of [SkillAuditor] *)
(* ================================================================== *)

Module Auditor.

Import Dict.

(** The dictionary [_extract_skill_content] returns for one skill. *)
Record skill : Type := {
  name : str;
  description : str;
  what_i_do : str;
  when_to_use : str;
  steps : str;
  full_content : str;
  char_count : Z
}.

(** [skill.get(key, '')] for a text field. *)
Definition skill_get (s : skill) (key : str) : str :=
  if PyStr.eqb key (lit "name") then name s
  else if PyStr.eqb key (lit "description") then description s
  else if PyStr.eqb key (lit "what_i_do") then what_i_do s
  else if PyStr.eqb key (lit "when_to_use") then when_to_use s
  else if PyStr.eqb key (lit "steps") then steps s
  else if PyStr.eqb key (lit "full_content") then full_content s
  else [].

(** [self.skills_data]: the skills by name, in the order of loading. *)
Definition skills : Type := dict skill.

(** ** Duplicity matrix *)

(** The dictionary [weights] of [calculate_duplicity_matrix]. *)
Definition weights : dict Q :=
  [ (lit "name", PyFloat.literal (15 # 100));
    (lit "description", PyFloat.literal (25 # 100));
    (lit "what_i_do", PyFloat.literal (30 # 100));
    (lit "when_to_use", PyFloat.literal (20 # 100));
    (lit "steps", PyFloat.literal (10 # 100)) ].

Section Similarity.

(** The [sum] of the interpreter the auditor runs on. *)
Variable impl : PyFloat.sum_impl.

(** The loop of [_calculate_similarity] filling [scores]. *)
Definition field_scores (skill1 skill2 : skill) (weights : dict Q) : dict Q :=
  fold_left
    (fun scores (kw : str * Q) =>
       let '(key, weight) := kw in
       let text1 := PyStr.lower (skill_get skill1 key) in
       let text2 := PyStr.lower (skill_get skill2 key) in
       let similarity := Difflib.ratio text1 text2 in
       set scores key (PyFloat.fmul similarity weight))
    (items weights) [].

(** [SkillAuditor._calculate_similarity] *)
Definition _calculate_similarity (skill1 skill2 : skill) (weights : dict Q)
  : Z :=
  let scores := field_scores skill1 skill2 weights in
  PyFloat.to_int
    (PyFloat.fmul (PyFloat.py_sum impl (values scores)) (PyFloat.of_int 100)).

(** The inner loop of [calculate_duplicity_matrix] filling the row of
    [skill1]; [None] stands for the [KeyError] of a failed lookup in
    [skills_data]. *)
Definition matrix_row (skills_data : skills) (skill_names : list str)
    (skill1 : str) : option (dict Z) :=
  fold_left
    (fun (row : option (dict Z)) (skill2 : str) =>
       match row with
       | None => None
       | Some row =>
           if PyStr.eqb skill1 skill2 then Some (set row skill2 100)
           else
             match get skills_data skill1, get skills_data skill2 with
             | Some d1, Some d2 =>
                 Some (set row skill2 (_calculate_similarity d1 d2 weights))
             | _, _ => None
             end
       end)
    skill_names (Some []).

(** [SkillAuditor.calculate_duplicity_matrix].  The row stored under
    [skill1] is the dictionary the inner loop fills. *)
Definition calculate_duplicity_matrix (skills_data : skills)
  : option (dict (dict Z)) :=
  let skill_names := PySort.sorted_str (keys skills_data) in
  fold_left
    (fun (matrix : option (dict (dict Z))) (skill1 : str) =>
       match matrix, matrix_row skills_data skill_names skill1 with
       | Some matrix, Some row => Some (set matrix skill1 row)
       | _, _ => None
       end)
    skill_names (Some []).

End Similarity.

(** ** Token costs *)

(** [SkillAuditor.estimate_tokens]: [int(char_count / 4 * 1.1)]. *)
Definition estimate_tokens (skill_data : skill) : Z :=
  PyFloat.to_int
    (PyFloat.fmul (PyFloat.int_truediv (char_count skill_data) 4)
                  (PyFloat.literal (11 # 10))).

(** The values of [status]. *)
Inductive status : Type := OK | WARNING | CRITICAL.

(** The [if]/[elif] of [analyze_token_costs]. *)
Definition token_status (tokens : Z) : status :=
  if 3000 <? tokens then CRITICAL
  else if 2000 <? tokens then WARNING
  else OK.

(** [SkillAuditor._classify_skill] *)
Definition _classify_skill (skill_name : str) : str :=
  let starts p := PyStr.startswith skill_name (lit p) in
  let ends p := PyStr.endswith skill_name (lit p) in
  if starts "python-"%string || starts "javascript-"%string || starts "nextjs-"%string
  then lit "language-specific"
  else if ends "-linter"%string then lit "linting"
  else if ends "-test-creator"%string || ends "-pytest"%string then lit "testing"
  else if starts "git-"%string || starts "jira-"%string then lit "git/jira"
  else if starts "opentofu-"%string then lit "opentofu"
  else if starts "opencode-"%string then lit "opencode-meta"
  else if ends "-setup"%string || ends "-standard"%string then lit "project-setup"
  else if ends "-workflow"%string then lit "workflow"
  else if ends "-framework"%string then lit "framework"
  else lit "other".

(** One entry of [token_analysis]. *)
Record token_record : Type := {
  tr_name : str;
  tr_char_count : Z;
  tr_tokens : Z;
  tr_status : status;
  tr_code_blocks : Z;
  tr_category : str
}.

(** The body of the loop of [analyze_token_costs]. *)
Definition token_entry (skill_name : str) (skill_data : skill)
  : token_record :=
  let tokens := estimate_tokens skill_data in
  {| tr_name := skill_name;
     tr_char_count := char_count skill_data;
     tr_tokens := tokens;
     tr_status := token_status tokens;
     tr_code_blocks := PyStr.count (full_content skill_data) (lit "```") / 2;
     tr_category := _classify_skill skill_name |}.

(** The order of [sort(key=lambda x: x['tokens'], reverse=True)]: [x] may
    stay before [y]. *)
Definition tokens_geb (x y : token_record) : bool :=
  tr_tokens y <=? tr_tokens x.

(** [SkillAuditor.analyze_token_costs] *)
Definition analyze_token_costs (skills_data : skills) : list token_record :=
  let token_analysis :=
    map (fun (e : str * skill) => token_entry (fst e) (snd e))
        (items skills_data) in
  PySort.sort tokens_geb token_analysis.

(** ** Subagent compatibility *)

(** The dictionary [_extract_tool_requirements] returns. *)
Record requirements : Type := {
  has_bash : bool;
  has_python : bool;
  has_task : bool;
  has_atlassian_mcp : bool;
  has_drawio_mcp : bool;
  has_zai_mcp : bool;
  has_question : bool
}.

(** The restrictions of one subagent. *)
Record restrictions : Type := {
  allowed_tools : list str;
  allowed_mcp : list str;
  agent_description : str
}.

(** [x in l] on a list of strings. *)
Definition str_in (x : str) (l : list str) : bool := existsb (PyStr.eqb x) l.

(** The words of the delegation cue. *)
Definition task_words : list str :=
  [lit "task"; lit "delegate"; lit "subagent"].

(** [SkillAuditor._extract_tool_requirements] *)
Definition _extract_tool_requirements (content : str) : requirements :=
  {| has_bash := PyStr.contains content (lit "```bash");
     has_python := PyStr.contains content (lit "```python");
     has_task := existsb (fun word => PyStr.contains content word) task_words;
     has_atlassian_mcp := PyStr.contains (PyStr.lower content) (lit "atlassian");
     has_drawio_mcp := PyStr.contains (PyStr.lower content) (lit "drawio");
     has_zai_mcp := PyStr.contains (PyStr.lower content) (lit "zai-mcp-server");
     has_question := PyStr.contains (PyStr.lower content) (lit "question") |}.

(** [SkillAuditor._check_compatibility] *)
Definition _check_compatibility (reqs : requirements) (restr : restrictions)
  : bool :=
  if has_task reqs
     && negb (PyStr.eqb (agent_description restr) (lit "Full access"))
  then false
  else if has_atlassian_mcp reqs
          && negb (str_in (lit "atlassian") (allowed_mcp restr))
  then false
  else if has_drawio_mcp reqs
          && negb (str_in (lit "drawio") (allowed_mcp restr))
  then false
  else if has_zai_mcp reqs
          && negb (str_in (lit "zai-mcp-server") (allowed_mcp restr))
  then false
  else true.

Definition file_tools : list str :=
  [lit "read"; lit "write"; lit "edit"; lit "glob"; lit "grep"].

Definition primary : restrictions :=
  {| allowed_tools :=
       file_tools ++ [lit "bash"; lit "task"; lit "todowrite";
                      lit "todoread"; lit "question"];
     allowed_mcp := [lit "atlassian"; lit "drawio"; lit "zai-mcp-server"];
     agent_description := lit "Full access" |}.

Definition restricted (mcp : list str) (descr : string) : restrictions :=
  {| allowed_tools := file_tools;
     allowed_mcp := mcp;
     agent_description := lit descr |}.

(** The dictionary [subagents] of [check_subagent_compatibility]. *)
Definition subagents : dict restrictions :=
  [ (lit "primary", primary);
    (lit "linting-subagent", restricted [] "Linting specialization");
    (lit "testing-subagent", restricted [] "Testing specialization");
    (lit "git-workflow-subagent",
      restricted [lit "atlassian"] "Git/JIRA specialization");
    (lit "documentation-subagent",
      restricted [] "Documentation specialization");
    (lit "opentofu-explorer-subagent", restricted [] "OpenTofu specialization");
    (lit "workflow-subagent",
      restricted [lit "atlassian"] "Workflow coordination") ].

(** The inner loop of [check_subagent_compatibility]. *)
Definition compatibility_row (skill_requirements : requirements)
  : dict bool :=
  fold_left
    (fun row (e : str * restrictions) =>
       set row (fst e) (_check_compatibility skill_requirements (snd e)))
    (items subagents) [].

(** [SkillAuditor.check_subagent_compatibility].  The row stored under
    [skill_name] is the dictionary the inner loop fills. *)
Definition check_subagent_compatibility (skills_data : skills)
  : dict (dict bool) :=
  fold_left
    (fun matrix (e : str * skill) =>
       let skill_requirements :=
         _extract_tool_requirements (full_content (snd e)) in
       set matrix (fst e) (compatibility_row skill_requirements))
    (items skills_data) [].

(** ** Loading *)

(** [SkillAuditor.load_all_skills] on the skills found by the directory
    scan, each with the name of its directory: [skills_data[name] = ...]
    for every file in turn. *)
Definition load_all_skills (found : list (str * skill)) : skills :=
  of_entries found.

End Auditor.

(* ================================================================== *)
(** * Document parser: header and fields of one skill file *)
(* ================================================================== *)

Module Loader.

Import Dict Auditor.

(** The characters the parser splits on. *)
Definition newline : ascii := "010"%char.
Definition colon : ascii := ":"%char.

(** The body of the loop of [_parse_yaml_frontmatter] on one line;
    [None] stands for the [ValueError] of unpacking [key, value] from a
    list that has not two elements. *)
Definition parse_line (frontmatter : dict str) (line : str)
  : option (dict str) :=
  if PyStr.contains line [colon] then
    match PyStr.split1 line colon with
    | [key; value] => Some (set frontmatter (PyStr.strip key) (PyStr.strip value))
    | _ => None
    end
  else Some frontmatter.

(** The loop of [_parse_yaml_frontmatter] over the lines. *)
Definition parse_lines (lines : list str) : option (dict str) :=
  fold_left
    (fun (frontmatter : option (dict str)) (line : str) =>
       match frontmatter with
       | None => None
       | Some frontmatter => parse_line frontmatter line
       end)
    lines (Some []).

(** [SkillAuditor._parse_yaml_frontmatter] *)
Definition _parse_yaml_frontmatter (text : str) : option (dict str) :=
  parse_lines (PyStr.split (PyStr.strip text) newline).

(** [frontmatter.get(key, '')] *)
Definition get_or_empty (frontmatter : dict str) (key : str) : str :=
  match get frontmatter key with
  | Some value => value
  | None => []
  end.

(** The first part of [_extract_skill_content]: the header, when there is
    one, and the body. *)
Definition split_frontmatter (content : str) : option (dict str * str) :=
  if PyStr.startswith content (lit "---") then
    let frontmatter_end := PyStr.find_start content (lit "---") 3 in
    if negb (frontmatter_end =? -1) then
      let frontmatter_text := PyStr.slice content 3 frontmatter_end in
      match _parse_yaml_frontmatter frontmatter_text with
      | Some frontmatter =>
          Some (frontmatter,
                PyStr.slice content (frontmatter_end + 3)
                            (Z.of_nat (length content)))
      | None => None
      end
    else Some ([], content)
  else Some ([], content).

(** [SkillAuditor._extract_skill_content] on the text read from the skill
    file. *)
Definition _extract_skill_content (content : str) : option skill :=
  match split_frontmatter content with
  | None => None
  | Some (frontmatter, content_body) =>
      Some {| name := get_or_empty frontmatter (lit "name");
              description := get_or_empty frontmatter (lit "description");
              what_i_do :=
                Parser._extract_section content_body
                  (lit "## What I do") (lit "## When to use me");
              when_to_use :=
                Parser._extract_section content_body
                  (lit "## When to use me") (lit "## Prerequisites");
              steps :=
                Parser._extract_section content_body
                  (lit "## Steps") (lit "## Best Practices");
              full_content := content_body;
              char_count := Z.of_nat (length content) |}
  end.

(** ** Reading the skill files *)

(** What [open(skill_path, 'r', encoding='utf-8')] and [f.read()] raise:
    [OSError] on a file that cannot be opened or read,
    [UnicodeDecodeError] on bytes that are not UTF-8. *)
Inductive read_error : Type :=
  | OSError
  | UnicodeDecodeError.

(** The exceptions of the loader: a failed read, or the [ValueError] of
    an unpacking. *)
Inductive load_error : Type :=
  | ReadError (e : read_error)
  | ValueError.

(** A skill file found by [glob("*/SKILL.md")]: the name of its directory
    ([skill_file.parent.name]) and the outcome of reading it, its text
    or the exception raised. *)
Definition skill_file : Type := str * (str + read_error).

(** [SkillAuditor._extract_skill_content(skill_path)]: the file is read,
    then its text is parsed. *)
Definition extract_skill_file (read : str + read_error) : skill + load_error :=
  match read with
  | inr e => inr (ReadError e)
  | inl content =>
      match _extract_skill_content content with
      | Some sections => inl sections
      | None => inr ValueError
      end
  end.

(** The loop of [load_all_skills] over the files found, on the
    dictionary [self.skills_data]: the parse of every file is stored
    under the name of its directory.  An exception ends the loop; the
    entries stored before it stay in the dictionary. *)
Fixpoint load_files (files : list skill_file) (skills_data : skills)
  : skills * option load_error :=
  match files with
  | [] => (skills_data, None)
  | (skill_name, read) :: files' =>
      match extract_skill_file read with
      | inl sections =>
          load_files files' (set skills_data skill_name sections)
      | inr e => (skills_data, Some e)
      end
  end.

End Loader.

(* ================================================================== *)
(** * Statistics of the reports *)
(* ================================================================== *)

(** The three report generators compute their figures from the results of
    the analyses before they fill in a template.  This part covers the
    figures; reading the template, substituting the placeholders and
    writing the file are left out. *)

Module Reports.

Import Dict Auditor.

(** ** Exceptions *)

Inductive exn : Type := KeyError | ZeroDivisionError.

(** A computation returns a value or raises. *)
Definition result (A : Type) : Type := (A + exn)%type.

Definition ret {A : Type} (a : A) : result A := inl a.
Definition raise {A : Type} (e : exn) : result A := inr e.

Definition bind {A B : Type} (m : result A) (f : A -> result B) : result B :=
  match m with
  | inl a => f a
  | inr e => inr e
  end.

Notation "x <- m ;; k" := (bind m (fun x => k))
  (at level 61, m at next level, right associativity).

(** [d[k]] *)
Definition lookup {V : Type} (d : dict V) (k : str) : result V :=
  match get d k with
  | Some v => ret v
  | None => raise KeyError
  end.

(** [a / b] on two [int]s. *)
Definition truediv (a b : Z) : result Q :=
  if b =? 0 then raise ZeroDivisionError else ret (PyFloat.int_truediv a b).

(** ** Suitability report *)

(** [sum(1 for s in names if compatibility_matrix[s][agent])] *)
Definition count_compatible (compatibility_matrix : dict (dict bool))
    (names : list str) (agent : str) : result Z :=
  fold_left
    (fun (total : result Z) (s : str) =>
       total <- total ;;
       row <- lookup compatibility_matrix s ;;
       compatible <- lookup row agent ;;
       ret (if compatible : bool then total + 1 else total))
    names (ret 0).

(** [sum(1 for s in values if cue(s['full_content']))] *)
Definition count_cue (cue : str -> bool) (values : list skill) : Z :=
  fold_left
    (fun (total : Z) (s : skill) =>
       if cue (full_content s) then total + 1 else total)
    values 0.

(** [int(count / num_skills * 100)] *)
Definition percent (count num_skills : Z) : result Z :=
  q <- truediv count num_skills ;;
  ret (PyFloat.to_int (PyFloat.fmul q (PyFloat.of_int 100))).

(** The counts of [generate_suitability_report]. *)
Record suitability_counts : Type := {
  num_skills : Z;
  primary_compatible : Z;
  linting_compatible : Z;
  testing_compatible : Z;
  git_compatible : Z;
  docs_compatible : Z;
  opentofu_compatible : Z;
  workflow_compatible : Z;
  bash_count : Z;
  task_count : Z;
  atlassian_count : Z;
  drawio_count : Z;
  zai_count : Z;
  question_count : Z
}.

Definition suitability_statistics (skills_data : skills)
  : result suitability_counts :=
  let compatibility_matrix := check_subagent_compatibility skills_data in
  let count := count_compatible compatibility_matrix (keys skills_data) in
  let in_lower word content := PyStr.contains (PyStr.lower content) (lit word) in
  primary <- count (lit "primary") ;;
  linting <- count (lit "linting-subagent") ;;
  testing <- count (lit "testing-subagent") ;;
  git <- count (lit "git-workflow-subagent") ;;
  docs <- count (lit "documentation-subagent") ;;
  opentofu <- count (lit "opentofu-explorer-subagent") ;;
  workflow <- count (lit "workflow-subagent") ;;
  ret {| num_skills := Z.of_nat (length skills_data);
         primary_compatible := primary;
         linting_compatible := linting;
         testing_compatible := testing;
         git_compatible := git;
         docs_compatible := docs;
         opentofu_compatible := opentofu;
         workflow_compatible := workflow;
         bash_count :=
           count_cue (fun content => PyStr.contains content (lit "```bash"))
                     (values skills_data);
         task_count :=
           count_cue (fun content =>
                        existsb (fun w => PyStr.contains content w) task_words)
                     (values skills_data);
         atlassian_count :=
           count_cue (in_lower "atlassian"%string) (values skills_data);
         drawio_count :=
           count_cue (in_lower "drawio"%string) (values skills_data);
         zai_count :=
           count_cue (in_lower "zai-mcp-server"%string) (values skills_data);
         question_count :=
           count_cue (in_lower "question"%string) (values skills_data) |}.

(** ** Duplicity report *)

(** An entry [(skill1, skill2, score)] of [high_dup_pairs] or
    [moderate_dup_pairs]. *)
Definition dup_pair : Type := (str * str * Z)%type.

Definition pair_score (p : dup_pair) : Z := snd p.

(** [matrix[skill1][skill2]] *)
Definition matrix_at (matrix : dict (dict Z)) (skill1 skill2 : str)
  : result Z :=
  row <- lookup matrix skill1 ;;
  lookup row skill2.

(** The body of the inner loop over [skill_names[i+1:]]. *)
Definition classify_pair (matrix : dict (dict Z)) (skill1 : str)
    (lists : result (list dup_pair * list dup_pair)) (skill2 : str)
  : result (list dup_pair * list dup_pair) :=
  lists <- lists ;;
  score <- matrix_at matrix skill1 skill2 ;;
  let '(high_dup_pairs, moderate_dup_pairs) := lists in
  ret (if 70 <=? score
       then (high_dup_pairs ++ [(skill1, skill2, score)], moderate_dup_pairs)
       else if 50 <=? score
       then (high_dup_pairs, moderate_dup_pairs ++ [(skill1, skill2, score)])
       else (high_dup_pairs, moderate_dup_pairs)).

(** The two loops: each skill with the skills after it in
    [skill_names]. *)
Fixpoint collect_pairs (matrix : dict (dict Z)) (skill_names : list str)
    (lists : list dup_pair * list dup_pair)
  : result (list dup_pair * list dup_pair) :=
  match skill_names with
  | [] => ret lists
  | skill1 :: rest =>
      lists <- fold_left (classify_pair matrix skill1) rest (ret lists) ;;
      collect_pairs matrix rest lists
  end.

(** The order of [sort(key=lambda x: x[2], reverse=True)]. *)
Definition score_geb (x y : dup_pair) : bool := pair_score y <=? pair_score x.

(** [sum(matrix[s1][s2] for s1 in skill_names for s2 in skill_names)] *)
Definition total_similarity (matrix : dict (dict Z)) (skill_names : list str)
  : result Z :=
  fold_left
    (fun (total : result Z) (s1 : str) =>
       fold_left
         (fun (total : result Z) (s2 : str) =>
            total <- total ;;
            score <- matrix_at matrix s1 s2 ;;
            ret (total + score))
         skill_names total)
    skill_names (ret 0).

(** [dup_counts[skill] = dup_counts.get(skill, 0) + 1] *)
Definition count_up (dup_counts : dict Z) (skill : str) : dict Z :=
  set dup_counts skill
      (match get dup_counts skill with Some n => n | None => 0 end + 1).

(** The order of [sorted(..., key=lambda x: x[1], reverse=True)]. *)
Definition count_geb (x y : str * Z) : bool := snd y <=? snd x.

(** The figures of [generate_duplicity_report]. *)
Record duplicity_figures : Type := {
  high_dup_pairs : list dup_pair;
  moderate_dup_pairs : list dup_pair;
  low_dup_count : Z;
  avg_similarity : Z;
  most_duplicated : list (str * Z)
}.

Definition duplicity_statistics (matrix : dict (dict Z))
    (skills_data : skills) : result duplicity_figures :=
  let skill_names := PySort.sorted_str (keys skills_data) in
  let num_skills := Z.of_nat (length skill_names) in
  lists <- collect_pairs matrix skill_names ([], []) ;;
  let high_dup_pairs := PySort.sort score_geb (fst lists) in
  let moderate_dup_pairs := PySort.sort score_geb (snd lists) in
  total_similarity <- total_similarity matrix skill_names ;;
  avg <- truediv total_similarity (num_skills * num_skills) ;;
  let avg_similarity := PyFloat.to_int avg in
  let dup_counts :=
    fold_left
      (fun dup_counts (p : dup_pair) =>
         let '(skill1, skill2, _) := p in
         count_up (count_up dup_counts skill1) skill2)
      high_dup_pairs [] in
  let most_duplicated :=
    firstn 10 (PySort.sort count_geb (items dup_counts)) in
  ret {| high_dup_pairs := high_dup_pairs;
         moderate_dup_pairs := moderate_dup_pairs;
         low_dup_count :=
           PyFloat.to_int
             (PyFloat.int_truediv (num_skills * (num_skills - 1)) 2)
           - Z.of_nat (length high_dup_pairs)
           - Z.of_nat (length moderate_dup_pairs);
         avg_similarity := avg_similarity;
         most_duplicated := most_duplicated |}.

(** [generate_duplicity_report] up to its figures, on the matrix it
    computes; a lookup that [calculate_duplicity_matrix] fails raises
    [KeyError]. *)
Definition duplicity_report_statistics (impl : PyFloat.sum_impl)
    (skills_data : skills) : result duplicity_figures :=
  match calculate_duplicity_matrix impl skills_data with
  | None => raise KeyError
  | Some matrix => duplicity_statistics matrix skills_data
  end.

(** ** Token report *)

(** One entry of [categories]: its ['count'] and its ['tokens']. *)
Definition category_data : Type := (Z * Z)%type.

(** The body of the loop filling [categories]. *)
Definition add_category (categories : result (dict category_data))
    (skill : token_record) : result (dict category_data) :=
  categories <- categories ;;
  let cat := tr_category skill in
  let categories :=
    match get categories cat with
    | None => set categories cat (0, 0)
    | Some _ => categories
    end in
  data <- lookup categories cat ;;
  let categories := set categories cat (fst data + 1, snd data) in
  data <- lookup categories cat ;;
  ret (set categories cat (fst data, snd data + tr_tokens skill)).

(** A row of the category table: category, count, average, tokens and
    share of the total in percent. *)
Definition category_row : Type := (str * Z * Z * Z * Z)%type.

(** The body of the loop over [sorted(categories.items())]. *)
Definition category_line (total_tokens : Z) (e : str * category_data)
  : result category_row :=
  let '(cat, (count, tokens)) := e in
  avg <- truediv tokens count ;;
  share <- truediv tokens total_tokens ;;
  ret (cat, count, PyFloat.to_int avg, tokens,
       PyFloat.to_int (PyFloat.fmul share (PyFloat.of_int 100))).

(** The order of [sorted(categories.items())]: the keys are distinct, so
    the items are ordered by key. *)
Definition category_leb (x y : str * category_data) : bool :=
  PyStr.leb (fst x) (fst y).

(** The figures of [generate_token_report]. *)
Record token_figures : Type := {
  total_tokens : Z;
  avg_tokens : Z;
  critical_count : Z;
  oversized_count : Z;
  categories : dict category_data;
  category_table : list category_row
}.

Definition is_critical (s : token_record) : bool :=
  match tr_status s with CRITICAL => true | _ => false end.

Definition is_oversized (s : token_record) : bool :=
  match tr_status s with CRITICAL | WARNING => true | OK => false end.

(** [sum(1 for s in token_analysis if p(s))] *)
Definition count_records (p : token_record -> bool)
    (token_analysis : list token_record) : Z :=
  fold_left (fun (total : Z) s => if p s then total + 1 else total)
            token_analysis 0.

Definition token_statistics (token_analysis : list token_record)
  : result token_figures :=
  let total_tokens :=
    fold_left (fun (total : Z) s => total + tr_tokens s) token_analysis 0 in
  avg <- truediv total_tokens (Z.of_nat (length token_analysis)) ;;
  let avg_tokens := PyFloat.to_int avg in
  let critical_count := count_records is_critical token_analysis in
  let oversized_count := count_records is_oversized token_analysis in
  categories <- fold_left add_category token_analysis (ret []) ;;
  category_table <-
    fold_left
      (fun (table : result (list category_row)) e =>
         table <- table ;;
         row <- category_line total_tokens e ;;
         ret (table ++ [row]))
      (PySort.sort category_leb (items categories)) (ret []) ;;
  ret {| total_tokens := total_tokens;
         avg_tokens := avg_tokens;
         critical_count := critical_count;
         oversized_count := oversized_count;
         categories := categories;
         category_table := category_table |}.

(** [generate_token_report] up to its figures. *)
Definition token_report_statistics (skills_data : skills)
  : result token_figures :=
  token_statistics (analyze_token_costs skills_data).

(** *** Optimization targets *)

(** A number that is an [int] or a [float]: [potential_savings] starts
    as the [int] 0 and becomes a [float] once a [float] is added. *)
Inductive number : Type :=
  | Int (n : Z)
  | Float (x : Q).

(** [a + n] for an [int] [n] *)
Definition add_int (a : number) (n : Z) : number :=
  match a with
  | Int m => Int (m + n)
  | Float x => Float (PyFloat.fadd x (PyFloat.of_int n))
  end.

(** [a + x] for a [float] [x] *)
Definition add_float (a : number) (x : Q) : number :=
  match a with
  | Int m => Float (PyFloat.fadd (PyFloat.of_int m) x)
  | Float y => Float (PyFloat.fadd y x)
  end.

(** [a > k] for an [int] [k]: numbers of both kinds are compared by
    value. *)
Definition gt_int (a : number) (k : Z) : bool :=
  match a with
  | Int m => k <? m
  | Float x => negb (Qle_bool x (inject_Z k))
  end.

(** [int(a)] *)
Definition int_of (a : number) : Z :=
  match a with
  | Int m => m
  | Float x => PyFloat.to_int x
  end.

(** The savings the loop over [token_analysis] attributes to a skill. *)
Definition potential_savings (skill : token_record) : number :=
  let potential_savings := Int 0 in
  let potential_savings :=
    if 3 <? tr_code_blocks skill
    then add_int potential_savings (tr_code_blocks skill / 2 * 150)
    else potential_savings in
  if 5000 <? tr_char_count skill
  then add_float potential_savings
         (PyFloat.fmul (PyFloat.of_int (tr_char_count skill))
                       (PyFloat.literal (2 # 100)))
  else potential_savings.

(** A row of a target table, by the name of the skill and the savings
    shown. *)
Definition target_row : Type := (str * Z)%type.

(** The three lists of targets. *)
Record impact_targets : Type := {
  high_impact_targets : list target_row;
  medium_impact_targets : list target_row;
  low_impact_targets : list target_row
}.

(** The body of the loop sorting the skills into the lists. *)
Definition add_target (targets : impact_targets) (skill : token_record)
  : impact_targets :=
  let potential_savings := potential_savings skill in
  let row := (tr_name skill, int_of potential_savings) in
  if gt_int potential_savings 200 then
    {| high_impact_targets := high_impact_targets targets ++ [row];
       medium_impact_targets := medium_impact_targets targets;
       low_impact_targets := low_impact_targets targets |}
  else if gt_int potential_savings 100 then
    {| high_impact_targets := high_impact_targets targets;
       medium_impact_targets := medium_impact_targets targets ++ [row];
       low_impact_targets := low_impact_targets targets |}
  else if gt_int potential_savings 0 then
    {| high_impact_targets := high_impact_targets targets;
       medium_impact_targets := medium_impact_targets targets;
       low_impact_targets := low_impact_targets targets ++ [row] |}
  else targets.

Definition optimization_targets (token_analysis : list token_record)
  : impact_targets :=
  fold_left add_target token_analysis
    {| high_impact_targets := [];
       medium_impact_targets := [];
       low_impact_targets := [] |}.

End Reports.

(* ================================================================== *)
(** * Properties of the string primitives *)
(* ================================================================== *)

Module PyStrFacts.
Import PyStr.

Lemma startswith_spec (s p : str) :
  startswith s p = true <-> exists post, s = p ++ post.
Proof.
  revert s; induction p as [|c p IH]; intros s; simpl.
  - split; [intros _; now exists s | reflexivity].
  - destruct s as [|d s].
    + split; [discriminate | intros [post H]; discriminate].
    + rewrite andb_true_iff, Ascii.eqb_eq, IH. split.
      * intros [-> [post ->]]. now exists post.
      * intros [post H]. injection H as -> ->. split; [reflexivity | now exists post].
Qed.

Lemma occurs_at_0 (sub s : str) :
  occurs_at sub s 0 <-> startswith s sub = true.
Proof.
  rewrite startswith_spec. split.
  - intros (pre & post & -> & Hl). destruct pre; [|discriminate]. now exists post.
  - intros [post ->]. now exists [], post.
Qed.

Lemma occurs_at_S (sub : str) (c : ascii) (s : str) (i : nat) :
  occurs_at sub (c :: s) (S i) <-> occurs_at sub s i.
Proof.
  split.
  - intros (pre & post & H & Hl). destruct pre as [|d pre]; [discriminate|].
    injection H as -> ->. injection Hl as Hl. now exists pre, post.
  - intros (pre & post & -> & Hl). exists (c :: pre), post. simpl. now rewrite Hl.
Qed.

Lemma occurs_at_nil (sub : str) (i : nat) :
  occurs_at sub [] i -> i = 0%nat.
Proof.
  intros (pre & post & H & Hl). destruct pre; [now subst | discriminate].
Qed.

Lemma occurs_at_bound (sub s : str) (i : nat) :
  occurs_at sub s i -> (i + length sub <= length s)%nat.
Proof.
  intros (pre & post & -> & <-). rewrite !length_app. lia.
Qed.

Lemma occurs_at_firstn (sub s : str) (i : nat) :
  occurs_at sub s i -> firstn (length sub) (skipn i s) = sub.
Proof.
  intros (pre & post & -> & <-).
  rewrite skipn_app, skipn_all, Nat.sub_diag. simpl.
  rewrite firstn_app, firstn_all, Nat.sub_diag. simpl. apply app_nil_r.
Qed.

(** [find_from] returns the offset of the first occurrence, shifted by the
    starting offset, or -1 when there is none. *)
Lemma find_from_first (s sub : str) (i : Z) (n : nat) :
  first_occurrence sub s n -> find_from s sub i = i + Z.of_nat n.
Proof.
  revert i n. induction s as [|c s IH]; intros i n [Hocc Hmin].
  - apply occurs_at_nil in Hocc as Hn. subst n. simpl.
    apply occurs_at_0 in Hocc. rewrite Hocc. lia.
  - destruct n as [|n].
    + apply occurs_at_0 in Hocc. simpl find_from. rewrite Hocc. lia.
    + simpl find_from.
      destruct (startswith (c :: s) sub) eqn:E.
      * exfalso. apply (Hmin 0%nat); [lia | now apply occurs_at_0].
      * rewrite (IH (i + 1) n); [lia|]. split.
        -- now apply occurs_at_S in Hocc.
        -- intros k Hk Hc. apply (Hmin (S k)); [lia | now apply occurs_at_S].
Qed.

Lemma find_from_absent (s sub : str) (i : Z) :
  (forall n, ~ occurs_at sub s n) -> find_from s sub i = -1.
Proof.
  revert i. induction s as [|c s IH]; intros i Hno; simpl find_from.
  - destruct (startswith [] sub) eqn:E; [|reflexivity].
    exfalso. apply (Hno 0%nat). now apply occurs_at_0.
  - destruct (startswith (c :: s) sub) eqn:E.
    + exfalso. apply (Hno 0%nat). now apply occurs_at_0.
    + apply IH. intros n Hn. apply (Hno (S n)). now apply occurs_at_S.
Qed.

Lemma find_from_cases (s sub : str) (i : Z) :
  (find_from s sub i = -1 /\ forall n, ~ occurs_at sub s n)
  \/ exists n, find_from s sub i = i + Z.of_nat n /\ first_occurrence sub s n.
Proof.
  revert i. induction s as [|c s IH]; intros i; simpl find_from.
  - destruct (startswith [] sub) eqn:E.
    + right. exists 0%nat. split; [lia|]. split; [now apply occurs_at_0 | lia].
    + left. split; [reflexivity|]. intros n Hn.
      apply occurs_at_nil in Hn as Hz. subst n.
      apply occurs_at_0 in Hn. congruence.
  - destruct (startswith (c :: s) sub) eqn:E.
    + right. exists 0%nat. split; [lia|]. split; [now apply occurs_at_0 | lia].
    + destruct (IH (i + 1)) as [[H1 H2] | (n & H1 & H2 & H3)].
      * left. split; [exact H1|]. intros [|n] Hn.
        -- apply occurs_at_0 in Hn. congruence.
        -- apply occurs_at_S in Hn. now apply (H2 n).
      * right. exists (S n). split; [lia|]. split.
        -- now apply occurs_at_S.
        -- intros [|k] Hk Hc.
           ++ apply occurs_at_0 in Hc. congruence.
           ++ apply occurs_at_S in Hc. apply (H3 k); [lia | exact Hc].
Qed.

Lemma contains_spec (s sub : str) :
  contains s sub = true <-> exists n, occurs_at sub s n.
Proof.
  induction s as [|c s IH]; simpl.
  - rewrite orb_false_r. split.
    + intros H. exists 0%nat. now apply occurs_at_0.
    + intros [n Hn]. apply occurs_at_nil in Hn as Hz. subst.
      now apply occurs_at_0.
  - rewrite orb_true_iff, IH. split.
    + intros [H | [n Hn]].
      * exists 0%nat. now apply occurs_at_0.
      * exists (S n). now apply occurs_at_S.
    + intros [[|n] Hn].
      * left. now apply occurs_at_0.
      * right. exists n. now apply occurs_at_S in Hn.
Qed.

End PyStrFacts.

(* ================================================================== *)
(** * Properties of section extraction *)
(* ================================================================== *)

Module ParserFacts.
Import Parser.

Lemma slice_in_range (s : str) (i j : nat) :
  (i <= length s)%nat -> (j <= length s)%nat ->
  PyStr.slice s (Z.of_nat i) (Z.of_nat j) = firstn (j - i) (skipn i s).
Proof.
  intros Hi Hj. unfold PyStr.slice, PyStr.clamp_index.
  destruct (Z.ltb_spec (Z.of_nat i) 0); [lia|].
  destruct (Z.ltb_spec (Z.of_nat j) 0); [lia|].
  rewrite !Z.min_l by lia.
  replace (Z.to_nat (Z.of_nat j - Z.of_nat i)) with (j - i)%nat by lia.
  now rewrite Nat2Z.id.
Qed.

Lemma app_eq_agree (u v x y : str) :
  u ++ x = v ++ y -> agree u v = true.
Proof.
  unfold agree. revert v. induction u as [|c u IH]; intros v H.
  - destruct v; reflexivity.
  - destruct v as [|d v]; [reflexivity|].
    injection H as -> H. simpl. rewrite Ascii.eqb_refl. simpl.
    now apply IH.
Qed.

Lemma skipn_occurrence (sub s : str) (i k : nat) :
  PyStr.occurs_at sub s i -> (k <= length sub)%nat ->
  exists post, skipn (i + k) s = skipn k sub ++ post.
Proof.
  intros (pre & post & -> & <-) Hk. exists post.
  rewrite skipn_app.
  rewrite (skipn_all2 pre) by lia. simpl.
  replace (length pre + k - length pre)%nat with k by lia.
  rewrite skipn_app.
  replace (k - length sub)%nat with 0%nat by lia. reflexivity.
Qed.

(** When the end marker cannot start inside the start marker, an end
    marker found after the start marker's offset lies after the whole
    start marker. *)
Lemma no_inner_overlap_sound (sm em s : str) (i j : nat) :
  no_inner_overlap sm em = true ->
  PyStr.occurs_at sm s i -> PyStr.occurs_at em s j ->
  (i < j)%nat -> (i + length sm <= j)%nat.
Proof.
  intros Hno Hs He Hij.
  destruct (Nat.le_gt_cases (i + length sm) j) as [|Hlt]; [assumption|].
  exfalso. set (k := (j - i)%nat).
  unfold no_inner_overlap in Hno. rewrite forallb_forall in Hno.
  assert (Hk : In k (seq 1 (length sm - 1))) by (apply in_seq; lia).
  specialize (Hno k Hk). apply negb_true_iff in Hno.
  destruct (skipn_occurrence sm s i k Hs ltac:(lia)) as [post Hp].
  destruct (skipn_occurrence em s j 0 He ltac:(lia)) as [post' Hp'].
  replace (i + k)%nat with j in Hp by lia.
  rewrite Nat.add_0_r in Hp'. simpl in Hp'.
  rewrite Hp in Hp'. apply app_eq_agree in Hp'. congruence.
Qed.

Lemma section_markers_no_overlap (sm em : str) :
  In (sm, em) section_markers -> no_inner_overlap sm em = true.
Proof.
  intros [H | [H | [H | []]]]; injection H as <- <-; reflexivity.
Qed.

(** C10. When both markers occur in the text, the extracted field is the
    slice from the first occurrence [i] of the start marker up to, and
    excluding, the first occurrence [j] of the end marker, both searched
    from the beginning of the text.  It is empty when [j <= i]; it begins
    with the start marker itself when the end marker is found past the
    start marker, which for the marker pairs of the parser is the case as
    soon as [i < j]. *)
Theorem extract_section_slice (content sm em : str) (i j : nat) :
  PyStr.first_occurrence sm content i ->
  PyStr.first_occurrence em content j ->
  _extract_section content sm em = firstn (j - i) (skipn i content)
  /\ ((j <= i)%nat -> _extract_section content sm em = [])
  /\ ((i + length sm <= j)%nat ->
      exists rest, _extract_section content sm em = sm ++ rest)
  /\ (In (sm, em) section_markers -> (i < j)%nat ->
      exists rest, _extract_section content sm em = sm ++ rest).
Proof.
  intros Hs He.
  assert (Heq : _extract_section content sm em
                = firstn (j - i) (skipn i content)).
  { unfold _extract_section, PyStr.find.
    rewrite (PyStrFacts.find_from_first _ _ 0 i Hs).
    rewrite (PyStrFacts.find_from_first _ _ 0 j He).
    destruct (Z.eqb_spec (0 + Z.of_nat i) (-1)); [lia|].
    destruct (Z.eqb_spec (0 + Z.of_nat j) (-1)); [lia|]. simpl.
    destruct Hs as [Hs _], He as [He _].
    apply PyStrFacts.occurs_at_bound in Hs, He.
    apply slice_in_range; lia. }
  assert (Hpre : (i + length sm <= j)%nat ->
                 exists rest, _extract_section content sm em = sm ++ rest).
  { intros Hij. rewrite Heq. destruct Hs as [(pre & post & -> & <-) _].
    rewrite skipn_app, skipn_all, Nat.sub_diag. simpl.
    rewrite firstn_app.
    exists (firstn (j - length pre - length sm) post).
    f_equal. apply firstn_all2. lia. }
  split; [exact Heq|]. split; [|split].
  - intros Hji. rewrite Heq.
    replace (j - i)%nat with 0%nat by lia. reflexivity.
  - exact Hpre.
  - intros Hin Hij. apply Hpre.
    apply (no_inner_overlap_sound sm em content i j);
      [now apply section_markers_no_overlap | apply Hs | apply He | exact Hij].
Qed.

(** A text with both markers of the overview section. *)
Definition sample_text : str :=
  lit "intro ## What I do: lint ## When to use me: always".

Lemma extract_section_slice_witness :
  _extract_section sample_text (lit "## What I do") (lit "## When to use me")
  = lit "## What I do: lint ".
Proof.
  destruct (extract_section_slice sample_text
              (lit "## What I do") (lit "## When to use me") 6 25) as [H _].
  - split.
    + exists (lit "intro "), (lit ": lint ## When to use me: always").
      split; reflexivity.
    + intros k Hk Hc. apply PyStrFacts.occurs_at_firstn in Hc.
      do 6 (destruct k as [|k]; [discriminate Hc|]). lia.
  - split.
    + exists (lit "intro ## What I do: lint "), (lit ": always").
      split; reflexivity.
    + intros k Hk Hc. apply PyStrFacts.occurs_at_firstn in Hc.
      do 25 (destruct k as [|k]; [discriminate Hc|]). lia.
  - rewrite H. reflexivity.
Defined.

End ParserFacts.

(* ================================================================== *)
(** * Properties of binary64 rounding *)
(* ================================================================== *)

Module PyFloatFacts.
Import PyFloat.

Local Open Scope Q_scope.


Lemma pow2_pos (e : Z) : 0 < 2 ^ e.
Proof. apply Qpower_0_lt. reflexivity. Qed.

Lemma pow2_add (a b : Z) : 2 ^ (a + b) == 2 ^ a * 2 ^ b.
Proof. apply Qpower_plus. discriminate. Qed.

Lemma pow2_succ (a : Z) : 2 ^ (a + 1) == 2 * 2 ^ a.
Proof. rewrite pow2_add. change (2 ^ 1) with 2. ring. Qed.

Lemma pow2_le (a b : Z) : (a <= b)%Z -> 2 ^ a <= 2 ^ b.
Proof. intros H. apply Qpower_le_compat_l; [exact H | discriminate]. Qed.

Lemma pow2_lt (a b : Z) : (a < b)%Z -> 2 ^ a < 2 ^ b.
Proof. intros H. apply Qpower_lt_compat_l; [exact H | reflexivity]. Qed.

Lemma pow2_lt_inv (a b : Z) : 2 ^ a < 2 ^ b -> (a < b)%Z.
Proof. intros H. apply (Qpower_lt_compat_l_inv 2); [exact H | reflexivity]. Qed.

Lemma pow2_inject (n : Z) : (0 <= n)%Z -> inject_Z (2 ^ n) == 2 ^ n.
Proof. intros H. now rewrite Zpower_Qpower. Qed.

Lemma inject_Z_le (a b : Z) : (a <= b)%Z -> inject_Z a <= inject_Z b.
Proof. intros. now rewrite <- Zle_Qle. Qed.

Lemma inject_Z_lt (a b : Z) : (a < b)%Z -> inject_Z a < inject_Z b.
Proof. intros. now rewrite <- Zlt_Qlt. Qed.

(** [ilog2 x] is the binary exponent of a positive rational. *)
Lemma ilog2_spec (x : Q) : 0 < x -> 2 ^ ilog2 x <= x /\ x < 2 ^ (ilog2 x + 1).
Proof.
  intros Hx. destruct x as [n d]. unfold ilog2. cbn [Qnum Qden].
  assert (Hn : (0 < n)%Z).
  { unfold Qlt in Hx. cbn in Hx. lia. }
  set (a := Z.log2 n). set (b := Z.log2 (Zpos d)).
  assert (Ha : (2 ^ a <= n < 2 ^ (a + 1))%Z).
  { pose proof (Z.log2_spec n Hn). subst a. now rewrite <- Z.add_1_r in H. }
  assert (Hb : (2 ^ b <= Zpos d < 2 ^ (b + 1))%Z).
  { pose proof (Z.log2_spec (Zpos d) eq_refl). subst b. now rewrite <- Z.add_1_r in H. }
  assert (Ha0 : (0 <= a)%Z) by apply Z.log2_nonneg.
  assert (Hb0 : (0 <= b)%Z) by apply Z.log2_nonneg.
  assert (HA1 : 2 ^ a <= inject_Z n).
  { rewrite <- pow2_inject by lia. apply inject_Z_le. lia. }
  assert (HA2 : inject_Z n < 2 * 2 ^ a).
  { rewrite <- pow2_succ, <- pow2_inject by lia. apply inject_Z_lt. lia. }
  assert (HB1 : 2 ^ b <= inject_Z (Zpos d)).
  { rewrite <- pow2_inject by lia. apply inject_Z_le. lia. }
  assert (HB2 : inject_Z (Zpos d) < 2 * 2 ^ b).
  { rewrite <- pow2_succ, <- pow2_inject by lia. apply inject_Z_lt. lia. }
  pose proof (pow2_pos a) as Hpa. pose proof (pow2_pos b) as Hpb.
  assert (Hd : 0 < inject_Z (Zpos d)) by reflexivity.
  assert (Hq : n # d == inject_Z n / inject_Z (Zpos d)) by apply Qmake_Qdiv.
  assert (Hl : 2 ^ (a - b) == 2 ^ a / 2 ^ b) by (apply Qpower_minus; discriminate).
  destruct (Qle_bool (2 ^ (a - b)) (n # d)) eqn:E.
  - apply Qle_bool_iff in E. split; [exact E|].
    rewrite pow2_succ, Hl, Hq.
    apply Qlt_shift_div_r; [exact Hd|].
    setoid_replace (2 * (2 ^ a / 2 ^ b) * inject_Z (Z.pos d))
      with ((2 * 2 ^ a) * (inject_Z (Z.pos d) / 2 ^ b)) by (field; lra).
    assert (1 <= inject_Z (Z.pos d) / 2 ^ b).
    { apply Qle_shift_div_l; [exact Hpb | lra]. }
    nra.
  - assert (E' : n # d < 2 ^ (a - b)).
    { apply Qnot_le_lt. intros H. apply Qle_bool_iff in H. congruence. }
    replace (a - b - 1 + 1)%Z with (a - b)%Z by lia.
    split; [|exact E'].
    replace (a - b - 1)%Z with (a - (b + 1))%Z by lia.
    rewrite Qpower_minus by discriminate. rewrite pow2_succ, Hq.
    apply Qle_shift_div_l; [exact Hd|].
    setoid_replace (2 ^ a / (2 * 2 ^ b) * inject_Z (Z.pos d))
      with (2 ^ a * (inject_Z (Z.pos d) / (2 * 2 ^ b))) by (field; lra).
    assert (inject_Z (Z.pos d) / (2 * 2 ^ b) <= 1).
    { apply Qle_shift_div_r; lra. }
    nra.
Qed.

Lemma ilog2_unique (x : Q) (l : Z) :
  2 ^ l <= x -> x < 2 ^ (l + 1) -> ilog2 x = l.
Proof.
  intros H1 H2.
  assert (Hx : 0 < x) by (pose proof (pow2_pos l); lra).
  destruct (ilog2_spec x Hx) as [H3 H4].
  assert ((l < ilog2 x + 1)%Z) by (apply pow2_lt_inv; lra).
  assert ((ilog2 x < l + 1)%Z) by (apply pow2_lt_inv; lra).
  lia.
Qed.

Lemma ilog2_comp (x y : Q) : 0 < x -> x == y -> ilog2 x = ilog2 y.
Proof.
  intros Hx E. destruct (ilog2_spec x Hx) as [H1 H2].
  symmetry. apply ilog2_unique; rewrite <- E; assumption.
Qed.

Lemma ilog2_mono (x y : Q) : 0 < x -> x <= y -> (ilog2 x <= ilog2 y)%Z.
Proof.
  intros Hx Hxy.
  destruct (ilog2_spec x Hx) as [H1 _].
  destruct (ilog2_spec y ltac:(lra)) as [_ H2].
  assert ((ilog2 x < ilog2 y + 1)%Z) by (apply pow2_lt_inv; lra).
  lia.
Qed.

(** ** Rounding to the nearest integer, ties to even *)

Lemma rne_comp (x y : Q) : x == y -> rne x = rne y.
Proof.
  intros E. unfold rne. rewrite (Qfloor_comp _ _ E).
  assert (H : Qcompare (x - inject_Z (Qfloor y)) (1 # 2)
              = Qcompare (y - inject_Z (Qfloor y)) (1 # 2)).
  { apply Qcompare_comp; [now rewrite E | reflexivity]. }
  now rewrite H.
Qed.

Lemma rne_cases (x : Q) :
  (rne x = Qfloor x /\ x - inject_Z (Qfloor x) <= 1 # 2)
  \/ (rne x = (Qfloor x + 1)%Z /\ (1 # 2) <= x - inject_Z (Qfloor x)).
Proof.
  unfold rne. destruct (Qcompare_spec (x - inject_Z (Qfloor x)) (1 # 2)) as [E|E|E].
  - destruct (Z.even (Qfloor x)); [left | right]; split; try reflexivity; lra.
  - left. split; [reflexivity | lra].
  - right. split; [reflexivity | lra].
Qed.

Lemma rne_Z (z : Z) : rne (inject_Z z) = z.
Proof.
  unfold rne. rewrite Qfloor_Z.
  destruct (Qcompare_spec (inject_Z z - inject_Z z) (1 # 2)) as [E|E|E];
    try reflexivity; exfalso; lra.
Qed.

Lemma Qfloor_bounds (x : Q) : inject_Z (Qfloor x) <= x /\ x < inject_Z (Qfloor x) + 1.
Proof.
  split; [apply Qfloor_le|].
  pose proof (Qlt_floor x) as H. rewrite inject_Z_plus in H. exact H.
Qed.

Lemma rne_mono (x y : Q) : x <= y -> (rne x <= rne y)%Z.
Proof.
  intros Hxy. pose proof (Qfloor_resp_le x y Hxy) as Hf.
  destruct (Z.eq_dec (Qfloor x) (Qfloor y)) as [E|NE].
  - unfold rne. rewrite <- E.
    destruct (Qcompare_spec (x - inject_Z (Qfloor x)) (1 # 2)) as [E1|E1|E1];
    destruct (Qcompare_spec (y - inject_Z (Qfloor x)) (1 # 2)) as [E2|E2|E2];
    try lia; try (exfalso; lra);
    destruct (Z.even (Qfloor x)); lia.
  - destruct (rne_cases x) as [[-> _]|[-> _]], (rne_cases y) as [[-> _]|[-> _]]; lia.
Qed.

Lemma rne_error (x : Q) :
  inject_Z (rne x) - (1 # 2) <= x /\ x <= inject_Z (rne x) + (1 # 2).
Proof.
  destruct (Qfloor_bounds x) as [H1 H2].
  destruct (rne_cases x) as [[-> H]|[-> H]].
  - lra.
  - rewrite inject_Z_plus. change (inject_Z 1) with 1. lra.
Qed.

(** ** Rounding to binary64 *)

Lemma rnd_pos_eq (x : Q) :
  rnd_pos x == inject_Z (rne (x / 2 ^ cexp x)) * 2 ^ cexp x.
Proof. unfold rnd_pos. apply Qred_correct. Qed.

Lemma cexp_ge (x : Q) : (-1074 <= cexp x)%Z.
Proof. unfold cexp. lia. Qed.

Lemma cexp_mono (x y : Q) : 0 < x -> x <= y -> (cexp x <= cexp y)%Z.
Proof. intros Hx Hxy. pose proof (ilog2_mono x y Hx Hxy). unfold cexp. lia. Qed.

Lemma cexp_comp (x y : Q) : 0 < x -> x == y -> cexp x = cexp y.
Proof. intros Hx E. unfold cexp. now rewrite (ilog2_comp x y Hx E). Qed.

Lemma scaled_lt (x : Q) : 0 < x -> x / 2 ^ cexp x < 2 ^ 53.
Proof.
  intros Hx. destruct (ilog2_spec x Hx) as [_ H].
  apply Qlt_shift_div_r; [apply pow2_pos|].
  rewrite <- pow2_add.
  apply Qlt_le_trans with (1 := H). apply pow2_le. unfold cexp. lia.
Qed.

Lemma scaled_ge (x : Q) :
  0 < x -> cexp x = (ilog2 x - 52)%Z -> 2 ^ 52 <= x / 2 ^ cexp x.
Proof.
  intros Hx Hc. destruct (ilog2_spec x Hx) as [H _].
  apply Qle_shift_div_l; [apply pow2_pos|].
  rewrite <- pow2_add. rewrite Hc.
  replace (52 + (ilog2 x - 52))%Z with (ilog2 x) by lia. exact H.
Qed.

Lemma scaled_nonneg (x : Q) (e : Z) : 0 <= x -> 0 <= x / 2 ^ e.
Proof.
  intros Hx. apply Qle_shift_div_l; [apply pow2_pos | lra].
Qed.

Lemma rne_nonneg (x : Q) : 0 <= x -> (0 <= rne x)%Z.
Proof. intros H. apply rne_mono in H. exact H. Qed.

Lemma rne_ge_pow2 (x : Q) (k : Z) :
  (0 <= k)%Z -> 2 ^ k <= x -> 2 ^ k <= inject_Z (rne x).
Proof.
  intros Hk H. rewrite <- pow2_inject in H by exact Hk.
  apply rne_mono in H. rewrite rne_Z in H.
  apply inject_Z_le in H. now rewrite pow2_inject in H by exact Hk.
Qed.

Lemma rne_le_pow2 (x : Q) (k : Z) :
  (0 <= k)%Z -> x <= 2 ^ k -> inject_Z (rne x) <= 2 ^ k.
Proof.
  intros Hk H. rewrite <- pow2_inject in H by exact Hk.
  apply rne_mono in H. rewrite rne_Z in H.
  apply inject_Z_le in H. now rewrite pow2_inject in H by exact Hk.
Qed.

Lemma rnd_pos_nonneg (x : Q) : 0 <= x -> 0 <= rnd_pos x.
Proof.
  intros Hx. rewrite rnd_pos_eq.
  pose proof (rne_nonneg _ (scaled_nonneg x (cexp x) Hx)) as H.
  apply inject_Z_le in H. change (inject_Z 0) with 0 in H.
  pose proof (pow2_pos (cexp x)). nra.
Qed.

Lemma rnd_pos_mono (x y : Q) : 0 < x -> x <= y -> rnd_pos x <= rnd_pos y.
Proof.
  intros Hx Hxy. assert (Hy : 0 < y) by lra.
  rewrite !rnd_pos_eq.
  pose proof (cexp_mono x y Hx Hxy) as Hc.
  pose proof (pow2_pos (cexp x)) as Hpx.
  pose proof (pow2_pos (cexp y)) as Hpy.
  destruct (Z.eq_dec (cexp x) (cexp y)) as [E|NE].
  - rewrite E. rewrite E in Hpx.
    assert (H : x / 2 ^ cexp y <= y / 2 ^ cexp y).
    { apply Qle_shift_div_l; [exact Hpy|].
      setoid_replace (x / 2 ^ cexp y * 2 ^ cexp y) with x by (field; lra).
      exact Hxy. }
    apply rne_mono, inject_Z_le in H. nra.
  - assert (Hcy : cexp y = (ilog2 y - 52)%Z).
    { pose proof (cexp_ge x). unfold cexp in *. lia. }
    pose proof (rne_ge_pow2 _ 52 ltac:(lia) (scaled_ge y Hy Hcy)) as H1.
    pose proof (rne_le_pow2 _ 53 ltac:(lia) (Qlt_le_weak _ _ (scaled_lt x Hx))) as H2.
    assert (H3 : 2 ^ 53 * 2 ^ cexp x <= 2 ^ 52 * 2 ^ cexp y).
    { rewrite <- !pow2_add. apply pow2_le. lia. }
    pose proof (pow2_pos 52). pose proof (pow2_pos 53).
    apply Qle_trans with (2 ^ 53 * 2 ^ cexp x); [nra|].
    apply Qle_trans with (1 := H3). nra.
Qed.

Lemma rnd_pos_comp (x y : Q) : 0 < x -> x == y -> rnd_pos x == rnd_pos y.
Proof.
  intros Hx E. rewrite !rnd_pos_eq. rewrite <- (cexp_comp x y Hx E).
  assert (H : x / 2 ^ cexp x == y / 2 ^ cexp x).
  { unfold Qdiv. apply Qmult_comp; [exact E | reflexivity]. }
  now rewrite (rne_comp _ _ H).
Qed.

Lemma Qnum_pos (x : Q) : 0 < x -> exists p, Qnum x = Zpos p.
Proof.
  destruct x as [[|p|p] d]; unfold Qlt; cbn; intros H; try lia. now exists p.
Qed.

Lemma Qnum_neg (x : Q) : x < 0 -> exists p, Qnum x = Zneg p.
Proof.
  destruct x as [[|p|p] d]; unfold Qlt; cbn; intros H; try lia. now exists p.
Qed.

Lemma Qnum_zero (x : Q) : x == 0 -> Qnum x = 0%Z.
Proof. destruct x as [n d]; unfold Qeq; cbn; lia. Qed.

Lemma rnd_of_pos (x : Q) : 0 < x -> rnd x = rnd_pos x.
Proof. intros H. destruct (Qnum_pos x H) as [p Hp]. unfold rnd. now rewrite Hp. Qed.

Lemma rnd_of_neg (x : Q) : x < 0 -> rnd x = - rnd_pos (- x).
Proof. intros H. destruct (Qnum_neg x H) as [p Hp]. unfold rnd. now rewrite Hp. Qed.

Lemma rnd_of_zero (x : Q) : x == 0 -> rnd x = 0.
Proof. intros H. unfold rnd. now rewrite (Qnum_zero x H). Qed.

Lemma rnd_nonneg (x : Q) : 0 <= x -> 0 <= rnd x.
Proof.
  intros H. destruct (Qlt_le_dec 0 x) as [Hp|Hz].
  - rewrite rnd_of_pos by exact Hp. apply rnd_pos_nonneg. lra.
  - rewrite rnd_of_zero by lra. lra.
Qed.

Lemma rnd_nonpos (x : Q) : x <= 0 -> rnd x <= 0.
Proof.
  intros H. destruct (Qlt_le_dec x 0) as [Hn|Hz].
  - rewrite rnd_of_neg by exact Hn.
    pose proof (rnd_pos_nonneg (- x) ltac:(lra)). lra.
  - rewrite rnd_of_zero by lra. lra.
Qed.

(** Rounding is monotone. *)
Lemma rnd_mono (x y : Q) : x <= y -> rnd x <= rnd y.
Proof.
  intros Hxy.
  destruct (Qlt_le_dec 0 x) as [Hx|Hx].
  - rewrite (rnd_of_pos x Hx), (rnd_of_pos y) by lra. now apply rnd_pos_mono.
  - destruct (Qlt_le_dec y 0) as [Hy|Hy].
    + rewrite (rnd_of_neg y Hy), (rnd_of_neg x) by lra.
      pose proof (rnd_pos_mono (- y) (- x) ltac:(lra) ltac:(lra)). lra.
    + pose proof (rnd_nonpos x Hx). pose proof (rnd_nonneg y Hy). lra.
Qed.

Lemma rnd_comp (x y : Q) : x == y -> rnd x == rnd y.
Proof.
  intros E. apply Qle_antisym; apply rnd_mono; lra.
Qed.

Lemma rnd_pos_representable (x : Q) (m e : Z) :
  x == inject_Z m * 2 ^ e -> (0 < m < 2 ^ 53)%Z -> (-1074 <= e)%Z ->
  rnd_pos x == x.
Proof.
  intros Hx Hm He.
  assert (Hm1 : 1 <= inject_Z m) by (apply (inject_Z_le 1); lia).
  assert (Hm2 : inject_Z m < 2 ^ 53).
  { rewrite <- pow2_inject by lia. apply inject_Z_lt. lia. }
  pose proof (pow2_pos e) as Hpe.
  assert (Hx0 : 0 < x) by (rewrite Hx; nra).
  destruct (ilog2_spec x Hx0) as [H1 _].
  assert (Hlt : x < 2 ^ (53 + e)) by (rewrite pow2_add, Hx; nra).
  assert ((ilog2 x < 53 + e)%Z) by (apply pow2_lt_inv; lra).
  assert (Hc : (cexp x <= e)%Z) by (unfold cexp; lia).
  rewrite rnd_pos_eq.
  assert (Hs : x / 2 ^ cexp x == inject_Z (m * 2 ^ (e - cexp x))).
  { transitivity (inject_Z m * 2 ^ e / 2 ^ cexp x).
    - unfold Qdiv. apply Qmult_comp; [exact Hx | reflexivity].
    - rewrite inject_Z_mult, pow2_inject by lia.
      rewrite Qpower_minus by discriminate.
      field. pose proof (pow2_pos (cexp x)). lra. }
  rewrite (rne_comp _ _ Hs), rne_Z, <- Hs.
  field. pose proof (pow2_pos (cexp x)). lra.
Qed.

Lemma rnd_representable (x : Q) : representable x -> rnd x == x.
Proof.
  intros (m & e & Hx & Hm & He).
  destruct (Z.eq_dec m 0) as [->|Hm0].
  - assert (x == 0) by (rewrite Hx; ring).
    rewrite rnd_of_zero by assumption. lra.
  - assert (0 < x).
    { rewrite Hx. pose proof (pow2_pos e).
      assert (1 <= inject_Z m) by (apply (inject_Z_le 1); lia). nra. }
    rewrite rnd_of_pos by assumption.
    apply (rnd_pos_representable x m e); [assumption | lia | assumption].
Qed.

Lemma rnd_pos_is_representable (x : Q) : 0 < x -> representable (rnd_pos x).
Proof.
  intros Hx.
  assert (H2 : (rne (x / 2 ^ cexp x) <= 2 ^ 53)%Z).
  { rewrite Zle_Qle. rewrite pow2_inject by lia.
    apply rne_le_pow2; [lia|]. apply Qlt_le_weak, scaled_lt, Hx. }
  pose proof (rne_nonneg _ (scaled_nonneg x (cexp x) (Qlt_le_weak _ _ Hx))) as H0.
  destruct (Z.eq_dec (rne (x / 2 ^ cexp x)) (2 ^ 53)) as [E|NE].
  - exists (2 ^ 52)%Z, (cexp x + 1)%Z. split; [|split].
    + rewrite rnd_pos_eq, E, pow2_succ.
      rewrite !pow2_inject by lia.
      change (2 ^ 53) with (2 * 2 ^ 52). ring.
    + lia.
    + pose proof (cexp_ge x). lia.
  - exists (rne (x / 2 ^ cexp x)), (cexp x). split; [|split].
    + apply rnd_pos_eq.
    + lia.
    + apply cexp_ge.
Qed.

Lemma rnd_is_representable_nonneg (x : Q) : 0 <= x -> representable (rnd x).
Proof.
  intros H. destruct (Qlt_le_dec 0 x) as [Hp|Hz].
  - rewrite rnd_of_pos by exact Hp. now apply rnd_pos_is_representable.
  - rewrite rnd_of_zero by lra. exists 0%Z, 0%Z. split; [reflexivity | lia].
Qed.

Lemma rnd_idem (x : Q) : 0 <= x -> rnd (rnd x) == rnd x.
Proof. intros H. apply rnd_representable. now apply rnd_is_representable_nonneg. Qed.

(** Doubling is exact in the normal range. *)
Lemma rnd_double (x : Q) : 2 ^ (-1022) <= x -> rnd (2 * x) == 2 * rnd x.
Proof.
  intros Hx. pose proof (pow2_pos (-1022)) as Hp.
  assert (Hx0 : 0 < x) by lra.
  rewrite !rnd_of_pos by lra.
  destruct (ilog2_spec x Hx0) as [H1 H2].
  assert (Hl : ilog2 (2 * x) = (ilog2 x + 1)%Z).
  { apply ilog2_unique; rewrite !pow2_succ in *; lra. }
  assert (Hlo : (-1022 <= ilog2 x)%Z).
  { assert ((-1022 < ilog2 x + 1)%Z) by (apply pow2_lt_inv; lra). lia. }
  assert (Hc : cexp (2 * x) = (cexp x + 1)%Z) by (unfold cexp; rewrite Hl; lia).
  rewrite !rnd_pos_eq, Hc.
  assert (Hs : 2 * x / 2 ^ (cexp x + 1) == x / 2 ^ cexp x).
  { rewrite pow2_succ. field. pose proof (pow2_pos (cexp x)). lra. }
  rewrite (rne_comp _ _ Hs), pow2_succ. ring.
Qed.

(** The rounding error is at most half a unit in the last place. *)
Lemma rnd_pos_error (x : Q) :
  0 < x ->
  rnd_pos x - 2 ^ cexp x / 2 <= x /\ x <= rnd_pos x + 2 ^ cexp x / 2.
Proof.
  intros Hx. rewrite rnd_pos_eq.
  pose proof (pow2_pos (cexp x)) as Hp.
  destruct (rne_error (x / 2 ^ cexp x)) as [H1 H2].
  assert (E : x == x / 2 ^ cexp x * 2 ^ cexp x) by (field; lra).
  set (s := x / 2 ^ cexp x) in *. set (p := 2 ^ cexp x) in *.
  rewrite E. clearbody s p. split.
  - setoid_replace (inject_Z (rne s) * p - p / 2) with ((inject_Z (rne s) - (1#2)) * p) by field.
    nra.
  - setoid_replace (inject_Z (rne s) * p + p / 2) with ((inject_Z (rne s) + (1#2)) * p) by field.
    nra.
Qed.

Lemma rnd_opp (x : Q) : rnd (- x) == - rnd x.
Proof.
  destruct (Qlt_le_dec 0 x) as [Hp|Hn].
  - rewrite (rnd_of_neg (- x)) by lra. rewrite (rnd_of_pos x Hp).
    assert (E : - - x == x) by ring.
    rewrite (rnd_pos_comp (- - x) x); [reflexivity | lra | exact E].
  - destruct (Qlt_le_dec x 0) as [Hx|Hz].
    + rewrite (rnd_of_pos (- x)) by lra. rewrite (rnd_of_neg x Hx). ring.
    + rewrite (rnd_of_zero x), (rnd_of_zero (- x)) by lra. reflexivity.
Qed.

(** Rounding keeps a number between the roundings of symmetric bounds. *)
Lemma rnd_between (z B : Q) :
  - B <= z -> z <= B -> - rnd B <= rnd z /\ rnd z <= rnd B.
Proof.
  intros H1 H2. split.
  - rewrite <- rnd_opp. now apply rnd_mono.
  - now apply rnd_mono.
Qed.

Lemma cexp_small (x : Q) : 0 < x -> x < 2 -> (cexp x <= -52)%Z.
Proof.
  intros H0 H2. destruct (ilog2_spec x H0) as [H _].
  assert ((ilog2 x < 1)%Z).
  { apply pow2_lt_inv. change (2 ^ 1) with 2. lra. }
  unfold cexp. lia.
Qed.

Lemma rnd_pos_error_small (x : Q) :
  0 < x -> x < 2 ->
  - (1 # 9007199254740992) <= rnd_pos x - x
  /\ rnd_pos x - x <= 1 # 9007199254740992.
Proof.
  intros H0 H2. destruct (rnd_pos_error x H0) as [E1 E2].
  pose proof (pow2_le _ _ (cexp_small x H0 H2)) as Hp.
  change (2 ^ (-52)) with (1 # 4503599627370496) in Hp.
  unfold Qdiv in E1, E2. change (/ 2) with (1 # 2) in E1, E2.
  pose proof (pow2_pos (cexp x)). lra.
Qed.

(** Below 2 in absolute value the rounding error is at most [2^-53]. *)
Lemma rnd_error_small (z : Q) :
  - (2) < z -> z < 2 ->
  - (1 # 9007199254740992) <= rnd z - z
  /\ rnd z - z <= 1 # 9007199254740992.
Proof.
  intros H1 H2. destruct (Qlt_le_dec 0 z) as [Hp|Hn].
  - rewrite (rnd_of_pos z Hp). now apply rnd_pos_error_small.
  - destruct (Qlt_le_dec z 0) as [Hz|Hz].
    + rewrite (rnd_of_neg z Hz).
      destruct (rnd_pos_error_small (- z)) as [E1 E2]; lra.
    + rewrite (rnd_of_zero z) by lra. lra.
Qed.

End PyFloatFacts.

(* ================================================================== *)
(** * Properties of dictionaries and of sorting *)
(* ================================================================== *)

Module DictFacts.
Import Dict.

Lemma eqb_eq (s t : str) : PyStr.eqb s t = true <-> s = t.
Proof.
  revert t. induction s as [|c s IH]; destruct t as [|d t]; simpl;
    try (split; [discriminate | discriminate]); [tauto|].
  rewrite andb_true_iff, Ascii.eqb_eq, IH. split.
  - now intros [-> ->].
  - intros H. injection H as -> ->. tauto.
Qed.

Lemma eqb_refl (s : str) : PyStr.eqb s s = true.
Proof. now apply eqb_eq. Qed.

Lemma eqb_neq (s t : str) : PyStr.eqb s t = false <-> s <> t.
Proof.
  rewrite <- eqb_eq. destruct (PyStr.eqb s t); split; congruence.
Qed.

Section DictLemmas.

Context {V : Type}.
Implicit Types (d : dict V) (k : str) (v : V).

Lemma get_set_same d k v : get (set d k v) k = Some v.
Proof.
  induction d as [|[k' v'] d IH]; simpl.
  - now rewrite eqb_refl.
  - destruct (PyStr.eqb k' k) eqn:E; simpl; rewrite E; [reflexivity | exact IH].
Qed.

Lemma get_set_other d k k' v : k <> k' -> get (set d k v) k' = get d k'.
Proof.
  intros Hne. induction d as [|[k0 v0] d IH]; simpl.
  - apply eqb_neq in Hne. now rewrite Hne.
  - destruct (PyStr.eqb k0 k) eqn:E; simpl.
    + apply eqb_eq in E. subst k0.
      apply eqb_neq in Hne. now rewrite Hne.
    + now rewrite IH.
Qed.

Lemma keys_set_in d k v : In k (keys d) -> keys (set d k v) = keys d.
Proof.
  induction d as [|[k' v'] d IH]; simpl; [tauto|].
  intros [-> | Hin].
  - now rewrite eqb_refl.
  - destruct (PyStr.eqb k' k); simpl; [reflexivity|]. now rewrite IH.
Qed.

Lemma keys_set_notin d k v :
  ~ In k (keys d) -> keys (set d k v) = keys d ++ [k].
Proof.
  induction d as [|[k' v'] d IH]; simpl; [reflexivity|].
  intros Hn. destruct (PyStr.eqb k' k) eqn:E.
  - apply eqb_eq in E. tauto.
  - simpl. rewrite IH; tauto.
Qed.

Lemma keys_set_NoDup d k v : NoDup (keys d) -> NoDup (keys (set d k v)).
Proof.
  intros Hd. destruct (in_dec (list_eq_dec ascii_dec) k (keys d)) as [Hin|Hn].
  - now rewrite keys_set_in.
  - rewrite keys_set_notin by exact Hn.
    apply NoDup_app; [exact Hd | repeat constructor; simpl; tauto |].
    intros x Hx [<- | []]. contradiction.
Qed.

Lemma get_Some_In d k v : get d k = Some v -> In k (keys d).
Proof.
  induction d as [|[k' v'] d IH]; simpl; [discriminate|].
  destruct (PyStr.eqb k' k) eqn:E.
  - apply eqb_eq in E. now left.
  - intros H. right. now apply IH.
Qed.

Lemma In_get_Some d k : In k (keys d) -> exists v, get d k = Some v.
Proof.
  induction d as [|[k' v'] d IH]; simpl; [tauto|].
  intros [-> | Hin].
  - rewrite eqb_refl. now exists v'.
  - destruct (PyStr.eqb k' k); [now exists v' | now apply IH].
Qed.

(** Assigning [f k] to every key [k] of a list in turn. *)
Definition assign_all (f : str -> V) (ks : list str) (d : dict V) : dict V :=
  fold_left (fun d k => set d k (f k)) ks d.

Lemma assign_all_get_notin (f : str -> V) (ks : list str) d k :
  ~ In k ks -> get (assign_all f ks d) k = get d k.
Proof.
  unfold assign_all. revert d. induction ks as [|k0 ks IH]; intros d Hn; simpl.
  - reflexivity.
  - simpl in Hn. rewrite IH by tauto. apply get_set_other. tauto.
Qed.

Lemma assign_all_get (f : str -> V) (ks : list str) d k :
  In k ks -> get (assign_all f ks d) k = Some (f k).
Proof.
  revert d. induction ks as [|k0 ks IH]; simpl; [tauto|].
  intros d [-> | Hin].
  - destruct (in_dec (list_eq_dec ascii_dec) k ks) as [Hin|Hn].
    + now apply IH.
    + change (get (assign_all f ks (set d k (f k))) k = Some (f k)).
      rewrite assign_all_get_notin by exact Hn. apply get_set_same.
  - now apply IH.
Qed.

Lemma assign_all_keys (f : str -> V) (ks : list str) d :
  NoDup ks -> (forall k, In k ks -> ~ In k (keys d)) ->
  keys (assign_all f ks d) = keys d ++ ks.
Proof.
  unfold assign_all. revert d. induction ks as [|k0 ks IH]; intros d Hnd Hd; simpl.
  - now rewrite app_nil_r.
  - inversion Hnd as [|? ? Hn0 Hnd']; subst.
    rewrite IH.
    + rewrite keys_set_notin by (apply Hd; now left).
      now rewrite <- app_assoc.
    + exact Hnd'.
    + intros k Hk. rewrite keys_set_notin by (apply Hd; now left).
      rewrite in_app_iff. simpl. intros [H | [<- | []]].
      * apply (Hd k); [now right | exact H].
      * contradiction.
Qed.

Lemma of_entries_NoDup (entries : list (str * V)) :
  NoDup (keys (of_entries entries)).
Proof.
  unfold of_entries.
  assert (H : forall d, NoDup (keys d) ->
              NoDup (keys (fold_left
                (fun d (e : str * V) => set d (fst e) (snd e)) entries d))).
  { induction entries as [|e entries IH]; intros d Hd; simpl; [exact Hd|].
    apply IH. now apply keys_set_NoDup. }
  apply H. constructor.
Qed.

End DictLemmas.

End DictFacts.

Module SortFacts.
Import PySort.

Section SortLemmas.

Context {A : Type}.
Variable le : A -> A -> bool.

Lemma insert_perm (x : A) (l : list A) : Permutation (insert le x l) (x :: l).
Proof.
  induction l as [|y l IH]; simpl; [reflexivity|].
  destruct (le x y); [reflexivity|].
  rewrite IH. apply perm_swap.
Qed.

(** The sorted list is a rearrangement of the list. *)
Lemma sort_perm (l : list A) : Permutation (sort le l) l.
Proof.
  induction l as [|x l IH]; simpl; [reflexivity|].
  rewrite insert_perm. now constructor.
Qed.

Hypothesis le_total : forall x y, le x y = false -> le y x = true.
Hypothesis le_trans :
  forall x y z, le x y = true -> le y z = true -> le x z = true.

Let leP (x y : A) : Prop := le x y = true.

Lemma insert_sorted (x : A) (l : list A) :
  StronglySorted leP l -> StronglySorted leP (insert le x l).
Proof.
  induction 1 as [|y l Hl IH Hy]; simpl.
  - repeat constructor.
  - destruct (le x y) eqn:E.
    + constructor; [now constructor|].
      constructor; [exact E|].
      rewrite Forall_forall in *. intros z Hz.
      apply (le_trans x y z E). now apply Hy.
    + constructor; [exact IH|].
      assert (Hf : Forall (leP y) (x :: l)).
      { constructor; [now apply le_total | exact Hy]. }
      rewrite Forall_forall in *. intros z Hz. apply Hf.
      apply (Permutation_in z (insert_perm x l) Hz).
Qed.

(** The sorted list is ordered. *)
Lemma sort_sorted (l : list A) : StronglySorted leP (sort le l).
Proof.
  induction l as [|x l IH]; simpl; [constructor|].
  now apply insert_sorted.
Qed.

End SortLemmas.

Lemma StronglySorted_weaken {A : Type} (R R' : A -> A -> Prop) (l : list A) :
  (forall x y, R x y -> R' x y) -> StronglySorted R l -> StronglySorted R' l.
Proof.
  intros HR. induction 1 as [|x l Hl IH Hx]; constructor; [exact IH|].
  eapply Forall_impl; [|exact Hx]. intros y. apply HR.
Qed.

(** ** The order on strings *)

Lemma ltb_irrefl (s : str) : PyStr.ltb s s = false.
Proof.
  induction s as [|c s IH]; simpl; [reflexivity|].
  rewrite Nat.ltb_irrefl, Ascii.eqb_refl. exact IH.
Qed.

Lemma nat_of_ascii_inj (c d : ascii) : nat_of_ascii c = nat_of_ascii d -> c = d.
Proof.
  intros H. rewrite <- (ascii_nat_embedding c), <- (ascii_nat_embedding d).
  now rewrite H.
Qed.

Lemma ltb_trans (s t u : str) :
  PyStr.ltb s t = true -> PyStr.ltb t u = true -> PyStr.ltb s u = true.
Proof.
  revert t u. induction s as [|c s IH]; intros [|d t] [|e u]; simpl;
    try discriminate; try reflexivity.
  rewrite !orb_true_iff, !andb_true_iff, !Nat.ltb_lt, !Ascii.eqb_eq.
  intros [H1 | [-> H1]] [H2 | [-> H2]].
  - left. lia.
  - now left.
  - now left.
  - right. split; [reflexivity|]. now apply (IH t u).
Qed.

Lemma ltb_total (s t : str) :
  PyStr.ltb s t = false -> PyStr.ltb t s = false -> s = t.
Proof.
  revert t. induction s as [|c s IH]; intros [|d t]; simpl;
    try discriminate; try reflexivity.
  rewrite !orb_false_iff, !andb_false_iff, !Nat.ltb_ge.
  intros [H1 H1'] [H2 H2'].
  assert (c = d) by (apply nat_of_ascii_inj; lia). subst d.
  rewrite Ascii.eqb_refl in *.
  f_equal. apply IH.
  - destruct H1'; [discriminate | assumption].
  - destruct H2'; [discriminate | assumption].
Qed.

Lemma ltb_asym (s t : str) : PyStr.ltb s t = true -> PyStr.ltb t s = false.
Proof.
  intros H. destruct (PyStr.ltb t s) eqn:E; [|reflexivity].
  pose proof (ltb_trans s t s H E) as H'. now rewrite ltb_irrefl in H'.
Qed.

Lemma leb_total (s t : str) : PyStr.leb s t = false -> PyStr.leb t s = true.
Proof.
  unfold PyStr.leb. rewrite negb_false_iff, negb_true_iff. apply ltb_asym.
Qed.

Lemma leb_trans (s t u : str) :
  PyStr.leb s t = true -> PyStr.leb t u = true -> PyStr.leb s u = true.
Proof.
  unfold PyStr.leb. rewrite !negb_true_iff. intros H1 H2.
  destruct (PyStr.ltb u s) eqn:E; [|reflexivity].
  destruct (PyStr.ltb s t) eqn:E1.
  - pose proof (ltb_trans u s t E E1). congruence.
  - rewrite (ltb_total s t E1 H1) in E. congruence.
Qed.

(** A list of strings in increasing order. *)
Definition ordered_by_name (l : list str) : Prop :=
  StronglySorted (fun s t => PyStr.leb s t = true) l.

Lemma sorted_str_ordered (l : list str) : ordered_by_name (sorted_str l).
Proof. apply sort_sorted; [apply leb_total | apply leb_trans]. Qed.

Lemma sorted_str_perm (l : list str) : Permutation (sorted_str l) l.
Proof. apply sort_perm. Qed.

End SortFacts.

(* ================================================================== *)
(** * Properties of the sequence matcher *)
(* ================================================================== *)

Module DifflibFacts.
Import Difflib.

Local Open Scope nat_scope.

Section Matcher.

Variables a b : str.

(** ** [find_longest_match] stays inside its rectangle *)

Section Bounds.

Variables alo ahi blo bhi : nat.

(** A block inside the rectangle, ending in [a] at or before [top]. *)
Definition inside (top : nat) (m : block) : Prop :=
  let '(i, j, k) := m in
  alo <= i /\ i + k <= top /\ blo <= j /\ j + k <= bhi.

(** The entries of [j2len] after [c] rows: lengths of runs that end in
    the last row and start inside the rectangle. *)
Definition runs_ok (c : nat) (m : j2len_t) : Prop :=
  Forall (fun e : nat * nat => snd e <= c /\ snd e <= fst e + 1 - blo) m.

Lemma lookup_bound (c : nat) (m : j2len_t) (j : nat) :
  runs_ok c m -> j2len_lookup m j <= c /\ j2len_lookup m j <= j + 1 - blo.
Proof.
  induction 1 as [|[j' k] m [H1 H2] _ IH]; simpl; [lia|].
  destruct (Nat.eqb_spec j' j); [subst; simpl in *; lia | exact IH].
Qed.

Lemma get_prev_bound (c : nat) (m : j2len_t) (j : nat) :
  runs_ok c m -> blo <= j ->
  j2len_get_prev m j + 1 <= c + 1 /\ j2len_get_prev m j + 1 <= j + 1 - blo.
Proof.
  intros Hm Hj. destruct j as [|j']; cbn [j2len_get_prev]; [lia|].
  destruct (lookup_bound c m j' Hm). lia.
Qed.

Lemma scan_row_inv (js : list nat) (c : nat) (j2len newj2len : j2len_t)
    (best : block) :
  runs_ok c j2len -> runs_ok (c + 1) newj2len ->
  inside (alo + c + 1) best ->
  let '(newj2len', best') :=
    scan_row blo bhi js (alo + c) j2len newj2len best in
  runs_ok (c + 1) newj2len' /\ inside (alo + c + 1) best'.
Proof.
  intros Hold. revert newj2len best.
  induction js as [|j js IH]; intros newj2len best Hnew Hbest; simpl.
  - split; [exact Hnew | exact Hbest].
  - destruct (Nat.ltb_spec j blo); [now apply IH|].
    destruct (Nat.leb_spec bhi j).
    + split; [exact Hnew | exact Hbest].
    + destruct (get_prev_bound c j2len j Hold ltac:(lia)) as [Hk1 Hk2].
      destruct best as [[besti bestj] bestsize].
      set (k := j2len_get_prev j2len j + 1) in *.
      assert (Hnew' : runs_ok (c + 1) ((j, k) :: newj2len)).
      { constructor; [simpl; lia | exact Hnew]. }
      destruct (Nat.ltb_spec bestsize k).
      * apply IH; [exact Hnew'|]. unfold inside. lia.
      * apply IH; [exact Hnew' | exact Hbest].
Qed.

Lemma scan_rows_gen (n c : nat) (j2len : j2len_t) (best : block) :
  runs_ok c j2len -> inside (alo + c) best ->
  inside (alo + c + n)
    (snd (fold_left
      (fun (st : j2len_t * block) (i : nat) =>
         let '(j2len, best) := st in
         scan_row blo bhi (b2j b (at_index a i)) i j2len [] best)
      (seq (alo + c) n) (j2len, best))).
Proof.
  revert c j2len best. induction n as [|n IH]; intros c j2len best Hm Hb; simpl.
  - now rewrite Nat.add_0_r.
  - assert (Hb1 : inside (alo + c + 1) best).
    { destruct best as [[i j] k]. unfold inside in *. lia. }
    pose proof (scan_row_inv (b2j b (at_index a (alo + c))) c j2len [] best
                  Hm ltac:(constructor) Hb1) as H.
    destruct (scan_row blo bhi (b2j b (at_index a (alo + c))) (alo + c)
                j2len [] best) as [j2len' best'].
    destruct H as [Hm' Hb'].
    specialize (IH (c + 1) j2len' best' Hm').
    replace (alo + (c + 1)) with (S (alo + c)) in IH by lia.
    replace (alo + c + S n) with (S (alo + c) + n) by lia.
    apply IH. replace (S (alo + c)) with (alo + c + 1) by lia. exact Hb'.
Qed.

Lemma scan_rows_inside :
  alo <= ahi -> blo <= bhi -> inside ahi (snd (scan_rows a b alo ahi blo bhi)).
Proof.
  intros Ha Hb.
  pose proof (scan_rows_gen (ahi - alo) 0 [] (alo, blo, 0)
                ltac:(constructor) ltac:(simpl; lia)) as H.
  rewrite !Nat.add_0_r in H.
  replace (alo + (ahi - alo)) with ahi in H by lia.
  exact H.
Qed.

Lemma extend_left_inside (keep : ascii -> bool) (i j k : nat) :
  inside ahi (i, j, k) -> inside ahi (extend_left a b alo blo keep i j k).
Proof.
  revert j k. induction i as [|i IH]; intros j k H; simpl; [exact H|].
  destruct j as [|j]; [exact H|].
  destruct (Nat.ltb_spec alo (S i)); simpl; [|exact H].
  destruct (Nat.ltb_spec blo (S j)); simpl; [|exact H].
  destruct (keep (at_index b j)); simpl; [|exact H].
  destruct (Ascii.eqb (at_index a i) (at_index b j)); [|exact H].
  apply IH. simpl in *. lia.
Qed.

Lemma extend_right_inside (keep : ascii -> bool) (n i j k : nat) :
  inside ahi (i, j, k) -> inside ahi (extend_right a b ahi bhi keep n i j k).
Proof.
  revert k. induction n as [|n IH]; intros k H; simpl; [exact H|].
  destruct (Nat.ltb_spec (i + k) ahi); simpl; [|exact H].
  destruct (Nat.ltb_spec (j + k) bhi); simpl; [|exact H].
  destruct (keep (at_index b (j + k))); simpl; [|exact H].
  destruct (Ascii.eqb (at_index a (i + k)) (at_index b (j + k))); [|exact H].
  apply IH. simpl in *. lia.
Qed.

Lemma extend_inside (keep : ascii -> bool) (m : block) :
  inside ahi m -> inside ahi (extend a b alo ahi blo bhi keep m).
Proof.
  intros H. unfold extend. destruct m as [[i j] k].
  pose proof (extend_left_inside keep i j k H) as H'.
  destruct (extend_left a b alo blo keep i j k) as [[i' j'] k'].
  now apply extend_right_inside.
Qed.

(** The match returned lies inside the rectangle searched. *)
Lemma find_longest_match_inside :
  alo <= ahi -> blo <= bhi ->
  inside ahi (find_longest_match a b alo ahi blo bhi).
Proof.
  intros Ha Hb. unfold find_longest_match.
  apply extend_inside, extend_inside. now apply scan_rows_inside.
Qed.

End Bounds.

(** ** The blocks found by [get_matching_blocks] *)

(** Sum of the sizes of the blocks. *)
Definition sizes (l : list block) : nat :=
  list_sum (map (fun t : block => snd t) l).

Definition wf_rect (r : rect) : Prop :=
  let '(alo, ahi, blo, bhi) := r in alo <= ahi /\ blo <= bhi.

Definition width_a (r : rect) : nat :=
  let '(alo, ahi, _, _) := r in ahi - alo.

Definition width_b (r : rect) : nat :=
  let '(_, _, blo, bhi) := r in bhi - blo.

(** Elements of [a], of [b], left to the rectangles of the queue. *)
Definition room_a (q : list rect) : nat := list_sum (map width_a q).
Definition room_b (q : list rect) : nat := list_sum (map width_b q).

(** Bound on the iterations the queue can still cause. *)
Definition work (q : list rect) : nat :=
  list_sum (map (fun r => 2 * width_a r + 1) q).

Lemma sizes_app (l l' : list block) : sizes (l ++ l') = sizes l + sizes l'.
Proof. unfold sizes. now rewrite map_app, list_sum_app. Qed.

Lemma step_inv (alo ahi blo bhi : nat) (q : list rect) (bl : list block) :
  alo <= ahi -> blo <= bhi -> Forall wf_rect q ->
  let '(q', bl') := step a b alo ahi blo bhi q bl in
  Forall wf_rect q'
  /\ sizes bl' + room_a q' <= sizes bl + room_a q + (ahi - alo)
  /\ sizes bl' + room_b q' <= sizes bl + room_b q + (bhi - blo)
  /\ work q' < work q + 2 * (ahi - alo) + 1.
Proof.
  intros Ha Hb Hq. unfold step.
  pose proof (find_longest_match_inside alo ahi blo bhi Ha Hb) as Hin.
  destruct (find_longest_match a b alo ahi blo bhi) as [[i j] k].
  unfold inside in Hin.
  destruct (Nat.eqb_spec k 0) as [Hk|Hk].
  - repeat split; [exact Hq | lia | lia | lia].
  - rewrite sizes_app. change (sizes [(i, j, k)]) with (k + 0).
    destruct (Nat.ltb_spec alo i), (Nat.ltb_spec blo j),
             (Nat.ltb_spec (i + k) ahi), (Nat.ltb_spec (j + k) bhi);
      simpl andb; cbv iota;
      unfold room_a, room_b, work; simpl map; simpl list_sum;
      (split; [repeat (constructor; [unfold wf_rect; lia|]); exact Hq | lia]).
Qed.

Lemma loop_inv (fuel : nat) (q : list rect) (bl : list block) :
  Forall wf_rect q ->
  sizes (snd (loop a b fuel q bl)) <= sizes bl + room_a q
  /\ sizes (snd (loop a b fuel q bl)) <= sizes bl + room_b q.
Proof.
  revert q bl. induction fuel as [|fuel IH]; intros q bl Hq.
  - destruct q; simpl; lia.
  - destruct q as [|[[[alo ahi] blo] bhi] q]; [simpl; lia|].
    simpl loop. inversion Hq as [|? ? Hr Hq']; subst.
    destruct Hr as [Ha Hb].
    pose proof (step_inv alo ahi blo bhi q bl Ha Hb Hq') as H.
    destruct (step a b alo ahi blo bhi q bl) as [q' bl'].
    destruct H as (Hwf & H1 & H2 & _).
    destruct (IH q' bl' Hwf) as [I1 I2].
    unfold room_a, room_b in *. simpl map. simpl list_sum. lia.
Qed.

(** With enough fuel the loop runs until the queue is empty. *)
Lemma loop_completes (fuel : nat) (q : list rect) (bl : list block) :
  Forall wf_rect q -> work q <= fuel -> fst (loop a b fuel q bl) = [].
Proof.
  revert q bl. induction fuel as [|fuel IH]; intros q bl Hq Hw.
  - destruct q as [|r q]; [reflexivity|].
    unfold work in Hw. simpl in Hw. lia.
  - destruct q as [|[[[alo ahi] blo] bhi] q]; [reflexivity|].
    simpl loop. inversion Hq as [|? ? Hr Hq']; subst.
    destruct Hr as [Ha Hb].
    pose proof (step_inv alo ahi blo bhi q bl Ha Hb Hq') as H.
    destruct (step a b alo ahi blo bhi q bl) as [q' bl'].
    destruct H as (Hwf & _ & _ & H3).
    apply IH; [exact Hwf|].
    unfold work in *. cbn [map width_a] in Hw.
    change (list_sum (?x :: ?l)) with (x + list_sum l) in Hw. lia.
Qed.

(** The loop of [get_matching_blocks] empties its queue. *)
Lemma get_matching_blocks_completes :
  fst (loop a b (2 * length a + 1) [(0, length a, 0, length b)] []) = [].
Proof.
  apply loop_completes.
  - repeat constructor; lia.
  - unfold work. simpl. lia.
Qed.

Lemma sizes_perm (l l' : list block) : Permutation l l' -> sizes l = sizes l'.
Proof.
  unfold sizes. induction 1; simpl; lia.
Qed.

Lemma sizes_collapse (l : list block) (i1 j1 k1 : nat) :
  sizes (collapse l i1 j1 k1) = k1 + sizes l.
Proof.
  revert i1 j1 k1. induction l as [|[[i2 j2] k2] l IH]; intros i1 j1 k1.
  - simpl. destruct (Nat.eqb_spec k1 0); unfold sizes; simpl; lia.
  - simpl collapse.
    destruct ((i1 + k1 =? i2) && (j1 + k1 =? j2))%bool.
    + rewrite IH. unfold sizes. simpl. lia.
    + rewrite sizes_app, IH.
      destruct (Nat.eqb_spec k1 0); unfold sizes; simpl; lia.
Qed.

Lemma fold_sizes (l : list block) (n : nat) :
  fold_left (fun acc (t : block) => acc + snd t) l n = n + sizes l.
Proof.
  revert n. induction l as [|t l IH]; intros n; simpl.
  - unfold sizes. simpl. lia.
  - rewrite IH. unfold sizes. simpl. lia.
Qed.

(** The matched elements are the elements of the blocks found by the
    loop. *)
Lemma matches_eq :
  matches a b
  = sizes (snd (loop a b (2 * length a + 1)
                     [(0, length a, 0, length b)] [])).
Proof.
  unfold matches, get_matching_blocks.
  destruct (loop a b (2 * length a + 1) [(0, length a, 0, length b)] [])
    as [q bl].
  rewrite fold_sizes, sizes_app, sizes_collapse. simpl.
  unfold block_sort. rewrite (sizes_perm _ _ (SortFacts.sort_perm _ bl)).
  unfold sizes at 2. simpl. lia.
Qed.

(** No element of [a] and no element of [b] is matched twice. *)
Lemma matches_le : matches a b <= length a /\ matches a b <= length b.
Proof.
  rewrite matches_eq.
  destruct (loop_inv (2 * length a + 1) [(0, length a, 0, length b)] [])
    as [H1 H2].
  - repeat constructor; lia.
  - unfold room_a, room_b, sizes in *. simpl in *. lia.
Qed.

(** ** Texts without a common element *)

Lemma indices_from_absent (s : str) (j : nat) (elt : ascii) :
  ~ In elt s -> indices_from s j elt = [].
Proof.
  revert j. induction s as [|c s IH]; intros j Hn; simpl; [reflexivity|].
  destruct (Ascii.eqb_spec c elt) as [->|_].
  - exfalso. apply Hn. now left.
  - apply IH. intros H. apply Hn. now right.
Qed.

Section Apart.

Hypothesis apart : forall c, In c a -> ~ In c b.

(** No element of [a] is a key of [b2j]. *)
Lemma b2j_apart (i : nat) : i < length a -> b2j b (at_index a i) = [].
Proof.
  intros Hi. unfold b2j. destruct (popular b (at_index a i)); [reflexivity|].
  apply indices_from_absent, apart, nth_In, Hi.
Qed.

Lemma scan_rows_apart_gen (blo bhi n start : nat) (st : j2len_t * block) :
  start + n <= length a ->
  snd (fold_left
         (fun (st : j2len_t * block) (i : nat) =>
            let '(j2len, best) := st in
            scan_row blo bhi (b2j b (at_index a i)) i j2len [] best)
         (seq start n) st)
  = snd st.
Proof.
  revert start st. induction n as [|n IH]; intros start [j2len best] Hn;
    cbn [seq fold_left]; [reflexivity|].
  rewrite b2j_apart by lia. cbn [scan_row].
  rewrite IH by lia. reflexivity.
Qed.

(** The scan of the rows leaves the initial, empty, match. *)
Lemma scan_rows_apart (alo ahi blo bhi : nat) :
  ahi <= length a -> snd (scan_rows a b alo ahi blo bhi) = (alo, blo, 0).
Proof.
  intros Ha. unfold scan_rows.
  destruct (Nat.le_gt_cases alo ahi) as [Hle|Hgt].
  - rewrite scan_rows_apart_gen; [reflexivity | lia].
  - replace (ahi - alo) with 0 by lia. reflexivity.
Qed.

(** An empty match at the corner of the rectangle cannot be extended. *)
Lemma extend_apart (keep : ascii -> bool) (alo ahi blo bhi : nat) :
  ahi <= length a -> bhi <= length b ->
  extend a b alo ahi blo bhi keep (alo, blo, 0) = (alo, blo, 0).
Proof.
  intros Ha Hb. unfold extend.
  assert (Hl : extend_left a b alo blo keep alo blo 0 = (alo, blo, 0)).
  { destruct alo as [|i'], blo as [|j']; cbn [extend_left]; try reflexivity.
    now rewrite Nat.ltb_irrefl. }
  rewrite Hl. rewrite Nat.add_0_r.
  destruct (ahi - alo) as [|n]; cbn [extend_right]; [reflexivity|].
  rewrite !Nat.add_0_r.
  destruct (Nat.ltb_spec alo ahi); cbn [andb]; [|reflexivity].
  destruct (Nat.ltb_spec blo bhi); cbn [andb]; [|reflexivity].
  destruct (keep (at_index b blo)); cbn [andb]; [|reflexivity].
  destruct (Ascii.eqb_spec (at_index a alo) (at_index b blo)) as [E|_];
    [|reflexivity].
  exfalso. apply (apart (at_index a alo)).
  - apply nth_In. lia.
  - rewrite E. apply nth_In. lia.
Qed.

Lemma find_longest_match_apart (alo ahi blo bhi : nat) :
  ahi <= length a -> bhi <= length b ->
  find_longest_match a b alo ahi blo bhi = (alo, blo, 0).
Proof.
  intros Ha Hb. unfold find_longest_match.
  rewrite scan_rows_apart by exact Ha.
  now rewrite !extend_apart.
Qed.

(** Two texts without a common element have no matching block but the
    final, empty, one. *)
Lemma matches_apart : matches a b = 0.
Proof.
  rewrite matches_eq.
  replace (2 * length a + 1) with (S (2 * length a)) by lia.
  cbn [loop]. unfold step.
  rewrite find_longest_match_apart by lia.
  cbn [Nat.eqb]. now destruct (2 * length a).
Qed.

End Apart.

(** ** The longest common block is found *)

Lemma indices_from_In (s : str) (j0 : nat) (elt : ascii) (x : nat) :
  In x (indices_from s j0 elt)
  <-> j0 <= x < j0 + length s /\ nth (x - j0) s zero = elt.
Proof.
  revert j0. induction s as [|c s IH]; intros j0; cbn [indices_from length].
  - split; [intros [] | lia].
  - assert (Hnext : j0 < x ->
              (nth (x - j0) (c :: s) zero = elt
               <-> nth (x - S j0) s zero = elt)).
    { intros Hx. replace (x - j0) with (S (x - S j0)) by lia.
      cbn [nth]. tauto. }
    destruct (Ascii.eqb_spec c elt) as [->|Hne]; cbn [In]; rewrite IH.
    + split.
      * intros [<- | [H1 H2]].
        -- rewrite Nat.sub_diag. split; [lia | reflexivity].
        -- split; [lia|]. apply Hnext; [lia | exact H2].
      * intros [H1 H2]. destruct (Nat.eq_dec j0 x) as [->|Hx]; [now left|].
        right. split; [lia|]. apply Hnext; [lia | exact H2].
    + split.
      * intros [H1 H2]. split; [lia|]. apply Hnext; [lia | exact H2].
      * intros [H1 H2]. destruct (Nat.eq_dec j0 x) as [->|Hx].
        -- rewrite Nat.sub_diag in H2. contradiction.
        -- split; [lia|]. apply Hnext; [lia | exact H2].
Qed.

Lemma indices_from_sorted (s : str) (j0 : nat) (elt : ascii) :
  StronglySorted lt (indices_from s j0 elt).
Proof.
  revert j0. induction s as [|c s IH]; intros j0; cbn [indices_from];
    [constructor|].
  destruct (Ascii.eqb c elt); [|apply IH].
  constructor; [apply IH|]. apply Forall_forall. intros x Hx.
  apply indices_from_In in Hx. lia.
Qed.

(** The size of a block. *)
Definition size (m : block) : nat := snd m.

Section Longest.

Variables alo ahi blo bhi : nat.

(** The entries of [newj2len] are not overwritten by later columns. *)
Lemma scan_row_keeps (js : list nat) (i : nat) (j2len acc : j2len_t)
    (best : block) (j : nat) :
  ~ In j js ->
  j2len_lookup (fst (scan_row blo bhi js i j2len acc best)) j
  = j2len_lookup acc j.
Proof.
  revert acc best. induction js as [|j0 js IH]; intros acc best Hn;
    cbn [scan_row]; [reflexivity|].
  destruct (j0 <? blo); [apply IH; intros H; apply Hn; now right|].
  destruct (bhi <=? j0); [reflexivity|].
  destruct best as [[besti bestj] bestsize].
  rewrite IH by (intros H; apply Hn; now right).
  cbn [j2len_lookup]. destruct (Nat.eqb_spec j0 j); [|reflexivity].
  exfalso. apply Hn. now left.
Qed.

(** One row: every column of the row inside the rectangle extends the
    run that ends left above it, and the best match is at least as long
    as each of these runs. *)
Lemma scan_row_covers (js : list nat) (i : nat) (j2len acc : j2len_t)
    (best : block) :
  StronglySorted lt js ->
  size best <= size (snd (scan_row blo bhi js i j2len acc best))
  /\ forall j, In j js -> blo <= j < bhi ->
       j2len_get_prev j2len j + 1
       <= j2len_lookup (fst (scan_row blo bhi js i j2len acc best)) j
       /\ j2len_get_prev j2len j + 1
          <= size (snd (scan_row blo bhi js i j2len acc best)).
Proof.
  intros Hs. revert acc best.
  induction Hs as [|j0 js Hs IH Hall]; intros acc best; cbn [scan_row].
  - cbn [fst snd]. split; [lia | intros j []].
  - rewrite Forall_forall in Hall.
    destruct (Nat.ltb_spec j0 blo).
    { destruct (IH acc best) as [I1 I2]. split; [exact I1|].
      intros j [<- | Hin] Hj; [lia | now apply I2]. }
    destruct (Nat.leb_spec bhi j0).
    { cbn [fst snd]. split; [lia|].
      intros j [<- | Hin] Hj; [lia|]. specialize (Hall j Hin). lia. }
    destruct best as [[besti bestj] bestsize].
    set (k := j2len_get_prev j2len j0 + 1).
    set (best' := if bestsize <? k then (i + 1 - k, j0 + 1 - k, k)
                  else (besti, bestj, bestsize)).
    assert (Hbest : bestsize <= size best' /\ k <= size best').
    { unfold best'. destruct (Nat.ltb_spec bestsize k); unfold size; simpl; lia. }
    destruct (IH ((j0, k) :: acc) best') as [I1 I2].
    split; [unfold size at 1; cbn [snd]; lia|].
    intros j [<- | Hin] Hj; [|now apply I2].
    split; [|lia].
    rewrite scan_row_keeps.
    + cbn [j2len_lookup]. rewrite Nat.eqb_refl. lia.
    + intros Hin. specialize (Hall j0 Hin). lia.
Qed.

(** [a[i:i+k] == b[j:j+k]], a common block of the two texts that begins
    inside the rectangle and ends in [b] before [bhi]. *)
Definition common (i j k : nat) : Prop :=
  alo <= i /\ blo <= j /\ j + k <= bhi
  /\ forall t, t < k -> at_index a (i + t) = at_index b (j + t).

(** After the rows before [c]: [j2len] knows the common blocks ending in
    the last row, and the best match is as long as every common block
    that ends before row [c]. *)
Definition covers (c : nat) (st : j2len_t * block) : Prop :=
  forall i j k, common i j k -> 0 < k ->
    (i + k = c -> k <= j2len_lookup (fst st) (j + k - 1))
    /\ (i + k <= c -> k <= size (snd st)).

Hypothesis b_short : length b < 200.
Hypothesis bhi_le : bhi <= length b.

(** Without popular elements [b2j] lists every index. *)
Lemma b2j_short (elt : ascii) : b2j b elt = indices b elt.
Proof.
  unfold b2j, popular.
  destruct (Nat.leb_spec 200 (length b)); [lia | reflexivity].
Qed.

Lemma scan_row_step (c : nat) (j2len : j2len_t) (best : block) :
  covers c (j2len, best) ->
  covers (S c) (scan_row blo bhi (b2j b (at_index a c)) c j2len [] best).
Proof.
  intros Hc i j k Hcom Hk. rewrite b2j_short.
  destruct (scan_row_covers (indices b (at_index a c)) c j2len [] best
              (indices_from_sorted b 0 (at_index a c))) as [M1 M2].
  assert (Hend : i + k = S c ->
            k <= j2len_lookup
                   (fst (scan_row blo bhi (indices b (at_index a c)) c
                           j2len [] best)) (j + k - 1)
            /\ k <= size (snd (scan_row blo bhi (indices b (at_index a c)) c
                                 j2len [] best))).
  { intros E. destruct Hcom as (Hi & Hj & Hjk & Heq).
    assert (Hin : In (j + k - 1) (indices b (at_index a c))).
    { apply indices_from_In. split; [lia|].
      rewrite Nat.sub_0_r. specialize (Heq (k - 1) ltac:(lia)).
      replace (i + (k - 1)) with c in Heq by lia.
      replace (j + (k - 1)) with (j + k - 1) in Heq by lia.
      symmetry. exact Heq. }
    destruct (M2 (j + k - 1) Hin ltac:(lia)) as [N1 N2].
    assert (Hprev : k <= j2len_get_prev j2len (j + k - 1) + 1).
    { destruct (Nat.eq_dec k 1) as [->|Hk1]; [lia|].
      assert (Hcom' : common i j (k - 1)).
      { repeat split; try lia. intros t Ht. apply Heq. lia. }
      destruct (Hc i j (k - 1) Hcom' ltac:(lia)) as [P _].
      specialize (P ltac:(lia)). cbn [fst] in P.
      replace (j + k - 1) with (S (j + (k - 1) - 1)) by lia.
      cbn [j2len_get_prev]. lia. }
    lia. }
  split; [intros E; now apply Hend|].
  intros Hle. destruct (Nat.eq_dec (i + k) (S c)) as [E|Hne].
  - now apply Hend.
  - destruct (Hc i j k Hcom Hk) as [_ P]. specialize (P ltac:(lia)).
    cbn [snd] in P. lia.
Qed.

Lemma scan_rows_covers_gen (n c : nat) (st : j2len_t * block) :
  covers c st ->
  covers (c + n)
    (fold_left
       (fun (st : j2len_t * block) (i : nat) =>
          let '(j2len, best) := st in
          scan_row blo bhi (b2j b (at_index a i)) i j2len [] best)
       (seq c n) st).
Proof.
  revert c st. induction n as [|n IH]; intros c [j2len best] Hc;
    cbn [seq fold_left].
  - now rewrite Nat.add_0_r.
  - replace (c + S n) with (S c + n) by lia.
    apply IH. now apply scan_row_step.
Qed.

(** The scan of the rows ends with a match as long as every common block
    of the rectangle. *)
Lemma scan_rows_longest (i j k : nat) :
  common i j k -> i + k <= ahi ->
  k <= size (snd (scan_rows a b alo ahi blo bhi)).
Proof.
  intros Hcom Hik. destruct (Nat.eq_dec k 0) as [->|Hk]; [lia|].
  assert (Hinit : covers alo ([], (alo, blo, 0))).
  { intros i' j' k' (Hi & _) Hk'. split; intros; lia. }
  pose proof (scan_rows_covers_gen (ahi - alo) alo _ Hinit) as H.
  destruct (H i j k Hcom ltac:(lia)) as [_ P].
  apply P. destruct Hcom as (Hi & _). lia.
Qed.

Lemma extend_left_size (keep : ascii -> bool) (i j k : nat) :
  k <= size (extend_left a b alo blo keep i j k).
Proof.
  revert j k. induction i as [|i IH]; intros j k; cbn [extend_left];
    [unfold size; simpl; lia|].
  destruct j as [|j]; [unfold size; simpl; lia|].
  destruct ((alo <? S i) && (blo <? S j) && keep (at_index b j)
            && Ascii.eqb (at_index a i) (at_index b j))%bool.
  - specialize (IH j (S k)). lia.
  - unfold size. simpl. lia.
Qed.

Lemma extend_right_size (keep : ascii -> bool) (n i j k : nat) :
  k <= size (extend_right a b ahi bhi keep n i j k).
Proof.
  revert k. induction n as [|n IH]; intros k; cbn [extend_right];
    [unfold size; simpl; lia|].
  destruct ((i + k <? ahi) && (j + k <? bhi) && keep (at_index b (j + k))
            && Ascii.eqb (at_index a (i + k)) (at_index b (j + k)))%bool.
  - specialize (IH (S k)). lia.
  - unfold size. simpl. lia.
Qed.

Lemma extend_size (keep : ascii -> bool) (m : block) :
  size m <= size (extend a b alo ahi blo bhi keep m).
Proof.
  unfold extend. destruct m as [[i j] k].
  pose proof (extend_left_size keep i j k) as H.
  destruct (extend_left a b alo blo keep i j k) as [[i' j'] k'].
  pose proof (extend_right_size keep (ahi - (i' + k')) i' j' k') as H'.
  unfold size in *. simpl in *. lia.
Qed.

(** [find_longest_match] returns a block at least as long as every
    common block of the rectangle. *)
Lemma find_longest_match_longest (i j k : nat) :
  common i j k -> i + k <= ahi ->
  k <= size (find_longest_match a b alo ahi blo bhi).
Proof.
  intros Hcom Hik. unfold find_longest_match.
  pose proof (scan_rows_longest i j k Hcom Hik) as H0.
  pose proof (extend_size (fun c => negb (isbjunk c))
                (snd (scan_rows a b alo ahi blo bhi))) as H1.
  pose proof (extend_size isbjunk
                (extend a b alo ahi blo bhi (fun c => negb (isbjunk c))
                   (snd (scan_rows a b alo ahi blo bhi)))) as H2.
  lia.
Qed.

End Longest.

(** The blocks collected only grow. *)
Lemma step_grows (alo ahi blo bhi : nat) (q : list rect) (bl : list block) :
  sizes (snd (step a b alo ahi blo bhi q bl))
  = sizes bl + size (find_longest_match a b alo ahi blo bhi).
Proof.
  unfold step. destruct (find_longest_match a b alo ahi blo bhi) as [[i j] k].
  unfold size. cbn [snd].
  destruct (Nat.eqb_spec k 0) as [->|Hk]; cbn [snd]; [lia|].
  rewrite sizes_app. unfold sizes at 2. simpl. lia.
Qed.

Lemma loop_grows (fuel : nat) (q : list rect) (bl : list block) :
  sizes bl <= sizes (snd (loop a b fuel q bl)).
Proof.
  revert q bl. induction fuel as [|fuel IH]; intros q bl.
  - destruct q; simpl; lia.
  - destruct q as [|[[[alo ahi] blo] bhi] q]; [simpl; lia|].
    cbn [loop]. pose proof (step_grows alo ahi blo bhi q bl) as H.
    destruct (step a b alo ahi blo bhi q bl) as [q' bl'].
    cbn [snd] in H. specialize (IH q' bl'). lia.
Qed.

Lemma loop_S (fuel alo ahi blo bhi : nat) (q : list rect) (bl : list block) :
  loop a b (S fuel) ((alo, ahi, blo, bhi) :: q) bl
  = loop a b fuel (fst (step a b alo ahi blo bhi q bl))
      (snd (step a b alo ahi blo bhi q bl)).
Proof. cbn [loop]. now destruct (step a b alo ahi blo bhi q bl). Qed.

(** The longest match of the two whole texts is counted. *)
Lemma matches_ge :
  size (find_longest_match a b 0 (length a) 0 (length b)) <= matches a b.
Proof.
  rewrite matches_eq.
  replace (2 * length a + 1) with (S (2 * length a)) by lia.
  rewrite loop_S.
  etransitivity; [|apply loop_grows].
  rewrite step_grows. change (sizes []) with 0. lia.
Qed.

End Matcher.

(** ** A text inside another

    When [a] occurs in [b] and neither text is long enough for the
    automatic junk heuristic, all of [a] is matched, whichever of the
    two texts comes first. *)

Lemma nth_middle_block (pre s post : str) (t : nat) :
  t < length s ->
  at_index (pre ++ s ++ post) (length pre + t) = at_index s t.
Proof.
  intros Ht. unfold at_index.
  rewrite app_nth2 by lia.
  replace (length pre + t - length pre) with t by lia.
  now rewrite app_nth1.
Qed.

Lemma matches_inside_l (pre s post : str) :
  length (pre ++ s ++ post) < 200 ->
  matches s (pre ++ s ++ post) = length s.
Proof.
  intros Hb. set (b := pre ++ s ++ post) in *.
  destruct (matches_le s b) as [Hle _].
  pose proof (matches_ge s b) as Hge.
  assert (Hlong : length s
                  <= size (find_longest_match s b 0 (length s) 0 (length b))).
  { apply (find_longest_match_longest s b 0 (length s) 0 (length b) Hb
             (le_n _) 0 (length pre) (length s)); [|lia].
    unfold common. repeat split; try lia.
    - unfold b. rewrite !length_app. lia.
    - intros t Ht. unfold b. now rewrite nth_middle_block. }
  lia.
Qed.

Lemma matches_inside_r (pre s post : str) :
  length s < 200 ->
  matches (pre ++ s ++ post) s = length s.
Proof.
  intros Hs. set (b := pre ++ s ++ post) in *.
  destruct (matches_le b s) as [_ Hle].
  pose proof (matches_ge b s) as Hge.
  assert (Hlong : length s
                  <= size (find_longest_match b s 0 (length b) 0 (length s))).
  { apply (find_longest_match_longest b s 0 (length b) 0 (length s) Hs
             (le_n _) (length pre) 0 (length s)).
    - unfold common. repeat split; try lia.
      intros t Ht. unfold b. now rewrite nth_middle_block.
    - unfold b. rewrite !length_app. lia. }
  lia.
Qed.

End DifflibFacts.

(* ================================================================== *)
(** * Properties of the auditor: classification, compatibility, order *)
(* ================================================================== *)

Module AuditorFacts.
Import Dict Auditor DictFacts SortFacts.

(** A skill of [n] characters with empty text fields. *)
Definition skill_of_size (n : Z) : skill :=
  {| name := []; description := []; what_i_do := []; when_to_use := [];
     steps := []; full_content := []; char_count := n |}.

(** A skill whose body is [body]. *)
Definition skill_of_body (body : string) : skill :=
  {| name := []; description := []; what_i_do := []; when_to_use := [];
     steps := []; full_content := lit body;
     char_count := Z.of_nat (length (lit body)) |}.

(** ** Cost bands *)

(** The bands with thresholds that are reached at the threshold itself. *)
Definition band_at_or_above (tokens : Z) : status :=
  if tokens <? 2000 then OK
  else if tokens <? 3000 then WARNING
  else CRITICAL.

(** C3, as stated, fails: a document of 7273 characters has an estimate
    of exactly 2000 and is classified [OK], not [WARNING]; an estimate of
    exactly 3000 is classified [WARNING], not [CRITICAL]. *)
Lemma cost_band_threshold_counterexample :
  estimate_tokens (skill_of_size 7273) = 2000
  /\ tr_status (token_entry (lit "a") (skill_of_size 7273)) = OK
  /\ band_at_or_above 2000 = WARNING
  /\ estimate_tokens (skill_of_size 10910) = 3000
  /\ tr_status (token_entry (lit "a") (skill_of_size 10910)) = WARNING
  /\ band_at_or_above 3000 = CRITICAL.
Proof. repeat split; vm_compute; reflexivity. Qed.

(** C3, amended.  The band of every record is decided by strict
    thresholds: [OK] up to and including 2000, [WARNING] above 2000 up to
    and including 3000, [CRITICAL] above 3000. *)
Theorem cost_band_strict_thresholds (skill_name : str) (skill_data : skill) :
  let r := token_entry skill_name skill_data in
  tr_tokens r = estimate_tokens skill_data
  /\ (tr_status r = OK <-> tr_tokens r <= 2000)
  /\ (tr_status r = WARNING <-> 2000 < tr_tokens r <= 3000)
  /\ (tr_status r = CRITICAL <-> 3000 < tr_tokens r).
Proof.
  simpl. unfold token_status.
  destruct (Z.ltb_spec 3000 (estimate_tokens skill_data));
    destruct (Z.ltb_spec 2000 (estimate_tokens skill_data));
    repeat split; intros; try discriminate; try reflexivity; lia.
Qed.

(** ** Capability cues *)

(** [marker] appears in [body] when upper and lower case are not
    distinguished. *)
Definition ci_occurs (marker body : str) : Prop :=
  exists n u, PyStr.occurs_at u body n /\ PyStr.lower u = PyStr.lower marker.

Lemma occurs_at_lower (m body : str) (n : nat) :
  PyStr.occurs_at m (PyStr.lower body) n
  <-> exists u, PyStr.occurs_at u body n /\ PyStr.lower u = m.
Proof.
  unfold PyStr.occurs_at, PyStr.lower. split.
  - intros (pre & post & H & Hl).
    apply map_eq_app in H as (pre' & rest & -> & Hpre & H).
    apply map_eq_app in H as (u & post' & -> & Hu & Hpost).
    exists u. split; [|exact Hu].
    exists pre', post'. split; [reflexivity|].
    rewrite <- Hl, <- Hpre. now rewrite length_map.
  - intros (u & (pre & post & -> & Hl) & <-).
    exists (map PyStr.lower_char pre), (map PyStr.lower_char post).
    rewrite !map_app, length_map. tauto.
Qed.

(** [marker in content.lower()] for a marker written in lower case. *)
Lemma contains_lower_spec (marker body : str) :
  PyStr.lower marker = marker ->
  (PyStr.contains (PyStr.lower body) marker = true <-> ci_occurs marker body).
Proof.
  intros Hm. rewrite PyStrFacts.contains_spec. unfold ci_occurs. rewrite Hm.
  split.
  - intros [n H]. apply occurs_at_lower in H as [u Hu]. now exists n, u.
  - intros (n & u & Hu). exists n. apply occurs_at_lower. now exists u.
Qed.

(** The flags of the integration identifiers and of interactive
    clarification are set exactly when the marker appears, whatever the
    case; the fenced code markers are matched as written. *)
Lemma lowered_cues_exact (content : str) :
  let r := _extract_tool_requirements content in
  (has_atlassian_mcp r = true <-> ci_occurs (lit "atlassian") content)
  /\ (has_drawio_mcp r = true <-> ci_occurs (lit "drawio") content)
  /\ (has_zai_mcp r = true <-> ci_occurs (lit "zai-mcp-server") content)
  /\ (has_question r = true <-> ci_occurs (lit "question") content)
  /\ (has_bash r = true <-> exists n, PyStr.occurs_at (lit "```bash") content n)
  /\ (has_python r = true
      <-> exists n, PyStr.occurs_at (lit "```python") content n).
Proof.
  simpl. repeat split;
    try (apply contains_lower_spec; reflexivity);
    try (apply PyStrFacts.contains_spec);
    try (apply (proj2 (contains_lower_spec _ _ eq_refl)));
    try (apply (proj2 (PyStrFacts.contains_spec _ _))).
Qed.

(** The delegation flag is set exactly when one of the three words
    appears as written, in lower case. *)
Lemma task_cue_exact (content : str) :
  has_task (_extract_tool_requirements content) = true
  <-> exists word n, In word task_words /\ PyStr.occurs_at word content n.
Proof.
  simpl. rewrite !orb_true_iff, !PyStrFacts.contains_spec. split.
  - intros [[n H] | [[n H] | [[n H] | H]]]; try discriminate;
      [exists (lit "task") | exists (lit "delegate") | exists (lit "subagent")];
      exists n; simpl; tauto.
  - intros (word & n & [<- | [<- | [<- | []]]] & H); eauto.
Qed.

(** A body that asks for delegation with a capital letter. *)
Definition delegating_body : str := lit "Delegate this work to a Subagent.".

(** C4 at the failing input: the delegation cue appears in the body when
    case is not distinguished, as the cue of interactive clarification
    would be recognised, yet [has_task] is not set, and the skill is
    reported loadable by a restricted subagent. *)
Theorem delegation_cue_missed :
  ci_occurs (lit "delegate") delegating_body
  /\ ci_occurs (lit "subagent") delegating_body
  /\ has_task (_extract_tool_requirements delegating_body) = false
  /\ has_task (_extract_tool_requirements (PyStr.lower delegating_body)) = true
  /\ has_question (_extract_tool_requirements (lit "Ask a Question")) = true
  /\ _check_compatibility (_extract_tool_requirements delegating_body)
       (restricted [] "Linting specialization") = true.
Proof.
  split; [|split; [|repeat split; vm_compute; reflexivity]].
  - exists 0%nat, (lit "Delegate"). split; [|reflexivity].
    exists [], (lit " this work to a Subagent."). split; reflexivity.
  - exists 24%nat, (lit "Subagent"). split; [|reflexivity].
    exists (lit "Delegate this work to a "), (lit "."). split; reflexivity.
Qed.

(** ** Compatibility with the full-access profile *)

Lemma check_primary (reqs : requirements) :
  _check_compatibility reqs primary = true.
Proof.
  destruct reqs as [b p t a d z q].
  destruct t, a, d, z; reflexivity.
Qed.

Lemma full_access_is_primary (n : str) (r : restrictions) :
  In (n, r) subagents -> agent_description r = lit "Full access" ->
  r = primary.
Proof.
  unfold subagents. simpl.
  intros [H | [H | [H | [H | [H | [H | [H | []]]]]]]] Hd;
    injection H as <- <-; try reflexivity; discriminate Hd.
Qed.

Lemma compatibility_row_primary (reqs : requirements) :
  get (compatibility_row reqs) (lit "primary") = Some true.
Proof.
  unfold compatibility_row, subagents, items. simpl.
  now rewrite check_primary.
Qed.

(** Assigning a value computed from each item, as the loops over
    [skills_data.items()] do. *)
Lemma fold_set_get {V W : Type} (g : str * V -> W) (l : list (str * V))
    (m : dict W) (k : str) :
  In k (map fst l) ->
  exists e, In e l /\ fst e = k
    /\ get (fold_left (fun m e => set m (fst e) (g e)) l m) k = Some (g e).
Proof.
  revert m. induction l as [|e l IH]; simpl; [tauto|].
  intros m Hin.
  destruct (in_dec (list_eq_dec ascii_dec) k (map fst l)) as [Hl|Hn].
  - destruct (IH (set m (fst e) (g e)) Hl) as (e' & He' & Hk & Hg).
    exists e'. tauto.
  - destruct Hin as [Hk | Hl]; [|contradiction].
    exists e. split; [now left|]. split; [exact Hk|].
    subst k. clear IH.
    assert (H : forall m, get m (fst e) = Some (g e) ->
      get (fold_left (fun m e => set m (fst e) (g e)) l m) (fst e)
      = Some (g e)).
    { induction l as [|e' l IH]; intros m' Hm'; simpl; [exact Hm'|].
      simpl in Hn. apply IH; [tauto|].
      rewrite get_set_other by tauto. exact Hm'. }
    apply H. apply get_set_same.
Qed.

Lemma fold_set_keys {V W : Type} (g : str * V -> W) (l : list (str * V)) :
  NoDup (map fst l) ->
  keys (fold_left (fun m e => set m (fst e) (g e)) l []) = map fst l.
Proof.
  intros Hnd.
  assert (H : forall m, (forall k, In k (map fst l) -> ~ In k (keys m)) ->
    keys (fold_left (fun m e => set m (fst e) (g e)) l m)
    = keys m ++ map fst l).
  { induction l as [|e l IH]; intros m Hm; simpl.
    - now rewrite app_nil_r.
    - inversion Hnd as [|? ? Hn Hnd']; subst.
      assert (He : ~ In (fst e) (keys m)) by (apply Hm; now left).
      rewrite IH.
      + rewrite keys_set_notin by exact He. now rewrite <- app_assoc.
      + exact Hnd'.
      + intros k Hk. rewrite keys_set_notin by exact He.
        rewrite in_app_iff. simpl. intros [H | [<- | []]].
        * apply (Hm k); [now right | exact H].
        * contradiction. }
  apply (H []). intros k _ [].
Qed.

(** C8. The full-access profile accepts every set of requirement flags:
    [_check_compatibility] returns [True] for [primary], the only profile
    whose description is 'Full access', and the entry of every skill of
    the corpus under 'primary' in the compatibility matrix is [True]. *)
Theorem unrestricted_profile_compatible (skills_data : skills) :
  (forall reqs, _check_compatibility reqs primary = true)
  /\ (forall reqs n r,
        In (n, r) subagents -> agent_description r = lit "Full access" ->
        _check_compatibility reqs r = true)
  /\ (forall skill_name,
        In skill_name (keys skills_data) ->
        exists row,
          get (check_subagent_compatibility skills_data) skill_name = Some row
          /\ get row (lit "primary") = Some true).
Proof.
  split; [exact check_primary|]. split.
  - intros reqs n r Hin Hd.
    rewrite (full_access_is_primary n r Hin Hd). apply check_primary.
  - intros skill_name Hin. unfold check_subagent_compatibility, items.
    destruct (fold_set_get
      (fun e : str * skill =>
         compatibility_row (_extract_tool_requirements (full_content (snd e))))
      skills_data [] skill_name Hin) as (e & _ & _ & Hg).
    eexists. split; [exact Hg|]. apply compatibility_row_primary.
Qed.

Lemma unrestricted_profile_compatible_witness :
  exists row,
    get (check_subagent_compatibility
           [(lit "planner", skill_of_body "Delegate to a subagent via atlassian")])
        (lit "planner") = Some row
    /\ get row (lit "primary") = Some true.
Proof.
  apply (proj2 (proj2 (unrestricted_profile_compatible
    [(lit "planner", skill_of_body "Delegate to a subagent via atlassian")]))).
  simpl. left. reflexivity.
Defined.

(** ** The duplicity matrix *)

Section Matrix.

Variable impl : PyFloat.sum_impl.
Variable skills_data : skills.

(** The entry the inner loop stores for the pair [(skill1, skill2)]. *)
Definition entry (skill1 skill2 : str) : Z :=
  if PyStr.eqb skill1 skill2 then 100
  else match get skills_data skill1, get skills_data skill2 with
       | Some d1, Some d2 => _calculate_similarity impl d1 d2 weights
       | _, _ => 0
       end.

(** No lookup fails when the names are names of loaded skills. *)
Lemma matrix_row_total (skill_names : list str) (skill1 : str) :
  (forall n, In n skill_names -> In n (keys skills_data)) ->
  In skill1 (keys skills_data) ->
  matrix_row impl skills_data skill_names skill1
  = Some (assign_all (entry skill1) skill_names []).
Proof.
  intros Hsub H1. unfold matrix_row, assign_all.
  generalize (@nil (str * Z)) as row.
  induction skill_names as [|skill2 l IH]; intros row; simpl; [reflexivity|].
  rewrite <- IH by (intros n Hn; apply Hsub; now right).
  f_equal. unfold entry.
  destruct (PyStr.eqb skill1 skill2); [reflexivity|].
  destruct (In_get_Some _ _ H1) as [d1 ->].
  destruct (In_get_Some skills_data skill2 (Hsub skill2 (or_introl eq_refl)))
    as [d2 ->].
  reflexivity.
Qed.

Lemma matrix_total_gen (skill_names outer : list str) (m : dict (dict Z)) :
  (forall n, In n skill_names -> In n (keys skills_data)) ->
  (forall n, In n outer -> In n (keys skills_data)) ->
  fold_left
    (fun (matrix : option (dict (dict Z))) (skill1 : str) =>
       match matrix, matrix_row impl skills_data skill_names skill1 with
       | Some matrix, Some row => Some (set matrix skill1 row)
       | _, _ => None
       end) outer (Some m)
  = Some (assign_all (fun skill1 => assign_all (entry skill1) skill_names [])
                     outer m).
Proof.
  intros Hsub. revert m. unfold assign_all at 1.
  induction outer as [|skill1 l IH]; intros m Hout; simpl; [reflexivity|].
  rewrite matrix_row_total by (try exact Hsub; apply Hout; now left).
  apply IH. intros n Hn. apply Hout. now right.
Qed.

Lemma sorted_names_loaded (n : str) :
  In n (PySort.sorted_str (keys skills_data)) -> In n (keys skills_data).
Proof. apply Permutation_in, sorted_str_perm. Qed.

(** [calculate_duplicity_matrix] raises no [KeyError]. *)
Lemma duplicity_matrix_total :
  calculate_duplicity_matrix impl skills_data
  = Some (assign_all
            (fun skill1 =>
               assign_all (entry skill1)
                          (PySort.sorted_str (keys skills_data)) [])
            (PySort.sorted_str (keys skills_data)) []).
Proof.
  unfold calculate_duplicity_matrix.
  apply matrix_total_gen; exact sorted_names_loaded.
Qed.

End Matrix.

(** C2. For every document of the corpus the matrix holds an entry for
    the pair of the document with itself, and the entry is exactly 100:
    it is stored by the branch [skill1 == skill2], whatever
    [_calculate_similarity] would return for the pair. *)
Theorem diagonal_is_100 (impl : PyFloat.sum_impl) (skills_data : skills)
    (D : str) :
  In D (keys skills_data) ->
  exists matrix row,
    calculate_duplicity_matrix impl skills_data = Some matrix
    /\ get matrix D = Some row
    /\ get row D = Some 100.
Proof.
  intros HD. rewrite duplicity_matrix_total.
  assert (Hs : In D (PySort.sorted_str (keys skills_data))).
  { apply (Permutation_in D (Permutation_sym (sorted_str_perm _)) HD). }
  eexists. eexists. split; [reflexivity|]. split.
  - apply assign_all_get. exact Hs.
  - rewrite assign_all_get by exact Hs.
    unfold entry. now rewrite eqb_refl.
Qed.

(** A skill with a one-letter name and nothing else. *)
Definition skill_x : skill :=
  {| name := lit "x"; description := []; what_i_do := []; when_to_use := [];
     steps := []; full_content := []; char_count := 1 |}.

(** The formula applied to a document and itself does not give 100 on
    every interpreter: with plain float summation the weights add up to
    [1 - 2^-53] and the score is 99. *)
Lemma self_similarity_plain_sum :
  _calculate_similarity PyFloat.SumPlain skill_x skill_x weights = 99
  /\ _calculate_similarity PyFloat.SumCompensated skill_x skill_x weights
     = 100.
Proof. split; vm_compute; reflexivity. Qed.

Lemma diagonal_is_100_witness :
  exists matrix row,
    calculate_duplicity_matrix PyFloat.SumPlain [(lit "x", skill_x)]
    = Some matrix
    /\ get matrix (lit "x") = Some row
    /\ get row (lit "x") = Some 100.
Proof.
  apply (diagonal_is_100 PyFloat.SumPlain [(lit "x", skill_x)] (lit "x")).
  simpl. left. reflexivity.
Defined.

(** ** Order of the outputs *)

(** The records in the order of non-increasing estimates. *)
Definition ordered_by_tokens (l : list token_record) : Prop :=
  StronglySorted (fun x y => tr_tokens y <= tr_tokens x) l.

Lemma analyze_token_costs_ordered (skills_data : skills) :
  ordered_by_tokens (analyze_token_costs skills_data).
Proof.
  unfold ordered_by_tokens, analyze_token_costs.
  apply (StronglySorted_weaken (fun x y => tokens_geb x y = true)).
  { intros x y H. unfold tokens_geb in H. now apply Z.leb_le. }
  apply (sort_sorted tokens_geb).
  - unfold tokens_geb. intros x y H.
    apply Z.leb_gt in H. apply Z.leb_le. lia.
  - unfold tokens_geb. intros x y z H1 H2.
    apply Z.leb_le in H1, H2. apply Z.leb_le. lia.
Qed.

(** Three skills loaded in the order b, a, c. *)
Definition three_skills : skills :=
  load_all_skills
    [(lit "b", skill_of_size 100); (lit "a", skill_of_size 1000);
     (lit "c", skill_of_size 10)].

Lemma not_ordered_b_a (l : list str) :
  ~ ordered_by_name (lit "b" :: lit "a" :: l).
Proof.
  intros H. inversion H as [|? ? _ Hf]; subst.
  inversion Hf as [|? ? Hba _]; subst. discriminate Hba.
Qed.

(** C5, as stated, fails: the cost records come out by estimate, largest
    first, and the rows of the compatibility matrix in the order of
    loading; neither is the order of the names. *)
Lemma outputs_ordered_counterexample :
  map tr_name (analyze_token_costs three_skills)
  = [lit "a"; lit "b"; lit "c"]
  /\ map tr_tokens (analyze_token_costs three_skills) = [275; 27; 2]
  /\ keys (check_subagent_compatibility three_skills)
     = [lit "b"; lit "a"; lit "c"]
  /\ ~ ordered_by_name (keys (check_subagent_compatibility three_skills))
  /\ ~ ordered_by_name
        (map tr_name (analyze_token_costs
           (load_all_skills [(lit "b", skill_of_size 1000);
                             (lit "a", skill_of_size 10)]))).
Proof.
  split; [vm_compute; reflexivity|]. split; [vm_compute; reflexivity|].
  split; [vm_compute; reflexivity|]. split.
  - change (keys (check_subagent_compatibility three_skills))
      with [lit "b"; lit "a"; lit "c"]. apply not_ordered_b_a.
  - replace (map tr_name _) with [lit "b"; lit "a"] by (vm_compute; reflexivity).
    apply not_ordered_b_a.
Qed.

(** C5, amended.  For the skills loaded from any list of files: the rows
    of the duplicity matrix, and the entries of every row, are ordered by
    name; the cost records are ordered by estimate, largest first, and are
    the records of the skills rearranged; the rows of the compatibility
    matrix are in the order of loading. *)
Theorem outputs_order (impl : PyFloat.sum_impl) (found : list (str * skill)) :
  let skills_data := load_all_skills found in
  (exists matrix,
     calculate_duplicity_matrix impl skills_data = Some matrix
     /\ keys matrix = PySort.sorted_str (keys skills_data)
     /\ ordered_by_name (keys matrix)
     /\ forall n row, get matrix n = Some row -> keys row = keys matrix)
  /\ ordered_by_tokens (analyze_token_costs skills_data)
  /\ Permutation (analyze_token_costs skills_data)
       (map (fun e => token_entry (fst e) (snd e)) (items skills_data))
  /\ keys (check_subagent_compatibility skills_data) = keys skills_data.
Proof.
  intros skills_data.
  assert (Hnd : NoDup (keys skills_data)) by apply of_entries_NoDup.
  set (names := PySort.sorted_str (keys skills_data)).
  assert (Hnames : NoDup names).
  { apply (Permutation_NoDup (Permutation_sym (sorted_str_perm _)) Hnd). }
  split; [|split; [|split]].
  - rewrite duplicity_matrix_total. fold names.
    assert (Hk : forall (W : Type) (f : str -> W),
               keys (assign_all f names []) = names).
    { intros W f. rewrite assign_all_keys; [reflexivity | exact Hnames |].
      intros k _ []. }
    eexists. split; [reflexivity|]. rewrite Hk.
    split; [reflexivity|]. split; [apply sorted_str_ordered|].
    intros n row Hrow.
    assert (Hn : In n names).
    { rewrite <- (Hk _ (fun skill1 => assign_all
        (entry impl skills_data skill1) names [])).
      apply (get_Some_In _ _ _ Hrow). }
    rewrite assign_all_get in Hrow by exact Hn.
    injection Hrow as <-. apply Hk.
  - apply analyze_token_costs_ordered.
  - apply sort_perm.
  - apply fold_set_keys. exact Hnd.
Qed.

End AuditorFacts.

(* ================================================================== *)
(** * Properties of the cost estimate *)
(* ================================================================== *)

Module CostFacts.
Import PyFloat PyFloatFacts Auditor AuditorFacts.

Local Open Scope Q_scope.

(** ** [int(x)] *)

Lemma to_int_floor (x : Q) : 0 <= x -> to_int x = Qfloor x.
Proof.
  destruct x as [n d]. unfold Qle, to_int, Qfloor. simpl. intros H.
  apply Z.quot_div_nonneg; lia.
Qed.

Lemma to_int_opp (x : Q) : to_int (- x) = (- to_int x)%Z.
Proof.
  destruct x as [n d]. unfold to_int. simpl.
  apply Z.quot_opp_l. discriminate.
Qed.

Lemma to_int_nonneg (x : Q) : 0 <= x -> (0 <= to_int x)%Z.
Proof.
  intros H. rewrite to_int_floor by exact H.
  apply (Qfloor_resp_le 0 x H).
Qed.

(** Truncation is monotone. *)
Lemma to_int_mono (x y : Q) : x <= y -> (to_int x <= to_int y)%Z.
Proof.
  intros Hxy. destruct (Qlt_le_dec x 0) as [Hx|Hx].
  - assert (Hnx : (to_int x <= 0)%Z).
    { pose proof (to_int_nonneg (- x) ltac:(lra)) as H.
      rewrite to_int_opp in H. lia. }
    destruct (Qlt_le_dec y 0) as [Hy|Hy].
    + pose proof (Qfloor_resp_le (- y) (- x) ltac:(lra)) as H.
      rewrite <- !to_int_floor in H by lra.
      rewrite !to_int_opp in H. lia.
    + pose proof (to_int_nonneg y Hy). lia.
  - rewrite !to_int_floor by lra. now apply Qfloor_resp_le.
Qed.

Lemma Qfloor_unique (x : Q) (k : Z) :
  inject_Z k <= x -> x < inject_Z k + 1 -> Qfloor x = k.
Proof.
  intros H1 H2.
  pose proof (Qfloor_resp_le _ _ H1) as Hlo. rewrite Qfloor_Z in Hlo.
  assert (Hhi : (Qfloor x < k + 1)%Z).
  { rewrite Zlt_Qlt, inject_Z_plus. pose proof (Qfloor_le x).
    change (inject_Z 1) with 1. lra. }
  lia.
Qed.

(** ** The constant 1.1 *)

Lemma literal_1_1 : literal (11 # 10) = 2476979795053773 # 2251799813685248.
Proof. vm_compute. reflexivity. Qed.

(** ** Monotonicity *)

(** C9. The estimate does not decrease when the size grows. *)
Theorem estimate_tokens_monotone (d1 d2 : skill) :
  (char_count d1 <= char_count d2)%Z ->
  (estimate_tokens d1 <= estimate_tokens d2)%Z.
Proof.
  intros H. unfold estimate_tokens, fmul, int_truediv.
  rewrite literal_1_1.
  apply to_int_mono, rnd_mono.
  assert (Hq : rnd (inject_Z (char_count d1) / inject_Z 4)
               <= rnd (inject_Z (char_count d2) / inject_Z 4)).
  { apply rnd_mono. rewrite Zle_Qle in H.
    apply Qmult_le_compat_r; [exact H | discriminate]. }
  apply Qmult_le_compat_r; [exact Hq | discriminate].
Qed.

Lemma estimate_tokens_monotone_witness :
  (estimate_tokens (skill_of_size 7999) <= estimate_tokens (skill_of_size 8000))%Z.
Proof.
  apply (estimate_tokens_monotone (skill_of_size 7999) (skill_of_size 8000)).
  simpl. lia.
Defined.

(** ** Agreement with the exact formula *)

(** C6, as stated, fails: for a size of 511772684928469 characters the
    exact value [floor(size * 11 / 40)] is [2^47], the float computation
    gives [2^47 + 1]. *)
Lemma estimate_tokens_exact_counterexample :
  estimate_tokens (skill_of_size 511772684928469) = 140737488355329%Z
  /\ (511772684928469 * 11 / 40 = 140737488355328)%Z
  /\ estimate_tokens (skill_of_size (2 ^ 52 + 13))
     <> ((2 ^ 52 + 13) * 11 / 40)%Z.
Proof. repeat split; vm_compute; congruence. Qed.

Lemma int_truediv_4_exact (n : Z) :
  (0 <= n < 2 ^ 53)%Z -> int_truediv n 4 == inject_Z n * (1 # 4).
Proof.
  intros Hn. unfold int_truediv.
  assert (E : inject_Z n / inject_Z 4 == inject_Z n * (1 # 4)) by reflexivity.
  rewrite (rnd_comp _ _ E). apply rnd_representable.
  exists n, (-2)%Z. split; [reflexivity | lia].
Qed.

Lemma rnd_integer (k : Z) : (0 <= k < 2 ^ 53)%Z -> rnd (inject_Z k) == inject_Z k.
Proof.
  intros Hk. apply rnd_representable. exists k, 0%Z.
  split; [|lia]. change (2 ^ 0) with 1. ring.
Qed.

(** C6, amended.  Up to [2^48] characters the float computation agrees
    with the exact formula; 8000 characters give 2200 and the empty
    document gives 0. *)
Theorem estimate_tokens_exact (skill_data : skill) :
  (0 <= char_count skill_data <= 2 ^ 48)%Z ->
  estimate_tokens skill_data = (char_count skill_data * 11 / 40)%Z.
Proof.
  intros Hn. set (n := char_count skill_data) in *.
  set (k := (n * 11 / 40)%Z).
  assert (Hk1 : (40 * k <= n * 11)%Z).
  { unfold k. apply Z.mul_div_le. lia. }
  assert (Hk2 : (n * 11 < 40 * k + 40)%Z).
  { unfold k. pose proof (Z.mul_succ_div_gt (n * 11) 40 ltac:(lia)). lia. }
  assert (Hk0 : (0 <= k)%Z) by (unfold k; apply Z.div_pos; lia).
  assert (Hkb : (k + 1 <= 2 ^ 47)%Z) by lia.
  unfold estimate_tokens, fmul. fold n. rewrite literal_1_1.
  set (c := 2476979795053773 # 2251799813685248).
  assert (Hx : int_truediv n 4 == inject_Z n * (1 # 4)).
  { apply int_truediv_4_exact. lia. }
  set (p := inject_Z n * (1 # 4) * c).
  assert (Hp : rnd (int_truediv n 4 * c) == rnd p).
  { apply rnd_comp. unfold p. now rewrite Hx. }
  assert (HN0 : 0 <= inject_Z n) by (rewrite <- (Zle_Qle 0); lia).
  assert (HNb : inject_Z n <= 281474976710656).
  { change 281474976710656 with (inject_Z (2 ^ 48)). rewrite <- Zle_Qle. lia. }
  assert (HK1 : 40 * inject_Z k <= inject_Z n * 11).
  { change 40 with (inject_Z 40). change 11 with (inject_Z 11).
    rewrite <- !inject_Z_mult, <- Zle_Qle. exact Hk1. }
  assert (HK2 : inject_Z n * 11 <= 40 * inject_Z k + 39).
  { change 40 with (inject_Z 40). change 11 with (inject_Z 11).
    change 39 with (inject_Z 39).
    rewrite <- !inject_Z_mult, <- inject_Z_plus, <- Zle_Qle. lia. }
  assert (Hlo : inject_Z k <= rnd p).
  { rewrite <- (rnd_integer k) by lia. apply rnd_mono.
    unfold p, c. lra. }
  set (r := inject_Z (64 * (k + 1) - 1) * 2 ^ (-6)).
  assert (Hr : r == inject_Z k + (63 # 64)).
  { unfold r. unfold Z.sub. rewrite inject_Z_plus, inject_Z_mult, inject_Z_plus.
    change (2 ^ (-6)) with (1 # 64). simpl inject_Z at 2 3 4.
    change (inject_Z 64) with 64. field. }
  assert (Hhi : rnd p <= r).
  { assert (Hrr : rnd r == r).
    { apply rnd_representable. exists (64 * (k + 1) - 1)%Z, (-6)%Z.
      split; [reflexivity | lia]. }
    rewrite <- Hrr. apply rnd_mono. rewrite Hr. unfold p, c. lra. }
  assert (H0 : 0 <= rnd (int_truediv n 4 * c)).
  { rewrite Hp. apply Qle_trans with (2 := Hlo).
    rewrite <- (Zle_Qle 0). exact Hk0. }
  rewrite to_int_floor by exact H0.
  apply Qfloor_unique; rewrite Hp; [exact Hlo | lra].
Qed.

Lemma estimate_tokens_exact_witness :
  estimate_tokens (skill_of_size 8000) = 2200%Z
  /\ estimate_tokens (skill_of_size 0) = 0%Z.
Proof.
  split.
  - apply (estimate_tokens_exact (skill_of_size 8000)). simpl. lia.
  - apply (estimate_tokens_exact (skill_of_size 0)). simpl. lia.
Defined.

End CostFacts.

(* ================================================================== *)
(** * Properties of the similarity score *)
(* ================================================================== *)

Module SimilarityFacts.
Import PyFloat PyFloatFacts Dict Auditor.

Local Open Scope Q_scope.

(** ** The matching ratio lies between 0 and 1 *)

Lemma rnd_1 : rnd 1 = 1.
Proof. vm_compute. reflexivity. Qed.

Lemma inject_nat_nonneg (n : nat) : 0 <= inject_Z (Z.of_nat n).
Proof. rewrite <- (Zle_Qle 0). lia. Qed.

Lemma calculate_ratio_bounds (matches length : nat) :
  (2 * matches <= length)%nat ->
  0 <= Difflib._calculate_ratio matches length
  /\ Difflib._calculate_ratio matches length <= 1.
Proof.
  intros H. unfold Difflib._calculate_ratio.
  destruct (Nat.eqb_spec length 0) as [E|NE]; [lra|].
  unfold fdiv, fmul, of_int.
  set (M := inject_Z (Z.of_nat matches)).
  set (T := inject_Z (Z.of_nat length)).
  assert (HM : 0 <= M) by apply inject_nat_nonneg.
  assert (HT : 1 <= T).
  { unfold T. rewrite <- (Zle_Qle 1). lia. }
  assert (HMT : 2 * M <= T).
  { unfold M, T. change 2 with (inject_Z 2).
    rewrite <- inject_Z_mult, <- Zle_Qle. lia. }
  assert (HrT : 1 <= rnd T).
  { apply Qle_trans with (rnd 1); [rewrite rnd_1; lra | now apply rnd_mono]. }
  assert (Hhalf : rnd T == 2 * rnd (T * (1 # 2))).
  { rewrite <- rnd_double.
    - apply rnd_comp. ring.
    - apply Qle_trans with (1 # 2); [|lra].
      apply Qle_trans with (2 ^ (-1));
        [apply pow2_le; lia | vm_compute; discriminate]. }
  assert (HrM : 2 * rnd M <= rnd T).
  { rewrite Hhalf.
    assert (rnd M <= rnd (T * (1 # 2))) by (apply rnd_mono; lra). lra. }
  assert (Hnum : 0 <= rnd (2 * rnd M) /\ rnd (2 * rnd M) <= rnd T).
  { pose proof (rnd_nonneg M HM). split.
    - apply rnd_nonneg. lra.
    - rewrite <- (rnd_idem T) by lra. now apply rnd_mono. }
  destruct Hnum as [Hn0 Hn1]. split.
  - apply rnd_nonneg. apply Qle_shift_div_l; lra.
  - apply Qle_trans with (rnd 1); [|rewrite rnd_1; lra].
    apply rnd_mono. apply Qle_shift_div_r; lra.
Qed.

(** Every ratio the matcher returns is a float between 0 and 1. *)
Lemma ratio_bounds (a b : str) :
  0 <= Difflib.ratio a b /\ Difflib.ratio a b <= 1.
Proof.
  unfold Difflib.ratio. apply calculate_ratio_bounds.
  destruct (DifflibFacts.matches_le a b). lia.
Qed.

(** Two empty texts: ratio 1.0. *)
Lemma ratio_empty : Difflib.ratio [] [] = 1.
Proof. reflexivity. Qed.

(** ** The scores of the fields *)

(** The ratio of one field of two skills, as the loop computes it. *)
Definition field_ratio (skill1 skill2 : skill) (key : str) : Q :=
  Difflib.ratio (PyStr.lower (skill_get skill1 key))
                (PyStr.lower (skill_get skill2 key)).

Definition scores_of (r : str -> Q) (ws : dict Q) : dict Q :=
  fold_left
    (fun scores (kw : str * Q) =>
       let '(key, weight) := kw in set scores key (fmul (r key) weight))
    (items ws) [].

Lemma field_scores_eq (skill1 skill2 : skill) (ws : dict Q) :
  field_scores skill1 skill2 ws = scores_of (field_ratio skill1 skill2) ws.
Proof. reflexivity. Qed.

(** The five keys of [weights] are distinct: [scores] holds one score
    per weight, in the order of the weights. *)
Lemma scores_of_weights (r : str -> Q) :
  values (scores_of r weights)
  = map (fun kw : str * Q => fmul (r (fst kw)) (snd kw)) weights.
Proof. reflexivity. Qed.

Lemma score_bounds (r w : Q) :
  0 <= r -> r <= 1 -> 0 <= w -> rnd w == w ->
  0 <= fmul r w /\ fmul r w <= w.
Proof.
  intros H0 H1 Hw Hr. unfold fmul. split.
  - apply rnd_nonneg. nra.
  - apply Qle_trans with (rnd w); [apply rnd_mono; nra | lra].
Qed.

(** A list of scores, each between 0 and its weight. *)
Definition bounded_by (xs ws : list Q) : Prop :=
  Forall2 (fun x w => 0 <= x /\ x <= w) xs ws.

Lemma scores_bounded (r : str -> Q) :
  (forall key, 0 <= r key /\ r key <= 1) ->
  bounded_by (values (scores_of r weights)) (values weights).
Proof.
  intros Hr. rewrite scores_of_weights. unfold weights, values. simpl map.
  repeat (apply Forall2_cons;
          [apply score_bounds;
           [apply Hr | apply Hr | vm_compute; discriminate
           | vm_compute; reflexivity] |]).
  apply Forall2_nil.
Qed.

(** ** Plain summation *)

Lemma fold_fadd_bounds (xs ws : list Q) (f F : Q) :
  bounded_by xs ws -> 0 <= f -> f <= F ->
  0 <= fold_left fadd xs f /\ fold_left fadd xs f <= fold_left fadd ws F.
Proof.
  intros H. revert f F. induction H as [|x w xs ws [Hx Hw] _ IH];
    intros f F Hf HF; simpl; [tauto|].
  apply IH; unfold fadd.
  - apply rnd_nonneg. lra.
  - apply rnd_mono. lra.
Qed.

Lemma sum_plain_bounds (xs ws : list Q) :
  bounded_by xs ws ->
  0 <= sum_plain xs /\ sum_plain xs <= sum_plain ws.
Proof. intros H. apply (fold_fadd_bounds xs ws 0 0 H); lra. Qed.

(** ** Compensated summation *)

(** [2^-52]: twice the largest rounding error of an addition below 2. *)
Definition eps2 : Q := 1 # 4503599627370496.

Lemma rnd_eps2 : rnd eps2 = eps2.
Proof. vm_compute. reflexivity. Qed.

(** One step keeps the running total below the rounded sum of the
    bounds and the compensation within one more [2^-52]. *)
Lemma neumaier_step_bounds (f c x F C X : Q) :
  0 <= f -> f <= F -> F <= 1 -> 0 <= x -> x <= X -> X <= 1 # 2 ->
  - C <= c -> c <= C ->
  let '(t, c') := neumaier_step (f, c) x in
  (0 <= t /\ t <= rnd (F + X))
  /\ (- rnd (C + eps2) <= c' /\ c' <= rnd (C + eps2)).
Proof.
  intros Hf0 HfF HF Hx0 HxX HX Hc1 Hc2. unfold neumaier_step.
  set (t := fadd f x).
  assert (Ht : 0 <= t /\ t <= rnd (F + X)).
  { unfold t, fadd. split; [apply rnd_nonneg | apply rnd_mono]; lra. }
  destruct (rnd_error_small (f + x)) as [D1 D2]; [lra | lra |].
  fold (fadd f x) in D1, D2. fold t in D1, D2.
  split; [exact Ht|].
  assert (He : forall e, - eps2 <= e -> e <= eps2 ->
             - rnd (C + eps2) <= fadd c e /\ fadd c e <= rnd (C + eps2)).
  { intros e E1 E2. unfold fadd. apply rnd_between; lra. }
  assert (Hround : forall v, - eps2 <= v -> v <= eps2 ->
             - eps2 <= rnd v /\ rnd v <= eps2).
  { intros v V1 V2. pose proof (rnd_between v eps2 V1 V2) as Hv.
    rewrite rnd_eps2 in Hv. exact Hv. }
  unfold eps2 in *.
  destruct (Qle_bool (Qabs x) (Qabs f)).
  - destruct (rnd_error_small (f - t)) as [U1 U2]; [lra | lra |].
    apply He; apply Hround; unfold fsub; lra.
  - destruct (rnd_error_small (x - t)) as [U1 U2]; [lra | lra |].
    apply He; apply Hround; unfold fsub; lra.
Qed.

(** Bounds of the total and of the compensation after the items bounded
    by [ws]. *)
Fixpoint neumaier_bounds (ws : list Q) (F C : Q) : Q * Q :=
  match ws with
  | [] => (F, C)
  | w :: ws' => neumaier_bounds ws' (rnd (F + w)) (rnd (C + eps2))
  end.

(** The bounds stay in the range where the step lemma applies. *)
Fixpoint in_range (ws : list Q) (F : Q) : bool :=
  match ws with
  | [] => true
  | w :: ws' =>
      Qle_bool F 1 && Qle_bool w (1 # 2) && in_range ws' (rnd (F + w))
  end.

Lemma neumaier_fold_bounds (xs ws : list Q) (f c F C : Q) :
  bounded_by xs ws -> in_range ws F = true ->
  0 <= f -> f <= F -> - C <= c -> c <= C ->
  let '(f', c') := fold_left neumaier_step xs (f, c) in
  (0 <= f' /\ f' <= fst (neumaier_bounds ws F C))
  /\ (- snd (neumaier_bounds ws F C) <= c'
      /\ c' <= snd (neumaier_bounds ws F C)).
Proof.
  intros H. revert f c F C.
  induction H as [|x w xs ws [Hx Hw] _ IH]; intros f c F C Hr Hf0 HfF Hc1 Hc2.
  - simpl. tauto.
  - simpl in Hr. apply andb_true_iff in Hr as [Hr Hr3].
    apply andb_true_iff in Hr as [Hr1 Hr2].
    apply Qle_bool_iff in Hr1, Hr2.
    pose proof (neumaier_step_bounds f c x F C w Hf0 HfF Hr1 Hx Hw Hr2 Hc1 Hc2)
      as Hs.
    cbn [fold_left neumaier_bounds].
    destruct (neumaier_step (f, c) x) as [t c'].
    destruct Hs as [[T1 T2] [C1 C2]].
    apply IH; assumption.
Qed.

(** Bounds of [sum] on the scores, on either interpreter. *)
Lemma sum_compensated_bounds (xs : list Q) :
  bounded_by xs (values weights) ->
  - (1 # 1000) <= sum_compensated xs /\ sum_compensated xs <= 1 + (1 # 1000).
Proof.
  intros H. unfold sum_compensated.
  assert (Hws : match values weights with
                | [] => False
                | w :: ws' =>
                    in_range ws' (rnd (0 + w)) = true
                    /\ fst (neumaier_bounds ws' (rnd (0 + w)) 0)
                       <= 9007199254740991 # 9007199254740992
                    /\ snd (neumaier_bounds ws' (rnd (0 + w)) 0)
                       <= 1 # 1125899906842624
                end).
  { vm_compute. split; [reflexivity | split; discriminate]. }
  revert H Hws. generalize (values weights). intros ws H Hws.
  destruct H as [|x w xs' ws' [Hx Hw] H']; [contradiction|].
  destruct Hws as (Hr & HF & HC).
  assert (Hf : 0 <= fadd 0 x /\ fadd 0 x <= rnd (0 + w)).
  { unfold fadd. split; [apply rnd_nonneg | apply rnd_mono]; lra. }
  pose proof (neumaier_fold_bounds xs' ws' (fadd 0 x) 0 (rnd (0 + w)) 0 H' Hr)
    as Hb.
  destruct (fold_left neumaier_step xs' (fadd 0 x, 0)) as [f c].
  destruct Hb as [[F1 F2] [C1 C2]]; try tauto; try lra.
  destruct (Qeq_bool c 0); [lra|].
  unfold fadd.
  destruct (rnd_error_small (f + c)) as [D1 D2]; lra.
Qed.

Lemma py_sum_bounds (impl : sum_impl) (xs : list Q) :
  bounded_by xs (values weights) ->
  - (1 # 1000) <= py_sum impl xs /\ py_sum impl xs <= 1 + (1 # 1000).
Proof.
  intros H. destruct impl; simpl.
  - destruct (sum_plain_bounds xs (values weights) H) as [H0 H1].
    assert (Hw : sum_plain (values weights)
                 <= 9007199254740991 # 9007199254740992).
    { vm_compute. discriminate. }
    lra.
  - now apply sum_compensated_bounds.
Qed.

(** ** The score *)

(** C7. The similarity score of any two parsed documents is an integer
    between 0 and 100, with either summation of the interpreter; two
    empty field values have ratio 1.0. *)
Theorem similarity_in_range (impl : sum_impl) (skill1 skill2 : skill) :
  (0 <= _calculate_similarity impl skill1 skill2 weights <= 100)%Z
  /\ Difflib.ratio (PyStr.lower []) (PyStr.lower []) = 1.
Proof.
  split; [|reflexivity].
  unfold _calculate_similarity. rewrite field_scores_eq.
  assert (Hb : bounded_by
                 (values (scores_of (field_ratio skill1 skill2) weights))
                 (values weights)).
  { apply scores_bounded. intros key. apply ratio_bounds. }
  destruct (py_sum_bounds impl _ Hb) as [S0 S1].
  set (s := py_sum impl _) in *.
  assert (H100 : of_int 100 = 100) by (vm_compute; reflexivity).
  rewrite H100. unfold fmul.
  assert (Hlo : rnd (- (1 # 10)) <= rnd (s * 100))
    by (apply rnd_mono; lra).
  assert (Hhi : rnd (s * 100) <= rnd (100 + (1 # 10)))
    by (apply rnd_mono; lra).
  apply CostFacts.to_int_mono in Hlo, Hhi.
  assert (E0 : to_int (rnd (- (1 # 10))) = 0%Z) by (vm_compute; reflexivity).
  assert (E1 : to_int (rnd (100 + (1 # 10))) = 100%Z)
    by (vm_compute; reflexivity).
  lia.
Qed.

(** ** Order of the two documents *)

(** A skill with the given name and description, nothing else. *)
Definition skill_with (n d : string) : skill :=
  {| name := lit n; description := lit d; what_i_do := [];
     when_to_use := []; steps := []; full_content := []; char_count := 0 |}.

(** C1, as stated, fails: the matcher pairs one character of "tide" with
    "diet" and two characters of "diet" with "tide", so the ratios are
    0.25 and 0.5 and the scores 88 and 92, on either interpreter. *)
Lemma similarity_symmetry_counterexample :
  Difflib.matches (lit "tide") (lit "diet") = 1%nat
  /\ Difflib.matches (lit "diet") (lit "tide") = 2%nat
  /\ _calculate_similarity SumPlain
       (skill_with "tide" "") (skill_with "diet" "") weights = 88%Z
  /\ _calculate_similarity SumPlain
       (skill_with "diet" "") (skill_with "tide" "") weights = 92%Z
  /\ _calculate_similarity SumCompensated
       (skill_with "tide" "") (skill_with "diet" "") weights = 88%Z
  /\ _calculate_similarity SumCompensated
       (skill_with "diet" "") (skill_with "tide" "") weights = 92%Z.
Proof. repeat split; vm_compute; reflexivity. Qed.

(** The matcher finds as many matching characters in one order of the
    two documents as in the other, in every weighted field. *)
Definition matches_agree (skill1 skill2 : skill) : Prop :=
  forall key, In key (keys weights) ->
    Difflib.matches (PyStr.lower (skill_get skill1 key))
                    (PyStr.lower (skill_get skill2 key))
    = Difflib.matches (PyStr.lower (skill_get skill2 key))
                      (PyStr.lower (skill_get skill1 key)).

Lemma field_ratio_sym (skill1 skill2 : skill) (key : str) :
  Difflib.matches (PyStr.lower (skill_get skill1 key))
                  (PyStr.lower (skill_get skill2 key))
  = Difflib.matches (PyStr.lower (skill_get skill2 key))
                    (PyStr.lower (skill_get skill1 key)) ->
  field_ratio skill1 skill2 key = field_ratio skill2 skill1 key.
Proof.
  intros H. unfold field_ratio, Difflib.ratio. rewrite H.
  now rewrite Nat.add_comm.
Qed.

(** The number of matching characters is the only quantity of the score
    that depends on the order of the two documents. *)
Lemma similarity_of_matches (impl : sum_impl) (skill1 skill2 : skill) :
  matches_agree skill1 skill2 ->
  _calculate_similarity impl skill1 skill2 weights
  = _calculate_similarity impl skill2 skill1 weights.
Proof.
  intros H. unfold _calculate_similarity.
  rewrite !field_scores_eq, !scores_of_weights.
  rewrite (map_ext_in
             (fun kw : str * Q => fmul (field_ratio skill1 skill2 (fst kw)) (snd kw))
             (fun kw : str * Q => fmul (field_ratio skill2 skill1 (fst kw)) (snd kw)));
    [reflexivity|].
  intros [key w] Hin. cbn [fst snd].
  rewrite (field_ratio_sym skill1 skill2 key); [reflexivity|].
  apply H. apply (in_map fst) in Hin. exact Hin.
Qed.

(** [no_common_char a b]: no character of [a] occurs in [b]; an empty
    text has no character in common with any text. *)
Definition no_common_char (a b : str) : bool :=
  forallb (fun c => negb (existsb (Ascii.eqb c) b)) a.

(** [nested a b]: one of the two texts occurs inside the other, and both
    are shorter than the 200 characters from which the matcher leaves
    frequent characters out of its index. *)
Definition nested (a b : str) : bool :=
  (length a <? 200)%nat && (length b <? 200)%nat
  && (PyStr.contains a b || PyStr.contains b a).

(** Two field values that are the same text, or have no character in
    common, or are two short texts one inside the other. *)
Definition matched_alike (a b : str) : bool :=
  PyStr.eqb a b || no_common_char a b || nested a b.

Lemma no_common_char_spec (a b : str) :
  no_common_char a b = true <-> forall c, In c a -> ~ In c b.
Proof.
  unfold no_common_char. rewrite forallb_forall. split.
  - intros H c Ha Hb. specialize (H c Ha). apply negb_true_iff in H.
    assert (Hex : existsb (Ascii.eqb c) b = true).
    { apply existsb_exists. exists c. split; [exact Hb | apply Ascii.eqb_refl]. }
    congruence.
  - intros H c Ha. apply negb_true_iff.
    destruct (existsb (Ascii.eqb c) b) eqn:E; [|reflexivity].
    apply existsb_exists in E. destruct E as (d & Hd & E).
    apply Ascii.eqb_eq in E. subst d. now destruct (H c Ha).
Qed.

(** Two texts without a common character: nothing is matched, in either
    order. *)
Lemma matches_no_common_char (a b : str) :
  no_common_char a b = true -> Difflib.matches a b = Difflib.matches b a.
Proof.
  rewrite no_common_char_spec. intros H.
  rewrite (DifflibFacts.matches_apart a b H).
  rewrite (DifflibFacts.matches_apart b a); [reflexivity|].
  intros c Hb Ha. exact (H c Ha Hb).
Qed.

(** Two short texts, one inside the other: all of the inner text is
    matched, in either order. *)
Lemma matches_nested (a b : str) :
  nested a b = true -> Difflib.matches a b = Difflib.matches b a.
Proof.
  unfold nested. rewrite !andb_true_iff, orb_true_iff, !Nat.ltb_lt.
  intros [[Ha Hb] [H | H]]; apply PyStrFacts.contains_spec in H;
    destruct H as (n & pre & post & -> & _).
  - rewrite DifflibFacts.matches_inside_r by exact Hb.
    now rewrite DifflibFacts.matches_inside_l by exact Ha.
  - rewrite DifflibFacts.matches_inside_l by exact Hb.
    now rewrite DifflibFacts.matches_inside_r by exact Ha.
Qed.

Lemma matches_matched_alike (a b : str) :
  matched_alike a b = true -> Difflib.matches a b = Difflib.matches b a.
Proof.
  unfold matched_alike. rewrite !orb_true_iff.
  intros [[H | H] | H].
  - apply DictFacts.eqb_eq in H. now subst b.
  - now apply matches_no_common_char.
  - now apply matches_nested.
Qed.

(** C1, amended.  The score does not depend on the order of the two
    documents when, in each of the five weighted fields, the two values
    in lower case are the same text, or have no character in common (as
    an empty value has with any value), or are shorter than 200
    characters with one of them occurring inside the other.  Outside
    this class the two orders can give different scores, as "tide" and
    "diet" do. *)
Theorem similarity_symmetric (impl : sum_impl) (skill1 skill2 : skill) :
  (forall key, In key (keys weights) ->
     matched_alike (PyStr.lower (skill_get skill1 key))
                   (PyStr.lower (skill_get skill2 key)) = true) ->
  _calculate_similarity impl skill1 skill2 weights
  = _calculate_similarity impl skill2 skill1 weights.
Proof.
  intros H. apply similarity_of_matches.
  intros key Hkey. apply matches_matched_alike, H, Hkey.
Qed.

(** Two skills named alike up to case, with descriptions that share no
    letter, and the overview of one inside the overview of the other. *)
Definition lint_skill : skill :=
  {| name := lit "Lint"; description := lit "deploy";
     what_i_do := lit "check the code"; when_to_use := []; steps := [];
     full_content := []; char_count := 0 |}.

Definition lint_style_skill : skill :=
  {| name := lit "lint"; description := lit "run";
     what_i_do := lit "I check the code style"; when_to_use := [];
     steps := lit "1. run"; full_content := []; char_count := 0 |}.

Lemma similarity_symmetric_witness :
  _calculate_similarity SumPlain lint_skill lint_style_skill weights
  = _calculate_similarity SumPlain lint_style_skill lint_skill weights.
Proof.
  apply (similarity_symmetric SumPlain lint_skill lint_style_skill).
  intros key [<- | [<- | [<- | [<- | [<- | []]]]]]; vm_compute; reflexivity.
Defined.

End SimilarityFacts.

(* ================================================================== *)
(** * Properties of the document parser *)
(* ================================================================== *)

Module LoaderFacts.
Import PyStr Dict Auditor Loader DictFacts.

(** ** Splitting *)

Lemma contains_char (s : str) (c : ascii) : contains s [c] = true <-> In c s.
Proof.
  induction s as [|d s IH]; simpl; [split; [discriminate | tauto]|].
  rewrite orb_true_iff, andb_true_r, Ascii.eqb_eq, IH. intuition congruence.
Qed.

Lemma cut_spec (s : str) (sep : ascii) :
  match cut s sep with
  | (head, Some tail) => s = head ++ sep :: tail /\ ~ In sep head
  | (head, None) => head = s /\ ~ In sep s
  end.
Proof.
  induction s as [|c s IH]; simpl; [tauto|].
  destruct (Ascii.eqb_spec c sep) as [->|Hne]; [simpl; tauto|].
  destruct (cut s sep) as [head [tail|]]; simpl.
  - destruct IH as [-> Hn]. split; [reflexivity|]. intuition congruence.
  - destruct IH as [-> Hn]. split; [reflexivity|]. intuition congruence.
Qed.

Lemma cut_at (head tail : str) (sep : ascii) :
  ~ In sep head -> cut (head ++ sep :: tail) sep = (head, Some tail).
Proof.
  induction head as [|c head IH]; simpl; intros Hn.
  - now rewrite Ascii.eqb_refl.
  - destruct (Ascii.eqb_spec c sep) as [->|Hne]; [tauto|].
    rewrite IH by tauto. reflexivity.
Qed.

Lemma split_pieces_spec (s : str) (sep : ascii) :
  let '(piece, rest) := split_pieces s sep in
  ~ In sep piece /\ Forall (fun p => ~ In sep p) rest
  /\ join [sep] (piece :: rest) = s.
Proof.
  induction s as [|c s IH]; simpl; [repeat split; [tauto | constructor]|].
  destruct (split_pieces s sep) as [piece rest].
  destruct IH as (Hp & Hr & Hj).
  destruct (Ascii.eqb_spec c sep) as [->|Hne].
  - repeat split; [tauto | now constructor |].
    simpl in *. now rewrite Hj.
  - repeat split; [simpl; intuition congruence | exact Hr |].
    simpl in *. destruct rest; simpl in *; now rewrite <- Hj.
Qed.

(** No piece of [s.split(sep)] holds the separator, and joining the
    pieces with the separator gives [s] back. *)
Lemma split_spec (s : str) (sep : ascii) :
  Forall (fun p => ~ In sep p) (split s sep)
  /\ join [sep] (split s sep) = s.
Proof.
  unfold split. pose proof (split_pieces_spec s sep) as H.
  destruct (split_pieces s sep) as [piece rest].
  destruct H as (Hp & Hr & Hj). split; [now constructor | exact Hj].
Qed.

(** ** Trimming *)

Lemma lstrip_suffix (s : str) : exists pre, s = pre ++ lstrip s.
Proof.
  induction s as [|c s [pre IH]]; simpl; [now exists []|].
  destruct (is_space c); [|now exists []].
  exists (c :: pre). simpl. now rewrite <- IH.
Qed.

Lemma lstrip_head (s : str) :
  match lstrip s with
  | [] => True
  | c :: _ => is_space c = false
  end.
Proof.
  induction s as [|c s IH]; simpl; [exact I|].
  destruct (is_space c) eqn:E; [exact IH | exact E].
Qed.

Lemma lstrip_fixed (s : str) :
  match s with [] => True | c :: _ => is_space c = false end ->
  lstrip s = s.
Proof. destruct s as [|c s]; simpl; [reflexivity|]. now intros ->. Qed.

Lemma lstrip_idem (s : str) : lstrip (lstrip s) = lstrip s.
Proof. apply lstrip_fixed, lstrip_head. Qed.

Lemma lstrip_snoc (s : str) (c : ascii) :
  lstrip (s ++ [c])
  = match lstrip s with
    | [] => if is_space c then [] else [c]
    | r => r ++ [c]
    end.
Proof.
  induction s as [|d s IH]; simpl; [reflexivity|].
  destruct (is_space d); [exact IH | reflexivity].
Qed.

Lemma rstrip_cons (c : ascii) (s : str) :
  rstrip (c :: s)
  = match rstrip s with
    | [] => if is_space c then [] else [c]
    | r => c :: r
    end.
Proof.
  unfold rstrip. simpl rev. rewrite lstrip_snoc.
  destruct (lstrip (rev s)) as [|d r] eqn:E; simpl.
  - destruct (is_space c); reflexivity.
  - rewrite rev_app_distr. simpl.
    destruct (rev r ++ [d]) eqn:E'; [|reflexivity].
    now destruct (rev r).
Qed.

Lemma rstrip_prefix (s : str) : exists post, s = rstrip s ++ post.
Proof.
  unfold rstrip. destruct (lstrip_suffix (rev s)) as [pre H].
  exists (rev pre). rewrite <- rev_app_distr, <- H. now rewrite rev_involutive.
Qed.

Lemma rstrip_idem (s : str) : rstrip (rstrip s) = rstrip s.
Proof. unfold rstrip. now rewrite rev_involutive, lstrip_idem. Qed.

Lemma rstrip_head (s : str) :
  match s with [] => True | c :: _ => is_space c = false end ->
  match rstrip s with [] => True | c :: _ => is_space c = false end.
Proof.
  destruct s as [|c s]; [intros _; exact I|]. intros Hc.
  rewrite rstrip_cons. destruct (rstrip s); [rewrite Hc|]; exact Hc.
Qed.

(** A trimmed text: nothing is left to trim at either end. *)
Definition trimmed (s : str) : Prop := lstrip s = s /\ rstrip s = s.

Lemma strip_trimmed (s : str) : trimmed (strip s).
Proof.
  unfold trimmed, strip. split.
  - apply lstrip_fixed, rstrip_head, lstrip_head.
  - apply rstrip_idem.
Qed.

Lemma strip_fixed (s : str) : trimmed s -> strip s = s.
Proof. intros [H1 H2]. unfold strip. now rewrite H1. Qed.

Lemma strip_idem (s : str) : strip (strip s) = strip s.
Proof. apply strip_fixed, strip_trimmed. Qed.

(** Trimming only removes characters. *)
Lemma strip_middle (s : str) : exists pre post, s = pre ++ strip s ++ post.
Proof.
  unfold strip. destruct (lstrip_suffix s) as [pre H].
  destruct (rstrip_prefix (lstrip s)) as [post H'].
  exists pre, post. now rewrite <- H', <- H.
Qed.

Lemma strip_In (s : str) (c : ascii) : In c (strip s) -> In c s.
Proof.
  intros H. destruct (strip_middle s) as (pre & post & E).
  rewrite E, !in_app_iff. tauto.
Qed.

(** ** The header *)

(** The entry a line contributes: the trimmed texts before and after its
    first colon. *)
Definition line_entry (line : str) : option (str * str) :=
  match cut line colon with
  | (key, Some value) => Some (strip key, strip value)
  | (_, None) => None
  end.

Definition entries (lines : list str) : list (str * str) :=
  flat_map (fun line => match line_entry line with
                        | Some e => [e]
                        | None => []
                        end) lines.

(** Unpacking [key, value] never fails: a line that holds a colon is
    split in two. *)
Lemma parse_line_eq (frontmatter : dict str) (line : str) :
  parse_line frontmatter line
  = Some (match line_entry line with
          | Some (key, value) => set frontmatter key value
          | None => frontmatter
          end).
Proof.
  unfold parse_line, line_entry, split1.
  pose proof (cut_spec line colon) as H.
  destruct (cut line colon) as [head [tail|]].
  - destruct H as [-> Hn].
    replace (contains (head ++ colon :: tail) [colon]) with true; [reflexivity|].
    symmetry. apply contains_char, in_elt.
  - destruct H as [-> Hn].
    destruct (contains line [colon]) eqn:E; [|reflexivity].
    apply contains_char in E. contradiction.
Qed.

Lemma parse_lines_from (lines : list str) (frontmatter : dict str) :
  fold_left
    (fun (frontmatter : option (dict str)) (line : str) =>
       match frontmatter with
       | None => None
       | Some frontmatter => parse_line frontmatter line
       end) lines (Some frontmatter)
  = Some (fold_left (fun d (e : str * str) => set d (fst e) (snd e))
                    (entries lines) frontmatter).
Proof.
  revert frontmatter. induction lines as [|line lines IH]; intros fm; simpl;
    [reflexivity|].
  rewrite parse_line_eq, IH. unfold entries at 2. simpl.
  rewrite fold_left_app. fold (entries lines).
  destruct (line_entry line) as [[key value]|]; reflexivity.
Qed.

Lemma parse_lines_eq (lines : list str) :
  parse_lines lines = Some (of_entries (entries lines)).
Proof. apply parse_lines_from. Qed.

Lemma parse_yaml_frontmatter_eq (text : str) :
  _parse_yaml_frontmatter text
  = Some (of_entries (entries (split (strip text) newline))).
Proof. apply parse_lines_eq. Qed.

(** ** Dictionaries built by assignment *)

Section Entries.

Context {V : Type}.

Lemma fold_set_get_in (es : list (str * V)) (d : dict V) (k : str) (v : V) :
  get (fold_left (fun d (e : str * V) => set d (fst e) (snd e)) es d) k
  = Some v ->
  In (k, v) es \/ get d k = Some v.
Proof.
  revert d. induction es as [|[k' v'] es IH]; intros d H; simpl in *;
    [now right|].
  destruct (IH _ H) as [Hin | Hg]; [now left; right|].
  destruct (list_eq_dec ascii_dec k' k) as [->|Hne].
  - rewrite get_set_same in Hg. injection Hg as ->. now left; left.
  - rewrite get_set_other in Hg by exact Hne. now right.
Qed.

Lemma fold_set_get_last (es : list (str * V)) (d : dict V) (k : str) :
  ~ In k (map fst es) ->
  get (fold_left (fun d (e : str * V) => set d (fst e) (snd e)) es d) k
  = get d k.
Proof.
  revert d. induction es as [|[k' v'] es IH]; intros d Hn; simpl in *;
    [reflexivity|].
  rewrite IH by tauto. apply get_set_other. tauto.
Qed.

(** The value of a key is the value of its last assignment. *)
Lemma of_entries_last (es es' : list (str * V)) (k : str) (v : V) :
  ~ In k (map fst es') ->
  get (of_entries (es ++ (k, v) :: es')) k = Some v.
Proof.
  intros Hn. unfold of_entries. rewrite fold_left_app. simpl.
  rewrite fold_set_get_last by exact Hn. apply get_set_same.
Qed.

Lemma of_entries_In (es : list (str * V)) (k : str) (v : V) :
  get (of_entries es) k = Some v -> In (k, v) es.
Proof.
  intros H. destruct (fold_set_get_in es [] k v H) as [Hin | Hg];
    [exact Hin | discriminate Hg].
Qed.

End Entries.

Lemma entries_app (l l' : list str) : entries (l ++ l') = entries l ++ entries l'.
Proof. unfold entries. apply flat_map_app. Qed.

Lemma entries_In (lines : list str) (k v : str) :
  In (k, v) (entries lines) <->
  exists line, In line lines /\ line_entry line = Some (k, v).
Proof.
  unfold entries. rewrite in_flat_map. split.
  - intros (line & Hl & He). exists line. split; [exact Hl|].
    destruct (line_entry line) as [e|]; [|destruct He].
    destruct He as [-> | []]. reflexivity.
  - intros (line & Hl & He). exists line. split; [exact Hl|].
    rewrite He. now left.
Qed.

Lemma line_entry_at (key value : str) :
  ~ In colon key ->
  line_entry (key ++ colon :: value) = Some (strip key, strip value).
Proof. intros Hn. unfold line_entry. now rewrite cut_at. Qed.

Lemma line_entry_inv (line k v : str) :
  line_entry line = Some (k, v) ->
  exists key value,
    line = key ++ colon :: value /\ ~ In colon key
    /\ k = strip key /\ v = strip value.
Proof.
  unfold line_entry. pose proof (cut_spec line colon) as H.
  destruct (cut line colon) as [head [tail|]]; [|discriminate].
  intros E. injection E as <- <-. destruct H as [-> Hn].
  now exists head, tail.
Qed.

(** ** Slices of a text with a header *)

Lemma slice_to_end (s : str) (lo : nat) :
  slice s (Z.of_nat lo) (Z.of_nat (length s)) = skipn lo s.
Proof.
  unfold slice, clamp_index.
  destruct (Z.ltb_spec (Z.of_nat lo) 0); [lia|].
  destruct (Z.ltb_spec (Z.of_nat (length s)) 0); [lia|].
  rewrite (Z.min_l (Z.of_nat (length s))) by lia.
  destruct (Nat.le_gt_cases lo (length s)) as [Hle|Hgt].
  - rewrite Z.min_l by lia. rewrite Nat2Z.id.
    apply firstn_all2. rewrite length_skipn. lia.
  - rewrite Z.min_r by lia. rewrite Z.sub_diag. simpl.
    symmetry. apply skipn_all2. lia.
Qed.

Lemma find_start_cases (s sub : str) (start : nat) :
  (find_start s sub start = -1)
  \/ exists n, find_start s sub start = Z.of_nat (start + n)
               /\ (start <= length s)%nat
               /\ first_occurrence sub (skipn start s) n.
Proof.
  unfold find_start. destruct (Nat.ltb_spec (length s) start); [now left|].
  destruct (PyStrFacts.find_from_cases (skipn start s) sub (Z.of_nat start))
    as [[H1 _] | (n & H1 & H2)]; [now left|].
  right. exists n. split; [lia | tauto].
Qed.

(** What [split_frontmatter] returns, by cases. *)
Inductive header_shape (content : str) : dict str * str -> Prop :=
  | no_header :
      header_shape content ([], content)
  | with_header (header body : str) :
      content = lit "---" ++ header ++ lit "---" ++ body ->
      first_occurrence (lit "---") (header ++ lit "---" ++ body)
                       (length header) ->
      header_shape content
        (of_entries (entries (split (strip header) newline)), body).

Lemma occurs_at_app_l (sub s t : str) (k : nat) :
  occurs_at sub (s ++ t) k -> (k + length sub <= length s)%nat ->
  occurs_at sub s k.
Proof.
  intros (pre & post & E & <-) Hk.
  assert (Hf : firstn (length pre + length sub) (s ++ t)
               = firstn (length pre + length sub) (pre ++ sub ++ post))
    by now rewrite E.
  rewrite firstn_app in Hf.
  replace (length pre + length sub - length s)%nat with 0%nat in Hf by lia.
  simpl in Hf. rewrite app_nil_r in Hf.
  rewrite app_assoc, firstn_app in Hf.
  rewrite (firstn_all2 (pre ++ sub)) in Hf by (rewrite length_app; lia).
  replace (length pre + length sub - length (pre ++ sub))%nat with 0%nat in Hf
    by (rewrite length_app; lia).
  simpl in Hf. rewrite app_nil_r in Hf.
  exists pre, (skipn (length pre + length sub) s). split; [|reflexivity].
  rewrite app_assoc, <- Hf. symmetry. apply firstn_skipn.
Qed.

(** The closing delimiter found is the one written after [header] when
    no other begins inside [header]. *)
Lemma closing_delimiter (header body : str) :
  contains (header ++ lit "--") (lit "---") = false ->
  first_occurrence (lit "---") (header ++ lit "---" ++ body) (length header).
Proof.
  intros Hc. split; [now exists header, body|].
  intros k Hk Hocc.
  assert (Hn : contains (header ++ lit "--") (lit "---") = true);
    [|congruence].
  apply PyStrFacts.contains_spec. exists k.
  apply (occurs_at_app_l _ _ (lit "-" ++ body)).
  - rewrite <- app_assoc. exact Hocc.
  - rewrite length_app. simpl. lia.
Qed.

Lemma split_frontmatter_at (header body : str) :
  first_occurrence (lit "---") (header ++ lit "---" ++ body) (length header) ->
  split_frontmatter (lit "---" ++ header ++ lit "---" ++ body)
  = Some (of_entries (entries (split (strip header) newline)), body).
Proof.
  intros Hocc. unfold split_frontmatter, find_start.
  change (startswith (lit "---" ++ header ++ lit "---" ++ body) (lit "---"))
    with true.
  change (skipn 3 (lit "---" ++ header ++ lit "---" ++ body))
    with (header ++ lit "---" ++ body).
  change (length (lit "---" ++ header ++ lit "---" ++ body))
    with (3 + length (header ++ lit "---" ++ body))%nat.
  destruct (Nat.ltb_spec (3 + length (header ++ lit "---" ++ body)) 3); [lia|].
  rewrite (PyStrFacts.find_from_first _ _ _ _ Hocc).
  destruct (Z.eqb_spec (Z.of_nat 3 + Z.of_nat (length header)) (-1)); [lia|].
  simpl negb. cbv iota.
  replace (Z.of_nat 3 + Z.of_nat (length header))
    with (Z.of_nat (3 + length header)) by lia.
  assert (Ht : slice (lit "---" ++ header ++ lit "---" ++ body) (Z.of_nat 3)
                     (Z.of_nat (3 + length header)) = header).
  { rewrite (ParserFacts.slice_in_range _ 3 (3 + length header));
      [|simpl length; lia | simpl; rewrite !length_app; simpl; lia].
    replace (3 + length header - 3)%nat with (length header) by lia.
    change (skipn 3 _) with (header ++ lit "---" ++ body).
    rewrite firstn_app, firstn_all, Nat.sub_diag. simpl. apply app_nil_r. }
  assert (Hb : slice (lit "---" ++ header ++ lit "---" ++ body)
                     (Z.of_nat (3 + length header) + 3)
                     (Z.of_nat (3 + length (header ++ lit "---" ++ body)))
               = body).
  { replace (Z.of_nat (3 + length header) + 3)
      with (Z.of_nat (3 + (length header + 3))) by lia.
    change (3 + length (header ++ lit "---" ++ body))%nat
      with (length (lit "---" ++ header ++ lit "---" ++ body)).
    rewrite slice_to_end.
    change (skipn (3 + (length header + 3))
                  (lit "---" ++ header ++ lit "---" ++ body))
      with (skipn (length header + 3) (header ++ lit "---" ++ body)).
    rewrite skipn_app.
    rewrite (skipn_all2 header) by lia.
    replace (length header + 3 - length header)%nat with 3%nat by lia.
    reflexivity. }
  change (Z.of_nat 3) with 3 in Ht.
  rewrite Ht, Hb, parse_yaml_frontmatter_eq. reflexivity.
Qed.

Lemma split_frontmatter_shape (content : str) :
  exists r, split_frontmatter content = Some r /\ header_shape content r.
Proof.
  destruct (startswith content (lit "---")) eqn:Es.
  - apply PyStrFacts.startswith_spec in Es as [rest ->].
    destruct (find_start_cases (lit "---" ++ rest) (lit "---") 3)
      as [E | (n & E & Hlen & Hocc)].
    + exists ([], lit "---" ++ rest). split; [|constructor].
      unfold split_frontmatter.
      change (startswith (lit "---" ++ rest) (lit "---")) with true.
      cbv iota. now rewrite E.
    + change (skipn 3 (lit "---" ++ rest)) with rest in Hocc.
      destruct Hocc as [Hocc Hmin].
      destruct Hocc as (header & body & -> & <-).
      rewrite split_frontmatter_at by (split; [now exists header, body | exact Hmin]).
      eexists. split; [reflexivity|].
      apply with_header; [reflexivity|]. split; [|exact Hmin].
      now exists header, body.
  - exists ([], content). split; [|constructor].
    unfold split_frontmatter. now rewrite Es.
Qed.

(** ** The parser as a whole *)

(** X2. The header parser never raises: a line that holds a colon always
    unpacks into a key and a value.  Every key and every value of the
    result is trimmed and lies on one line, and no key holds a colon. *)
Theorem frontmatter_entries_trimmed (text : str) :
  exists frontmatter,
    _parse_yaml_frontmatter text = Some frontmatter
    /\ forall key value,
         get frontmatter key = Some value ->
         trimmed key /\ trimmed value
         /\ ~ In colon key /\ ~ In newline key /\ ~ In newline value.
Proof.
  rewrite parse_yaml_frontmatter_eq. eexists. split; [reflexivity|].
  intros key value Hg.
  apply of_entries_In, entries_In in Hg as (line & Hline & He).
  apply line_entry_inv in He as (k0 & v0 & -> & Hcolon & -> & ->).
  destruct (split_spec (strip text) newline) as [Hnl _].
  rewrite Forall_forall in Hnl. specialize (Hnl _ Hline).
  rewrite in_app_iff in Hnl. simpl in Hnl.
  repeat split; try apply strip_trimmed; intros Hin; apply strip_In in Hin; tauto.
Qed.

(** X3. When two lines of the header give the same key, the later line
    wins: the value stored under a key is the one of the last line with
    that key. *)
Theorem frontmatter_last_wins (text : str) (before after : list str)
    (key value : str) :
  split (strip text) newline = before ++ (key ++ colon :: value) :: after ->
  ~ In colon key ->
  (forall k v, In (k ++ colon :: v) after -> ~ In colon k ->
               strip k <> strip key) ->
  exists frontmatter,
    _parse_yaml_frontmatter text = Some frontmatter
    /\ get frontmatter (strip key) = Some (strip value).
Proof.
  intros Hlines Hcolon Hlater.
  rewrite parse_yaml_frontmatter_eq, Hlines. eexists. split; [reflexivity|].
  rewrite entries_app. simpl. unfold entries at 2. simpl.
  rewrite (line_entry_at key value Hcolon). simpl.
  fold (entries after). apply of_entries_last.
  rewrite in_map_iff. intros ([k v] & Hk & Hin). simpl in Hk. subst k.
  apply entries_In in Hin as (line & Hline & He).
  apply line_entry_inv in He as (k0 & v0 & -> & Hc0 & Hk0 & _).
  apply (Hlater k0 v0 Hline Hc0). now symmetry.
Qed.

Lemma frontmatter_last_wins_witness :
  exists frontmatter,
    _parse_yaml_frontmatter
      (lit "name: a" ++ [newline] ++ lit " name : b " ++ [newline])
    = Some frontmatter
    /\ get frontmatter (lit "name") = Some (lit "b").
Proof.
  apply (frontmatter_last_wins
           (lit "name: a" ++ [newline] ++ lit " name : b " ++ [newline])
           [lit "name: a"] [] (lit " name ") (lit " b")).
  - reflexivity.
  - simpl. intros H. decompose [or] H; discriminate || assumption.
  - intros k v [].
Defined.

Lemma extract_skill_content_shape (content : str) :
  exists sections, _extract_skill_content content = Some sections.
Proof.
  unfold _extract_skill_content.
  destruct (split_frontmatter_shape content) as ([fm body] & -> & _).
  eexists. reflexivity.
Qed.

(** X4. Parsing a skill file never raises, whatever the text.  The size
    recorded is the length of the whole text, and the body is the whole
    text, or what follows the closing delimiter of a header that opens
    the text; in particular the size counts the header too. *)
Theorem extract_skill_content_total (content : str) :
  exists sections,
    _extract_skill_content content = Some sections
    /\ char_count sections = Z.of_nat (length content)
    /\ (full_content sections = content
        \/ exists header,
             content = lit "---" ++ header ++ lit "---" ++ full_content sections)
    /\ Z.of_nat (length (full_content sections)) <= char_count sections.
Proof.
  unfold _extract_skill_content.
  destruct (split_frontmatter_shape content) as ([fm body] & -> & Hshape).
  eexists. split; [reflexivity|]. simpl.
  split; [reflexivity|].
  inversion Hshape as [|header body' E Hocc]; subst.
  - split; [now left | lia].
  - split; [right; now exists header|].
    rewrite !length_app. lia.
Qed.

(** X5. A text that does not open with the delimiter, or whose opening
    delimiter is never closed, is all body: the metadata fields are
    empty and nothing is cut off. *)
Theorem unterminated_header_is_body (content : str) :
  startswith content (lit "---") = false
  \/ contains (skipn 3 content) (lit "---") = false ->
  exists sections,
    _extract_skill_content content = Some sections
    /\ name sections = [] /\ description sections = []
    /\ full_content sections = content.
Proof.
  intros H.
  assert (E : split_frontmatter content = Some ([], content)).
  { unfold split_frontmatter.
    destruct (startswith content (lit "---")) eqn:Es; [|reflexivity].
    destruct H as [H | H]; [discriminate H|].
    assert (Hf : find_start content (lit "---") 3 = -1).
    { unfold find_start. destruct (length content <? 3)%nat; [reflexivity|].
      apply PyStrFacts.find_from_absent. intros n Hn.
      assert (Hc : contains (skipn 3 content) (lit "---") = true)
        by (apply PyStrFacts.contains_spec; now exists n).
      congruence. }
    now rewrite Hf. }
  unfold _extract_skill_content. rewrite E.
  eexists. split; [reflexivity|]. simpl. repeat split.
Qed.

Lemma unterminated_header_is_body_witness :
  exists sections,
    _extract_skill_content (lit "--- name: x -- body") = Some sections
    /\ name sections = [] /\ description sections = []
    /\ full_content sections = lit "--- name: x -- body".
Proof.
  apply (unterminated_header_is_body (lit "--- name: x -- body")).
  right. reflexivity.
Defined.

(** X6. A header written between two delimiters is read back: when no
    delimiter begins inside the header text, the metadata fields are those
    of the parsed header and the body is exactly the text after the
    closing delimiter. *)
Theorem header_round_trip (header body : str) :
  contains (header ++ lit "--") (lit "---") = false ->
  exists frontmatter sections,
    _parse_yaml_frontmatter header = Some frontmatter
    /\ _extract_skill_content (lit "---" ++ header ++ lit "---" ++ body)
       = Some sections
    /\ name sections = get_or_empty frontmatter (lit "name")
    /\ description sections = get_or_empty frontmatter (lit "description")
    /\ full_content sections = body
    /\ char_count sections = Z.of_nat (length header + length body + 6).
Proof.
  intros Hc. unfold _extract_skill_content.
  rewrite (split_frontmatter_at header body (closing_delimiter header body Hc)).
  rewrite parse_yaml_frontmatter_eq.
  eexists. eexists. split; [reflexivity|]. split; [reflexivity|]. simpl.
  repeat split. rewrite !length_app. simpl. f_equal. lia.
Qed.

Lemma header_round_trip_witness :
  exists frontmatter sections,
    _parse_yaml_frontmatter (lit " name: lint ") = Some frontmatter
    /\ _extract_skill_content
         (lit "---" ++ lit " name: lint " ++ lit "---" ++ lit "## Steps")
       = Some sections
    /\ name sections = get_or_empty frontmatter (lit "name")
    /\ description sections = get_or_empty frontmatter (lit "description")
    /\ full_content sections = lit "## Steps"
    /\ char_count sections = Z.of_nat (12 + 8 + 6).
Proof.
  apply (header_round_trip (lit " name: lint ") (lit "## Steps")).
  reflexivity.
Defined.

(** The files read before the first one that cannot be read, with their
    texts. *)
Fixpoint read_before_failure (files : list skill_file) : list (str * str) :=
  match files with
  | (n, inl text) :: files' => (n, text) :: read_before_failure files'
  | _ => []
  end.

(** The exception of the first file that cannot be read. *)
Fixpoint first_failure (files : list skill_file) : option read_error :=
  match files with
  | [] => None
  | (_, inl _) :: files' => first_failure files'
  | (_, inr e) :: _ => Some e
  end.

Lemma readable_no_failure (files : list skill_file) :
  (forall n r, In (n, r) files -> exists text, r = inl text) ->
  first_failure files = None
  /\ map fst (read_before_failure files) = map fst files.
Proof.
  induction files as [|[n0 [text|e]] files IH]; intros H; simpl.
  - now split.
  - destruct IH as [I1 I2]; [intros n r Hin; apply (H n r); now right|].
    split; [exact I1 | now rewrite I2].
  - destruct (H n0 (inr e)) as [text Ht]; [now left | discriminate Ht].
Qed.

Lemma load_files_from (files : list skill_file) (d : skills) :
  NoDup (keys d) ->
  snd (load_files files d) = option_map ReadError (first_failure files)
  /\ NoDup (keys (fst (load_files files d)))
  /\ (forall n, In n (keys (fst (load_files files d)))
                <-> In n (keys d)
                    \/ In n (map fst (read_before_failure files)))
  /\ forall n sections,
       get (fst (load_files files d)) n = Some sections ->
       get d n = Some sections
       \/ exists text,
            In (n, text) (read_before_failure files)
            /\ _extract_skill_content text = Some sections
            /\ char_count sections = Z.of_nat (length text).
Proof.
  revert d. induction files as [|[n0 [text|e]] files IH]; intros d Hd;
    cbn [load_files read_before_failure first_failure extract_skill_file].
  - cbn [fst snd map In option_map].
    repeat split; [exact Hd | tauto | tauto | now left].
  - destruct (extract_skill_content_shape text) as [sections E].
    rewrite E.
    destruct (IH (set d n0 sections) (keys_set_NoDup _ _ _ Hd))
      as (Hr & Hnd & Hk & Hg).
    split; [exact Hr|]. split; [exact Hnd|]. split.
    + intros n. rewrite Hk. cbn [map fst In].
      destruct (in_dec (list_eq_dec ascii_dec) n0 (keys d)) as [Hin|Hn].
      * rewrite keys_set_in by exact Hin. intuition (subst; tauto).
      * rewrite keys_set_notin, in_app_iff by exact Hn. simpl. tauto.
    + intros n s Hs. destruct (Hg n s Hs) as [Hd' | (t & Ht & Et & Ec)].
      * destruct (list_eq_dec ascii_dec n0 n) as [->|Hne].
        -- rewrite get_set_same in Hd'. injection Hd' as <-.
           right. exists text. split; [now left|]. split; [exact E|].
           unfold _extract_skill_content in E.
           destruct (split_frontmatter text) as [[fm body]|];
             [|discriminate E].
           injection E as <-. reflexivity.
        -- rewrite get_set_other in Hd' by exact Hne. now left.
      * right. exists t. split; [now right | tauto].
  - cbn [fst snd map In option_map].
    repeat split; [exact Hd | tauto | tauto | now left].
Qed.

(** X7. Loading into a fresh auditor raises exactly when a file found
    cannot be read, and then the exception of the first such file; the
    parser itself never raises.  The files before that one are loaded:
    the keys of [skills_data] are the names of their directories, each
    once, and the skill stored under a name is what the parser returns
    for a file of that directory, with the size of its text.  When every
    file can be read, loading returns and every directory found has its
    entry. *)
Theorem load_files_outcome (files : list skill_file) :
  let loaded := read_before_failure files in
  let skills_data := fst (load_files files []) in
  snd (load_files files []) = option_map ReadError (first_failure files)
  /\ NoDup (keys skills_data)
  /\ (forall n, In n (keys skills_data) <-> In n (map fst loaded))
  /\ (forall n sections,
        get skills_data n = Some sections ->
        exists text,
          In (n, text) loaded
          /\ _extract_skill_content text = Some sections
          /\ char_count sections = Z.of_nat (length text))
  /\ ((forall n r, In (n, r) files -> exists text, r = inl text) ->
      snd (load_files files []) = None
      /\ forall n, In n (keys skills_data) <-> In n (map fst files)).
Proof.
  intros loaded skills_data. subst loaded skills_data.
  destruct (load_files_from files [] (NoDup_nil _)) as (Hr & Hnd & Hk & Hg).
  split; [exact Hr|]. split; [exact Hnd|].
  assert (Hkeys : forall n, In n (keys (fst (load_files files [])))
                            <-> In n (map fst (read_before_failure files))).
  { intros n. rewrite Hk. simpl. tauto. }
  split; [exact Hkeys|]. split.
  - intros n s Hs.
    destruct (Hg n s Hs) as [Hd | Ht]; [discriminate Hd | exact Ht].
  - intros Hall. destruct (readable_no_failure files Hall) as [E1 E2].
    split; [now rewrite Hr, E1|].
    intros n. now rewrite Hkeys, E2.
Qed.

(** Three files found; the second is not UTF-8. *)
Definition sample_files : list skill_file :=
  [ (lit "lint", inl (lit "---" ++ [newline] ++ lit "name: lint" ++ [newline]
                      ++ lit "---" ++ [newline] ++ lit "## Steps"));
    (lit "broken", inr UnicodeDecodeError);
    (lit "late", inl (lit "## What I do")) ].

Lemma load_files_outcome_witness :
  snd (load_files sample_files []) = Some (ReadError UnicodeDecodeError)
  /\ forall n, In n (keys (fst (load_files sample_files [])))
               <-> In n [lit "lint"].
Proof.
  destruct (load_files_outcome sample_files) as (Hr & _ & Hk & _).
  split; [exact Hr | exact Hk].
Defined.

End LoaderFacts.

(* ================================================================== *)
(** * Further properties of the analyses *)
(* ================================================================== *)

Module CorpusFacts.
Import Dict Auditor DictFacts SortFacts AuditorFacts.

(** ** Sections without a marker *)

Lemma find_absent (s sub : str) :
  PyStr.contains s sub = false -> PyStr.find s sub = -1.
Proof.
  intros H. apply PyStrFacts.find_from_absent. intros n Hn.
  assert (Hc : PyStr.contains s sub = true)
    by (apply PyStrFacts.contains_spec; now exists n).
  congruence.
Qed.

(** X1. A section whose start marker or end marker does not occur in the
    text is the empty string. *)
Theorem extract_section_missing_marker (content start_marker end_marker : str) :
  PyStr.contains content start_marker = false
  \/ PyStr.contains content end_marker = false ->
  Parser._extract_section content start_marker end_marker = [].
Proof.
  intros [H | H]; unfold Parser._extract_section; rewrite (find_absent _ _ H).
  - reflexivity.
  - destruct (PyStr.find content start_marker =? -1); reflexivity.
Qed.

Lemma extract_section_missing_marker_witness :
  Parser._extract_section (lit "## What I do: lint the code")
    (lit "## What I do") (lit "## When to use me") = [].
Proof.
  apply (extract_section_missing_marker (lit "## What I do: lint the code")
           (lit "## What I do") (lit "## When to use me")).
  right. reflexivity.
Defined.

(** ** Sections that share a marker *)

Lemma extract_section_eq (content sm em : str) (i j : nat) :
  PyStr.first_occurrence sm content i ->
  PyStr.first_occurrence em content j ->
  Parser._extract_section content sm em = firstn (j - i) (skipn i content).
Proof.
  intros Hs He. unfold Parser._extract_section, PyStr.find.
  rewrite (PyStrFacts.find_from_first _ _ 0 i Hs).
  rewrite (PyStrFacts.find_from_first _ _ 0 j He).
  destruct (Z.eqb_spec (0 + Z.of_nat i) (-1)); [lia|].
  destruct (Z.eqb_spec (0 + Z.of_nat j) (-1)); [lia|]. simpl.
  destruct Hs as [Hs _], He as [He _].
  apply PyStrFacts.occurs_at_bound in Hs, He.
  apply ParserFacts.slice_in_range; lia.
Qed.

Lemma first_occurrence_find (s sub : str) (n : nat) :
  PyStr.find s sub = Z.of_nat n -> PyStr.first_occurrence sub s n.
Proof.
  unfold PyStr.find. intros H.
  destruct (PyStrFacts.find_from_cases s sub 0) as [[E _] | (m & E & Hm)].
  - rewrite E in H. lia.
  - rewrite E in H. replace n with m by lia. exact Hm.
Qed.

Lemma firstn_split {A : Type} (l : list A) (a b : nat) :
  firstn a l ++ firstn b (skipn a l) = firstn (a + b) l.
Proof.
  revert l. induction a as [|a IH]; intros l; [reflexivity|].
  destruct l as [|x l]; simpl.
  - now rewrite firstn_nil.
  - now rewrite IH.
Qed.

(** X23. Sections that share a marker adjoin: when three markers first
    occur in this order in the text, the section from the first to the
    second followed by the section from the second to the third is the
    section from the first to the third.  So the fields 'what_i_do' and
    'when_to_use' of a skill, whose markers are shared, never overlap and
    leave no gap. *)
Theorem sections_adjoin (content m1 m2 m3 : str) (i j k : nat) :
  PyStr.first_occurrence m1 content i ->
  PyStr.first_occurrence m2 content j ->
  PyStr.first_occurrence m3 content k ->
  (i <= j <= k)%nat ->
  Parser._extract_section content m1 m2 ++ Parser._extract_section content m2 m3
  = Parser._extract_section content m1 m3.
Proof.
  intros H1 H2 H3 Hijk.
  rewrite (extract_section_eq content m1 m2 i j H1 H2).
  rewrite (extract_section_eq content m2 m3 j k H2 H3).
  rewrite (extract_section_eq content m1 m3 i k H1 H3).
  assert (E : skipn j content = skipn (j - i) (skipn i content))
    by (rewrite skipn_skipn; f_equal; lia).
  rewrite E.
  replace (k - i)%nat with ((j - i) + (k - j))%nat by lia.
  apply firstn_split.
Qed.

Lemma sections_adjoin_witness :
  Parser._extract_section
    (lit "## What I do: lint ## When to use me: often ## Prerequisites: none")
    (lit "## What I do") (lit "## When to use me")
  ++ Parser._extract_section
       (lit "## What I do: lint ## When to use me: often ## Prerequisites: none")
       (lit "## When to use me") (lit "## Prerequisites")
  = Parser._extract_section
      (lit "## What I do: lint ## When to use me: often ## Prerequisites: none")
      (lit "## What I do") (lit "## Prerequisites").
Proof.
  apply (sections_adjoin
           (lit "## What I do: lint ## When to use me: often ## Prerequisites: none")
           (lit "## What I do") (lit "## When to use me")
           (lit "## Prerequisites") 0 19 44).
  - apply first_occurrence_find. reflexivity.
  - apply first_occurrence_find. reflexivity.
  - apply first_occurrence_find. reflexivity.
  - lia.
Defined.

(** ** Cues in a larger text *)

Lemma contains_embedded (s sub pre post : str) :
  PyStr.contains s sub = true -> PyStr.contains (pre ++ s ++ post) sub = true.
Proof.
  rewrite !PyStrFacts.contains_spec. intros [n (p & q & -> & Hl)].
  exists (length pre + n)%nat, (pre ++ p), (q ++ post). split.
  - now rewrite <- !app_assoc.
  - rewrite length_app. lia.
Qed.

Lemma lower_embedded (s pre post : str) :
  PyStr.lower (pre ++ s ++ post)
  = PyStr.lower pre ++ PyStr.lower s ++ PyStr.lower post.
Proof. unfold PyStr.lower. now rewrite !map_app. Qed.

(** Every flag set in [r] is set in [r']. *)
Definition flags_le (r r' : requirements) : Prop :=
  (has_bash r = true -> has_bash r' = true)
  /\ (has_python r = true -> has_python r' = true)
  /\ (has_task r = true -> has_task r' = true)
  /\ (has_atlassian_mcp r = true -> has_atlassian_mcp r' = true)
  /\ (has_drawio_mcp r = true -> has_drawio_mcp r' = true)
  /\ (has_zai_mcp r = true -> has_zai_mcp r' = true)
  /\ (has_question r = true -> has_question r' = true).

(** X8. Text added before or after a body never clears a requirement flag:
    every flag the body sets on its own is set for the longer text. *)
Theorem cues_survive_embedding (before content after : str) :
  flags_le (_extract_tool_requirements content)
           (_extract_tool_requirements (before ++ content ++ after)).
Proof.
  unfold flags_le, _extract_tool_requirements.
  cbn [has_bash has_python has_task has_atlassian_mcp has_drawio_mcp
       has_zai_mcp has_question].
  rewrite lower_embedded.
  repeat split; try apply contains_embedded.
  unfold task_words. cbn [existsb]. rewrite !orb_true_iff.
  intros [H | [H | [H | H]]]; [| | |discriminate H];
    apply (contains_embedded _ _ before after) in H; tauto.
Qed.

(** ** Delegation and the restricted subagents *)

Lemma task_blocks_restricted (reqs : requirements) (agent : str) :
  has_task reqs = true -> In agent (keys subagents) ->
  agent <> lit "primary" ->
  get (compatibility_row reqs) agent = Some false.
Proof.
  destruct reqs as [b p t a d z q]. cbn [has_task]. intros -> Hin Hne.
  simpl in Hin.
  destruct Hin as [<- | [<- | [<- | [<- | [<- | [<- | [<- | []]]]]]]];
    try (exfalso; apply Hne; reflexivity);
    destruct a, d, z; reflexivity.
Qed.

Lemma NoDup_fst_inj {V : Type} (l : list (str * V)) (e e' : str * V) :
  NoDup (map fst l) -> In e l -> In e' l -> fst e = fst e' -> e = e'.
Proof.
  induction l as [|x l IH]; simpl; [tauto|].
  intros Hnd H1 H2 E. inversion Hnd as [|? ? Hn Hnd']; subst.
  destruct H1 as [-> | H1], H2 as [-> | H2];
    [reflexivity | | | now apply IH].
  - exfalso. apply Hn. rewrite E. now apply in_map.
  - exfalso. apply Hn. rewrite <- E. now apply in_map.
Qed.

(** The row of a skill in the compatibility matrix. *)
Lemma compatibility_row_of (skills_data : skills) (skill_name : str)
    (skill_data : skill) :
  NoDup (keys skills_data) -> In (skill_name, skill_data) (items skills_data) ->
  get (check_subagent_compatibility skills_data) skill_name
  = Some (compatibility_row
            (_extract_tool_requirements (full_content skill_data))).
Proof.
  intros Hnd Hin. unfold check_subagent_compatibility, items in *.
  destruct (fold_set_get
    (fun e : str * skill =>
       compatibility_row (_extract_tool_requirements (full_content (snd e))))
    skills_data [] skill_name) as (e & He & Hk & Hg).
  { change skill_name with (fst (skill_name, skill_data)). now apply in_map. }
  rewrite Hg.
  rewrite (NoDup_fst_inj skills_data e (skill_name, skill_data) Hnd He Hin Hk).
  reflexivity.
Qed.

(** X9. A skill whose body holds one of the words 'task', 'delegate' or
    'subagent' is reported compatible with the primary agent and with
    none of the six subagents. *)
Theorem delegation_blocks_subagents (skills_data : skills)
    (skill_name word : str) (skill_data : skill) :
  NoDup (keys skills_data) ->
  In (skill_name, skill_data) (items skills_data) ->
  In word task_words ->
  PyStr.contains (full_content skill_data) word = true ->
  exists row,
    get (check_subagent_compatibility skills_data) skill_name = Some row
    /\ get row (lit "primary") = Some true
    /\ forall agent, In agent (keys subagents) -> agent <> lit "primary" ->
                     get row agent = Some false.
Proof.
  intros Hnd Hin Hw Hc.
  rewrite (compatibility_row_of _ _ _ Hnd Hin).
  eexists. split; [reflexivity|]. split; [apply compatibility_row_primary|].
  intros agent Ha Hne. apply task_blocks_restricted; [|exact Ha | exact Hne].
  unfold _extract_tool_requirements. cbn [has_task].
  apply existsb_exists. now exists word.
Qed.

Lemma delegation_blocks_subagents_witness :
  exists row,
    get (check_subagent_compatibility
           [(lit "planner", skill_of_body "Split the task in two.")])
        (lit "planner") = Some row
    /\ get row (lit "primary") = Some true
    /\ forall agent, In agent (keys subagents) -> agent <> lit "primary" ->
                     get row agent = Some false.
Proof.
  apply (delegation_blocks_subagents
           [(lit "planner", skill_of_body "Split the task in two.")]
           (lit "planner") (lit "task")
           (skill_of_body "Split the task in two.")).
  - repeat constructor. simpl. tauto.
  - simpl. left. reflexivity.
  - simpl. left. reflexivity.
  - reflexivity.
Defined.

(** X10. The subagents without an integration always share one verdict, so
    do the two subagents with the Atlassian integration, and a skill
    accepted by the former is accepted by the latter. *)
Theorem subagent_columns_agree (reqs : requirements) :
  let row := compatibility_row reqs in
  get row (lit "linting-subagent") = get row (lit "testing-subagent")
  /\ get row (lit "linting-subagent") = get row (lit "documentation-subagent")
  /\ get row (lit "linting-subagent")
     = get row (lit "opentofu-explorer-subagent")
  /\ get row (lit "git-workflow-subagent") = get row (lit "workflow-subagent")
  /\ (get row (lit "linting-subagent") = Some true ->
      get row (lit "git-workflow-subagent") = Some true).
Proof.
  destruct reqs as [b p t a d z q].
  destruct t, a, d, z; repeat split; try reflexivity; discriminate.
Qed.

(** ** Cost bands by size *)

Lemma estimate_tokens_size (skill_data : skill) :
  estimate_tokens skill_data
  = estimate_tokens (skill_of_size (char_count skill_data)).
Proof. reflexivity. Qed.

Lemma estimate_tokens_le (n m : Z) :
  n <= m ->
  estimate_tokens (skill_of_size n) <= estimate_tokens (skill_of_size m).
Proof.
  intros H. unfold estimate_tokens, PyFloat.fmul, PyFloat.int_truediv.
  cbn [char_count skill_of_size].
  apply CostFacts.to_int_mono, PyFloatFacts.rnd_mono.
  apply Qmult_le_compat_r; [|vm_compute; discriminate].
  apply PyFloatFacts.rnd_mono.
  apply Qmult_le_compat_r; [|discriminate].
  now rewrite <- Zle_Qle.
Qed.

(** X11. In terms of the size of the file: a skill is [OK] up to 7276
    characters, [WARNING] from 7277 to 10912 characters and [CRITICAL]
    from 10913 characters on. *)
Theorem status_by_size (skill_name : str) (skill_data : skill) :
  let r := token_entry skill_name skill_data in
  (tr_status r = OK <-> char_count skill_data <= 7276)
  /\ (tr_status r = WARNING <-> 7277 <= char_count skill_data <= 10912)
  /\ (tr_status r = CRITICAL <-> 10913 <= char_count skill_data).
Proof.
  cbn [token_entry tr_status]. unfold token_status.
  rewrite estimate_tokens_size. set (n := char_count skill_data).
  assert (H1 : n <= 7276 -> estimate_tokens (skill_of_size n) <= 2000).
  { intros H. apply (estimate_tokens_le n 7276 H). }
  assert (H2 : 7277 <= n -> 2001 <= estimate_tokens (skill_of_size n)).
  { intros H. apply (estimate_tokens_le 7277 n H). }
  assert (H3 : n <= 10912 -> estimate_tokens (skill_of_size n) <= 3000).
  { intros H. apply (estimate_tokens_le n 10912 H). }
  assert (H4 : 10913 <= n -> 3001 <= estimate_tokens (skill_of_size n)).
  { intros H. apply (estimate_tokens_le 10913 n H). }
  destruct (Z.ltb_spec 3000 (estimate_tokens (skill_of_size n)));
    destruct (Z.ltb_spec 2000 (estimate_tokens (skill_of_size n)));
    repeat split; intros; try discriminate; try reflexivity; lia.
Qed.

(** ** Order of the cost records *)

Section Stable.

Context {A : Type}.
Variables (le : A -> A -> bool) (p : A -> bool).
Hypothesis le_class : forall x y, p x = true -> p y = true -> le x y = true.

Lemma filter_insert (x : A) (l : list A) :
  filter p (PySort.insert le x l) = filter p (x :: l).
Proof.
  induction l as [|y l IH]; simpl; [reflexivity|].
  destruct (le x y) eqn:E; [reflexivity|].
  simpl. rewrite IH. simpl.
  destruct (p x) eqn:Px, (p y) eqn:Py; try reflexivity.
  rewrite (le_class x y Px Py) in E. discriminate E.
Qed.

(** Sorting keeps the order among the items of a class whose members
    compare as equal. *)
Lemma filter_sort (l : list A) :
  filter p (PySort.sort le l) = filter p l.
Proof.
  induction l as [|x l IH]; simpl; [reflexivity|].
  rewrite filter_insert. simpl. now rewrite IH.
Qed.

End Stable.

(** X12. The cost records of the skills with one and the same estimate come
    out in the order in which the skills were loaded. *)
Theorem analyze_token_costs_stable (skills_data : skills) (tokens : Z) :
  filter (fun r => tr_tokens r =? tokens) (analyze_token_costs skills_data)
  = filter (fun r => tr_tokens r =? tokens)
           (map (fun e : str * skill => token_entry (fst e) (snd e))
                (items skills_data)).
Proof.
  unfold analyze_token_costs. apply filter_sort.
  intros x y Hx Hy. apply Z.eqb_eq in Hx, Hy.
  unfold tokens_geb. apply Z.leb_le. lia.
Qed.

(** ** Entries of the duplicity matrix *)

Lemma similarity_bounds (impl : PyFloat.sum_impl) (skill1 skill2 : skill) :
  0 <= _calculate_similarity impl skill1 skill2 weights <= 100.
Proof.
  unfold _calculate_similarity. rewrite SimilarityFacts.field_scores_eq.
  destruct (SimilarityFacts.py_sum_bounds impl _
              (SimilarityFacts.scores_bounded
                 (SimilarityFacts.field_ratio skill1 skill2)
                 (fun key => SimilarityFacts.ratio_bounds _ _))) as [S0 S1].
  set (s := PyFloat.py_sum impl _) in *.
  replace (PyFloat.of_int 100) with (100 : Q) by (vm_compute; reflexivity).
  unfold PyFloat.fmul.
  assert (Hlo : (PyFloat.rnd (- (1 # 10)) <= PyFloat.rnd (s * 100))%Q)
    by (apply PyFloatFacts.rnd_mono; lra).
  assert (Hhi : (PyFloat.rnd (s * 100) <= PyFloat.rnd (100 + (1 # 10)))%Q)
    by (apply PyFloatFacts.rnd_mono; lra).
  apply CostFacts.to_int_mono in Hlo, Hhi.
  replace (PyFloat.to_int (PyFloat.rnd (- (1 # 10)))) with 0 in Hlo
    by (vm_compute; reflexivity).
  replace (PyFloat.to_int (PyFloat.rnd (100 + (1 # 10)))) with 100 in Hhi
    by (vm_compute; reflexivity).
  lia.
Qed.

Lemma assign_all_get_inv {V : Type} (f : str -> V) (ks : list str)
    (k : str) (v : V) :
  get (assign_all f ks []) k = Some v -> In k ks /\ v = f k.
Proof.
  intros H. destruct (in_dec (list_eq_dec ascii_dec) k ks) as [Hin|Hn].
  - rewrite assign_all_get in H by exact Hin. injection H as <-. tauto.
  - rewrite assign_all_get_notin in H by exact Hn. discriminate H.
Qed.

(** X13. Building the matrix never fails on a lookup.  Every entry is a
    number between 0 and 100, and the entry of two different skills is
    the similarity of the first to the second. *)
Theorem matrix_entries (impl : PyFloat.sum_impl) (skills_data : skills) :
  exists matrix,
    calculate_duplicity_matrix impl skills_data = Some matrix
    /\ forall skill1 skill2 row score,
         get matrix skill1 = Some row -> get row skill2 = Some score ->
         0 <= score <= 100
         /\ (skill1 <> skill2 ->
             exists d1 d2,
               get skills_data skill1 = Some d1
               /\ get skills_data skill2 = Some d2
               /\ score = _calculate_similarity impl d1 d2 weights).
Proof.
  rewrite duplicity_matrix_total. eexists. split; [reflexivity|].
  intros skill1 skill2 row score Hrow Hscore.
  apply assign_all_get_inv in Hrow as [H1 ->].
  apply assign_all_get_inv in Hscore as [H2 ->].
  apply sorted_names_loaded in H1, H2.
  destruct (In_get_Some _ _ H1) as [d1 E1].
  destruct (In_get_Some _ _ H2) as [d2 E2].
  unfold entry. rewrite E1, E2.
  destruct (PyStr.eqb skill1 skill2) eqn:E.
  - apply eqb_eq in E. split; [lia | intros Hne; contradiction].
  - split; [apply similarity_bounds|]. intros _. now exists d1, d2.
Qed.

End CorpusFacts.

(* ================================================================== *)
(** * Properties of the figures of the reports *)
(* ================================================================== *)

Module ReportFacts.
Import Dict Auditor Reports DictFacts SortFacts AuditorFacts CorpusFacts.
Import PyFloat PyFloatFacts.

(** ** Quotients of integers *)

Lemma to_int_comp (x y : Q) : (x == y)%Q -> to_int x = to_int y.
Proof.
  intros E.
  assert (H1 : (x <= y)%Q) by (rewrite E; apply Qle_refl).
  assert (H2 : (y <= x)%Q) by (rewrite E; apply Qle_refl).
  apply CostFacts.to_int_mono in H1, H2. lia.
Qed.

Lemma inject_Z_pos (b : Z) : 0 < b -> (0 < inject_Z b)%Q.
Proof. intros H. now rewrite <- (Zlt_Qlt 0). Qed.

(** The quotient of [a] by [b] lies where the exact quotient lies. *)
Lemma int_truediv_between (a b lo hi : Z) :
  0 < b -> lo * b <= a <= hi * b ->
  (rnd (inject_Z lo) <= int_truediv a b <= rnd (inject_Z hi))%Q.
Proof.
  intros Hb [H1 H2]. unfold int_truediv.
  pose proof (inject_Z_pos b Hb) as Hq.
  split; apply rnd_mono.
  - apply Qle_shift_div_l; [exact Hq|].
    rewrite <- inject_Z_mult, <- Zle_Qle. exact H1.
  - apply Qle_shift_div_r; [exact Hq|].
    rewrite <- inject_Z_mult, <- Zle_Qle. exact H2.
Qed.

Lemma int_truediv_self (n : Z) : 0 < n -> (int_truediv n n == 1)%Q.
Proof.
  intros Hn. unfold int_truediv.
  assert (E : (inject_Z n / inject_Z n == 1)%Q).
  { field. pose proof (inject_Z_pos n Hn). lra. }
  rewrite (rnd_comp _ _ E). reflexivity.
Qed.

(** An average of integers between [lo] and [hi], truncated, lies
    between [lo] and [hi]. *)
Lemma truncated_average (total n lo hi : Z) :
  0 < n -> lo * n <= total <= hi * n ->
  0 <= lo -> hi < 2 ^ 53 ->
  lo <= to_int (int_truediv total n) <= hi.
Proof.
  intros Hn Ht Hlo Hhi.
  assert (Hle : lo <= hi) by nia.
  destruct (int_truediv_between total n lo hi Hn Ht) as [H1 H2].
  apply CostFacts.to_int_mono in H1, H2.
  rewrite (to_int_comp _ _ (CostFacts.rnd_integer lo ltac:(lia))) in H1.
  rewrite (to_int_comp _ _ (CostFacts.rnd_integer hi ltac:(lia))) in H2.
  assert (E : forall k, to_int (inject_Z k) = k).
  { intros k. unfold to_int. simpl. apply Z.quot_1_r. }
  rewrite E in H1, H2. lia.
Qed.

(** ** Percentages *)

(** X15. A count out of a positive number of skills gives a percentage
    between 0 and 100, and all of them give exactly 100; without skills
    the division raises. *)
Theorem percent_in_range (count num_skills : Z) :
  (num_skills = 0 -> percent count num_skills = raise ZeroDivisionError)
  /\ (0 < num_skills -> 0 <= count <= num_skills ->
      exists p, percent count num_skills = ret p
                /\ 0 <= p <= 100
                /\ (count = num_skills -> p = 100)).
Proof.
  split; [intros ->; reflexivity|].
  intros Hn Hc. unfold percent, truediv.
  destruct (Z.eqb_spec num_skills 0); [lia|]. simpl bind.
  eexists. split; [reflexivity|].
  replace (of_int 100) with 100%Q by (vm_compute; reflexivity).
  unfold fmul.
  destruct (int_truediv_between count num_skills 0 1 Hn ltac:(lia)) as [H0 H1].
  change (rnd (inject_Z 0)) with 0%Q in H0.
  replace (rnd (inject_Z 1)) with 1%Q in H1 by (vm_compute; reflexivity).
  assert (Hlo : (rnd 0 <= rnd (int_truediv count num_skills * 100))%Q)
    by (apply rnd_mono; lra).
  assert (Hhi : (rnd (int_truediv count num_skills * 100) <= rnd 100)%Q)
    by (apply rnd_mono; lra).
  apply CostFacts.to_int_mono in Hlo, Hhi.
  replace (to_int (rnd 100)) with 100 in Hhi by (vm_compute; reflexivity).
  change (to_int (rnd 0)) with 0 in Hlo.
  split; [lia|].
  intros ->.
  assert (E : (int_truediv num_skills num_skills * 100 == 100)%Q).
  { rewrite (int_truediv_self num_skills Hn). reflexivity. }
  rewrite (to_int_comp _ _ (rnd_comp _ _ E)). vm_compute. reflexivity.
Qed.

(** ** Counts of the suitability report *)

(** The skills of [l] that pass a test. *)
Definition passing (ok : skill -> bool) (l : list (str * skill)) : Z :=
  Z.of_nat (length (filter (fun e => ok (snd e)) l)).

Lemma passing_cons (ok : skill -> bool) (e : str * skill) (l : list (str * skill)) :
  passing ok (e :: l) = (if ok (snd e) then 1 else 0) + passing ok l.
Proof.
  unfold passing. simpl. destruct (ok (snd e)); simpl length; lia.
Qed.

Lemma passing_bounds (ok : skill -> bool) (l : list (str * skill)) :
  0 <= passing ok l <= Z.of_nat (length l).
Proof.
  unfold passing. pose proof (filter_length_le (fun e => ok (snd e)) l). lia.
Qed.

Lemma passing_all (ok : skill -> bool) (l : list (str * skill)) :
  (forall s, ok s = true) -> passing ok l = Z.of_nat (length l).
Proof.
  intros H. induction l as [|e l IH]; [reflexivity|].
  rewrite passing_cons, IH, H. simpl length. lia.
Qed.

Lemma passing_le (ok ok' : skill -> bool) (l : list (str * skill)) :
  (forall s, ok s = true -> ok' s = true) -> passing ok l <= passing ok' l.
Proof.
  intros H. induction l as [|e l IH]; [reflexivity|].
  rewrite !passing_cons. specialize (H (snd e)).
  destruct (ok (snd e)), (ok' (snd e)); try lia; discriminate (H eq_refl).
Qed.

Lemma passing_ext (ok ok' : skill -> bool) (l : list (str * skill)) :
  (forall s, ok s = ok' s) -> passing ok l = passing ok' l.
Proof.
  intros H. induction l as [|e l IH]; [reflexivity|].
  now rewrite !passing_cons, IH, H.
Qed.

(** The verdict of a profile on a skill. *)
Definition verdict (restr : restrictions) (s : skill) : bool :=
  _check_compatibility (_extract_tool_requirements (full_content s)) restr.

(** The count of an agent is the number of skills its profile accepts;
    no lookup in the matrix fails. *)
Lemma count_compatible_eq (skills_data : skills) (agent : str)
    (restr : restrictions) :
  NoDup (keys skills_data) ->
  (forall reqs,
     get (compatibility_row reqs) agent = Some (_check_compatibility reqs restr)) ->
  count_compatible (check_subagent_compatibility skills_data)
                   (keys skills_data) agent
  = ret (passing (verdict restr) skills_data).
Proof.
  intros Hnd Hrow. unfold count_compatible, keys.
  assert (Hstep : forall (s : str) (sd : skill) (acc : Z),
    In (s, sd) skills_data ->
    (row <- lookup (check_subagent_compatibility skills_data) s ;;
     compatible <- lookup row agent ;;
     ret (if compatible : bool then acc + 1 else acc))
    = ret (acc + (if verdict restr sd then 1 else 0))).
  { intros s sd acc Hin. unfold lookup.
    rewrite (compatibility_row_of skills_data s sd Hnd Hin).
    cbn [bind ret]. rewrite Hrow. cbn [bind ret]. unfold verdict.
    destruct (_check_compatibility _ restr); f_equal; lia. }
  assert (H : forall (l : list (str * skill)) (acc : Z),
    incl l skills_data ->
    fold_left
      (fun (total : result Z) (s : str) =>
         total <- total ;;
         row <- lookup (check_subagent_compatibility skills_data) s ;;
         compatible <- lookup row agent ;;
         ret (if compatible : bool then total + 1 else total))
      (map fst l) (ret acc)
    = ret (acc + passing (verdict restr) l)).
  { induction l as [|[s sd] l IH]; intros acc Hl.
    - unfold passing. simpl. now rewrite Z.add_0_r.
    - cbn [map fst fold_left]. cbn [bind ret].
      rewrite (Hstep s sd acc) by (apply Hl; now left).
      rewrite IH by (intros x Hx; apply Hl; now right).
      rewrite passing_cons. cbn [snd]. f_equal. lia. }
  apply (H skills_data 0). apply incl_refl.
Qed.

(** X16. The counts of the agents of the suitability report, for skills with
    distinct names: no lookup fails; every skill counts for the primary
    agent; the subagents without an integration share one count, the two
    subagents with the Atlassian integration another, which is at least
    as large. *)
Theorem suitability_counts_consistent (skills_data : skills) :
  NoDup (keys skills_data) ->
  exists counts,
    suitability_statistics skills_data = ret counts
    /\ num_skills counts = Z.of_nat (length skills_data)
    /\ primary_compatible counts = num_skills counts
    /\ testing_compatible counts = linting_compatible counts
    /\ docs_compatible counts = linting_compatible counts
    /\ opentofu_compatible counts = linting_compatible counts
    /\ workflow_compatible counts = git_compatible counts
    /\ 0 <= linting_compatible counts
    /\ linting_compatible counts <= git_compatible counts
    /\ git_compatible counts <= num_skills counts.
Proof.
  intros Hnd. unfold suitability_statistics.
  rewrite (count_compatible_eq skills_data (lit "primary") primary Hnd)
    by reflexivity.
  rewrite (count_compatible_eq skills_data (lit "linting-subagent")
             (restricted [] "Linting specialization") Hnd) by reflexivity.
  rewrite (count_compatible_eq skills_data (lit "testing-subagent")
             (restricted [] "Testing specialization") Hnd) by reflexivity.
  rewrite (count_compatible_eq skills_data (lit "git-workflow-subagent")
             (restricted [lit "atlassian"] "Git/JIRA specialization") Hnd)
    by reflexivity.
  rewrite (count_compatible_eq skills_data (lit "documentation-subagent")
             (restricted [] "Documentation specialization") Hnd) by reflexivity.
  rewrite (count_compatible_eq skills_data (lit "opentofu-explorer-subagent")
             (restricted [] "OpenTofu specialization") Hnd) by reflexivity.
  rewrite (count_compatible_eq skills_data (lit "workflow-subagent")
             (restricted [lit "atlassian"] "Workflow coordination") Hnd)
    by reflexivity.
  cbn [bind ret]. eexists. split; [reflexivity|].
  cbn [num_skills primary_compatible linting_compatible testing_compatible
       git_compatible docs_compatible opentofu_compatible workflow_compatible].
  assert (Hsame : forall (mcp : list str) (d d' : string),
            lit d <> lit "Full access" -> lit d' <> lit "Full access" ->
            forall s, verdict (restricted mcp d) s = verdict (restricted mcp d') s).
  { intros mcp d d' Hd Hd' s. unfold verdict, _check_compatibility, restricted.
    cbn [agent_description allowed_mcp].
    apply eqb_neq in Hd, Hd'. now rewrite Hd, Hd'. }
  split; [reflexivity|].
  split; [apply passing_all; intros s; apply check_primary|].
  split; [apply passing_ext, Hsame; discriminate|].
  split; [apply passing_ext, Hsame; discriminate|].
  split; [apply passing_ext, Hsame; discriminate|].
  split; [apply passing_ext, Hsame; discriminate|].
  split; [apply passing_bounds|].
  split; [|apply passing_bounds].
  apply passing_le. intros s. unfold verdict.
  destruct (_extract_tool_requirements (full_content s)) as [b p t a d z q].
  destruct t, a, d, z; try reflexivity; discriminate.
Qed.

Lemma suitability_counts_consistent_witness :
  exists counts,
    suitability_statistics
      [(lit "a", skill_of_body "uses atlassian");
       (lit "b", skill_of_body "plain")] = ret counts
    /\ num_skills counts = 2
    /\ primary_compatible counts = num_skills counts
    /\ testing_compatible counts = linting_compatible counts
    /\ docs_compatible counts = linting_compatible counts
    /\ opentofu_compatible counts = linting_compatible counts
    /\ workflow_compatible counts = git_compatible counts
    /\ 0 <= linting_compatible counts
    /\ linting_compatible counts <= git_compatible counts
    /\ git_compatible counts <= num_skills counts.
Proof.
  apply (suitability_counts_consistent
           [(lit "a", skill_of_body "uses atlassian");
            (lit "b", skill_of_body "plain")]).
  repeat constructor; simpl; intuition discriminate.
Defined.

(** ** Figures of the duplicity report *)

Section Figures.

(** A matrix that holds [f a b] for every two of the [names]. *)
Variable matrix : dict (dict Z).
Variable names : list str.
Variable f : str -> str -> Z.
Hypothesis matrix_total :
  forall a b, In a names -> In b names -> matrix_at matrix a b = ret (f a b).

Definition is_high (a b : str) : bool := 70 <=? f a b.
Definition is_moderate (a b : str) : bool :=
  negb (70 <=? f a b) && (50 <=? f a b).

Definition pairs_of (keep : str -> str -> bool) (a : str) (rest : list str)
  : list dup_pair :=
  map (fun b => (a, b, f a b)) (filter (keep a) rest).

Fixpoint all_pairs (keep : str -> str -> bool) (l : list str) : list dup_pair :=
  match l with
  | [] => []
  | a :: rest => pairs_of keep a rest ++ all_pairs keep rest
  end.

Lemma classify_pair_eq (a b : str) (h m : list dup_pair) :
  In a names -> In b names ->
  classify_pair matrix a (ret (h, m)) b
  = ret (h ++ pairs_of is_high a [b], m ++ pairs_of is_moderate a [b]).
Proof.
  intros Ha Hb. unfold classify_pair. cbn [bind ret].
  rewrite (matrix_total a b Ha Hb). cbn [bind ret].
  unfold pairs_of, is_high, is_moderate. cbn [filter].
  destruct (70 <=? f a b); cbn [negb andb map];
    [now rewrite app_nil_r|].
  destruct (50 <=? f a b); cbn [map]; now rewrite ?app_nil_r.
Qed.

Lemma pairs_of_cons (keep : str -> str -> bool) (a b : str) (rest : list str) :
  pairs_of keep a (b :: rest) = pairs_of keep a [b] ++ pairs_of keep a rest.
Proof.
  unfold pairs_of. cbn [filter]. destruct (keep a b); reflexivity.
Qed.

Lemma classify_row (a : str) (rest : list str) (h m : list dup_pair) :
  In a names -> incl rest names ->
  fold_left (classify_pair matrix a) rest (ret (h, m))
  = ret (h ++ pairs_of is_high a rest, m ++ pairs_of is_moderate a rest).
Proof.
  intros Ha. revert h m. induction rest as [|b rest IH]; intros h m Hr.
  - unfold pairs_of. simpl. now rewrite !app_nil_r.
  - cbn [fold_left].
    rewrite classify_pair_eq by (try exact Ha; apply Hr; now left).
    rewrite IH by (intros x Hx; apply Hr; now right).
    now rewrite (pairs_of_cons is_high a b rest),
      (pairs_of_cons is_moderate a b rest), <- !app_assoc.
Qed.

Lemma collect_pairs_eq (l : list str) (h m : list dup_pair) :
  incl l names ->
  collect_pairs matrix l (h, m)
  = ret (h ++ all_pairs is_high l, m ++ all_pairs is_moderate l).
Proof.
  revert h m. induction l as [|a rest IH]; intros h m Hl.
  - simpl. now rewrite !app_nil_r.
  - cbn [collect_pairs all_pairs].
    rewrite classify_row;
      [|apply Hl; now left | intros x Hx; apply Hl; now right].
    cbn [bind ret].
    rewrite IH by (intros x Hx; apply Hl; now right).
    now rewrite <- !app_assoc.
Qed.

(** [b] comes after [a] in [l]. *)
Definition follows (l : list str) (a b : str) : Prop :=
  exists l1 l2, l = l1 ++ a :: l2 /\ In b l2.

Lemma all_pairs_In (keep : str -> str -> bool) (l : list str) (a b : str)
    (s : Z) :
  In (a, b, s) (all_pairs keep l)
  <-> follows l a b /\ keep a b = true /\ s = f a b.
Proof.
  induction l as [|x rest IH]; simpl.
  - split; [tauto|]. intros [(l1 & l2 & E & _) _]. now destruct l1.
  - rewrite in_app_iff, IH. unfold pairs_of.
    rewrite in_map_iff. split.
    + intros [(b' & E & Hb) | ((l1 & l2 & -> & Hin) & Hk & Hs)].
      * injection E as -> -> <-. apply filter_In in Hb as [Hb Hk].
        split; [|tauto]. now exists [], rest.
      * split; [|tauto]. now exists (x :: l1), l2.
    + intros [(l1 & l2 & E & Hin) [Hk Hs]].
      destruct l1 as [|y l1]; injection E as -> ->.
      * left. exists b. split; [now rewrite Hs|].
        apply filter_In. tauto.
      * right. split; [|tauto]. now exists l1, l2.
Qed.

Fixpoint pairs_count (l : list str) : nat :=
  match l with
  | [] => 0
  | _ :: rest => length rest + pairs_count rest
  end.

Lemma pairs_count_eq (l : list str) :
  (2 * pairs_count l = length l * (length l - 1))%nat.
Proof.
  induction l as [|a rest IH]; simpl; [reflexivity|].
  destruct rest as [|b rest]; [reflexivity|].
  simpl in *. nia.
Qed.

Lemma pairs_of_length (a : str) (rest : list str) :
  (length (pairs_of is_high a rest) + length (pairs_of is_moderate a rest)
   <= length rest)%nat.
Proof.
  unfold pairs_of, is_high, is_moderate. rewrite !length_map.
  induction rest as [|b rest IH]; simpl; [lia|].
  destruct (70 <=? f a b), (50 <=? f a b); simpl; lia.
Qed.

Lemma all_pairs_length (l : list str) :
  (length (all_pairs is_high l) + length (all_pairs is_moderate l)
   <= pairs_count l)%nat.
Proof.
  induction l as [|a rest IH]; simpl; [lia|].
  rewrite !length_app. pose proof (pairs_of_length a rest). lia.
Qed.

(** *** The total *)

Definition row_total (a : str) (l : list str) (t : Z) : Z :=
  fold_left (fun t b => t + f a b) l t.

Definition rows_total (l : list str) (t : Z) : Z :=
  fold_left (fun t a => row_total a names t) l t.

Lemma row_total_eq (a : str) (l : list str) (t : Z) :
  In a names -> incl l names ->
  fold_left
    (fun (total : result Z) (s2 : str) =>
       total <- total ;; score <- matrix_at matrix a s2 ;; ret (total + score))
    l (ret t)
  = ret (row_total a l t).
Proof.
  intros Ha. revert t. induction l as [|b l IH]; intros t Hl; [reflexivity|].
  cbn [fold_left]. cbn [bind ret].
  rewrite (matrix_total a b Ha) by (apply Hl; now left). cbn [bind ret].
  apply IH. intros x Hx. apply Hl. now right.
Qed.

Lemma rows_total_eq (l : list str) (t : Z) :
  incl l names ->
  fold_left
    (fun (total : result Z) (s1 : str) =>
       fold_left
         (fun (total : result Z) (s2 : str) =>
            total <- total ;;
            score <- matrix_at matrix s1 s2 ;;
            ret (total + score))
         names total)
    l (ret t)
  = ret (rows_total l t).
Proof.
  revert t. induction l as [|a l IH]; intros t Hl; [reflexivity|].
  cbn [fold_left].
  rewrite (row_total_eq a names t) by (try apply incl_refl; apply Hl; now left).
  apply IH. intros x Hx. apply Hl. now right.
Qed.

Lemma total_similarity_eq :
  total_similarity matrix names = ret (rows_total names 0).
Proof. apply rows_total_eq, incl_refl. Qed.

Variables lo hi : Z.
Hypothesis f_bounds : forall a b, lo <= f a b <= hi.

Lemma row_total_bounds (a : str) (l : list str) (t : Z) :
  t + lo * Z.of_nat (length l) <= row_total a l t
  <= t + hi * Z.of_nat (length l).
Proof.
  unfold row_total. revert t. induction l as [|b l IH]; intros t.
  - simpl. lia.
  - cbn [fold_left]. specialize (IH (t + f a b)).
    pose proof (f_bounds a b). simpl length. lia.
Qed.

Lemma rows_total_bounds (l : list str) (t : Z) :
  t + lo * (Z.of_nat (length l) * Z.of_nat (length names)) <= rows_total l t
  <= t + hi * (Z.of_nat (length l) * Z.of_nat (length names)).
Proof.
  unfold rows_total. revert t. induction l as [|a l IH]; intros t.
  - simpl. lia.
  - cbn [fold_left]. specialize (IH (row_total a names t)).
    pose proof (row_total_bounds a names t). simpl length. lia.
Qed.

End Figures.

(** *** The figures of the computed matrix *)

Lemma entry_bounds (impl : sum_impl) (skills_data : skills) (a b : str) :
  0 <= entry impl skills_data a b <= 100.
Proof.
  unfold entry. destruct (PyStr.eqb a b); [lia|].
  destruct (get skills_data a) as [d1|]; [|lia].
  destruct (get skills_data b) as [d2|]; [|lia].
  apply similarity_bounds.
Qed.

Lemma computed_matrix_at (impl : sum_impl) (skills_data : skills) :
  exists matrix,
    calculate_duplicity_matrix impl skills_data = Some matrix
    /\ forall a b,
         In a (PySort.sorted_str (keys skills_data)) ->
         In b (PySort.sorted_str (keys skills_data)) ->
         matrix_at matrix a b = ret (entry impl skills_data a b).
Proof.
  rewrite duplicity_matrix_total. eexists. split; [reflexivity|].
  intros a b Ha Hb. unfold matrix_at, lookup.
  rewrite assign_all_get by exact Ha. cbn [bind ret].
  now rewrite assign_all_get by exact Hb.
Qed.

Lemma sorted_names_length (skills_data : skills) :
  length (PySort.sorted_str (keys skills_data)) = length skills_data.
Proof.
  rewrite (Permutation_length (sorted_str_perm _)). apply length_map.
Qed.

(** In a list of distinct names in increasing order, a name that comes
    after another one is greater. *)
Lemma follows_ltb (l : list str) (a b : str) :
  ordered_by_name l -> NoDup l -> follows l a b -> PyStr.ltb a b = true.
Proof.
  intros Hs Hnd (l1 & l2 & -> & Hb).
  assert (Hle : PyStr.leb a b = true).
  { clear Hnd. induction l1 as [|x l1 IH]; simpl in Hs.
    - inversion Hs as [|? ? _ Hf]; subst.
      rewrite Forall_forall in Hf. now apply Hf.
    - inversion Hs; subst. now apply IH. }
  assert (Hne : a <> b).
  { apply NoDup_remove_2 in Hnd. intros ->. apply Hnd.
    apply in_app_iff. now right. }
  unfold PyStr.leb in Hle. apply negb_true_iff in Hle.
  destruct (PyStr.ltb a b) eqn:E; [reflexivity|].
  exfalso. apply Hne. now apply ltb_total.
Qed.

Lemma score_geb_total (x y : dup_pair) :
  score_geb x y = false -> score_geb y x = true.
Proof. unfold score_geb. rewrite Z.leb_gt, Z.leb_le. lia. Qed.

Lemma score_geb_trans (x y z : dup_pair) :
  score_geb x y = true -> score_geb y z = true -> score_geb x z = true.
Proof. unfold score_geb. rewrite !Z.leb_le. lia. Qed.

(** Pairs in the order of non-increasing scores. *)
Definition by_score (l : list dup_pair) : Prop :=
  StronglySorted (fun x y => pair_score y <= pair_score x) l.

Lemma sort_by_score (l : list dup_pair) : by_score (PySort.sort score_geb l).
Proof.
  apply (StronglySorted_weaken (fun x y => score_geb x y = true)).
  - intros x y H. now apply Z.leb_le.
  - apply sort_sorted; [exact score_geb_total | exact score_geb_trans].
Qed.

(** Half of an even number is computed exactly. *)
Lemma half_exact (k : Z) :
  0 <= k < 2 ^ 53 -> to_int (int_truediv (2 * k) 2) = k.
Proof.
  intros Hk. unfold int_truediv.
  assert (E : (inject_Z (2 * k) / inject_Z 2 == inject_Z k)%Q).
  { rewrite inject_Z_mult. field. }
  rewrite (to_int_comp _ _ (rnd_comp _ _ E)).
  rewrite (to_int_comp _ _ (CostFacts.rnd_integer k Hk)).
  unfold to_int. simpl. apply Z.quot_1_r.
Qed.

(** *** Counts of the most duplicated skills *)

(** The number of times [k] is named by the pairs of [l]. *)
Definition mentions (k : str) (l : list dup_pair) : Z :=
  fold_right
    (fun (p : dup_pair) n =>
       let '(a, b, _) := p in
       (if PyStr.eqb a k then 1 else 0) + (if PyStr.eqb b k then 1 else 0) + n)
    0 l.

Definition count_of (d : dict Z) (k : str) : Z :=
  match get d k with Some n => n | None => 0 end.

Definition tally (l : list dup_pair) (d : dict Z) : dict Z :=
  fold_left
    (fun dup_counts (p : dup_pair) =>
       let '(skill1, skill2, _) := p in
       count_up (count_up dup_counts skill1) skill2)
    l d.

Lemma count_of_up (d : dict Z) (x k : str) :
  count_of (count_up d x) k
  = count_of d k + (if PyStr.eqb x k then 1 else 0).
Proof.
  unfold count_of, count_up.
  destruct (PyStr.eqb x k) eqn:E.
  - apply eqb_eq in E. subst x. rewrite get_set_same. reflexivity.
  - apply eqb_neq in E. rewrite get_set_other by exact E. lia.
Qed.

Lemma count_of_tally (l : list dup_pair) (d : dict Z) (k : str) :
  count_of (tally l d) k = count_of d k + mentions k l.
Proof.
  revert d. induction l as [|[[a b] s] l IH]; intros d; simpl.
  - lia.
  - unfold tally in IH. rewrite IH, !count_of_up. lia.
Qed.

(** Every count stored is positive. *)
Definition positive (d : dict Z) : Prop :=
  forall k c, get d k = Some c -> 1 <= c.

Lemma count_up_positive (d : dict Z) (x : str) :
  positive d -> positive (count_up d x).
Proof.
  intros Hd k c. unfold count_up.
  destruct (list_eq_dec ascii_dec x k) as [->|Hne].
  - rewrite get_set_same. intros H. injection H as <-.
    destruct (get d k) as [n|] eqn:E; [|lia].
    specialize (Hd k n E). lia.
  - rewrite get_set_other by exact Hne. apply Hd.
Qed.

Lemma tally_positive (l : list dup_pair) (d : dict Z) :
  positive d -> positive (tally l d).
Proof.
  revert d. induction l as [|[[a b] s] l IH]; intros d Hd; simpl; [exact Hd|].
  apply IH. now do 2 apply count_up_positive.
Qed.

Lemma tally_NoDup (l : list dup_pair) (d : dict Z) :
  NoDup (keys d) -> NoDup (keys (tally l d)).
Proof.
  revert d. induction l as [|[[a b] s] l IH]; intros d Hd; simpl; [exact Hd|].
  apply IH. unfold count_up. now do 2 apply keys_set_NoDup.
Qed.

Lemma NoDup_keys_get {V : Type} (d : dict V) (k : str) (v : V) :
  NoDup (keys d) -> In (k, v) d -> get d k = Some v.
Proof.
  induction d as [|[k' v'] d IH]; simpl; [tauto|].
  intros Hnd [E | Hin].
  - injection E as -> ->. now rewrite eqb_refl.
  - inversion Hnd as [|? ? Hn Hnd']; subst.
    destruct (PyStr.eqb k' k) eqn:Ek.
    + apply eqb_eq in Ek. subst k'. exfalso. apply Hn.
      change k with (fst (k, v)). now apply in_map.
    + now apply IH.
Qed.

Lemma count_geb_total (x y : str * Z) :
  count_geb x y = false -> count_geb y x = true.
Proof. unfold count_geb. rewrite Z.leb_gt, Z.leb_le. lia. Qed.

Lemma count_geb_trans (x y z : str * Z) :
  count_geb x y = true -> count_geb y z = true -> count_geb x z = true.
Proof. unfold count_geb. rewrite !Z.leb_le. lia. Qed.

Lemma In_firstn {A : Type} (n : nat) (l : list A) (x : A) :
  In x (firstn n l) -> In x l.
Proof.
  intros H. rewrite <- (firstn_skipn n l). apply in_app_iff. now left.
Qed.

Lemma StronglySorted_firstn {A : Type} (R : A -> A -> Prop) (n : nat)
    (l : list A) :
  StronglySorted R l -> StronglySorted R (firstn n l).
Proof.
  revert n. induction l as [|x l IH]; intros [|n] H; simpl;
    try constructor.
  - apply IH. now inversion H.
  - inversion H as [|? ? _ Hf]; subst. rewrite Forall_forall in *.
    intros y Hy. apply Hf. revert Hy. apply In_firstn.
Qed.

(** *** The report as a whole *)

(** The figures [duplicity_report_statistics] returns for a corpus that
    is not empty. *)
Definition figures_of (impl : sum_impl) (skills_data : skills)
  : duplicity_figures :=
  let names := PySort.sorted_str (keys skills_data) in
  let f := entry impl skills_data in
  let n := Z.of_nat (length names) in
  let high := PySort.sort score_geb (all_pairs f (is_high f) names) in
  let moderate := PySort.sort score_geb (all_pairs f (is_moderate f) names) in
  {| high_dup_pairs := high;
     moderate_dup_pairs := moderate;
     low_dup_count :=
       to_int (int_truediv (n * (n - 1)) 2)
       - Z.of_nat (length high) - Z.of_nat (length moderate);
     avg_similarity := to_int (int_truediv (rows_total names f names 0) (n * n));
     most_duplicated :=
       firstn 10 (PySort.sort count_geb (items (tally high []))) |}.

Lemma duplicity_statistics_eq (impl : sum_impl) (skills_data : skills) :
  skills_data <> [] ->
  duplicity_report_statistics impl skills_data
  = ret (figures_of impl skills_data).
Proof.
  intros Hne. unfold duplicity_report_statistics.
  destruct (computed_matrix_at impl skills_data) as (matrix & -> & Hat).
  unfold duplicity_statistics.
  rewrite (collect_pairs_eq matrix _ _ Hat) by apply incl_refl.
  cbn [bind ret fst snd app].
  rewrite (total_similarity_eq matrix _ _ Hat). cbn [bind ret].
  unfold truediv.
  pose proof (sorted_names_length skills_data) as Hlen.
  destruct (Z.eqb_spec
    (Z.of_nat (length (PySort.sorted_str (keys skills_data)))
     * Z.of_nat (length (PySort.sorted_str (keys skills_data)))) 0) as [E|E].
  - exfalso. rewrite Hlen in E. destruct skills_data; [now apply Hne|].
    cbn [length] in E. nia.
  - reflexivity.
Qed.

(** X17. The average similarity of a corpus that is not empty is computed
    without an exception and lies between 0 and 100; on an empty corpus
    the division raises [ZeroDivisionError]. *)
Theorem duplicity_average_in_range (impl : sum_impl) (skills_data : skills) :
  (skills_data = [] ->
   duplicity_report_statistics impl skills_data = raise ZeroDivisionError)
  /\ (skills_data <> [] ->
      exists figures,
        duplicity_report_statistics impl skills_data = ret figures
        /\ 0 <= avg_similarity figures <= 100).
Proof.
  split; [intros ->; reflexivity|].
  intros Hne. rewrite (duplicity_statistics_eq impl skills_data Hne).
  eexists. split; [reflexivity|].
  cbn [figures_of avg_similarity].
  pose proof (sorted_names_length skills_data) as Hlen.
  set (names := PySort.sorted_str (keys skills_data)) in *.
  pose proof (rows_total_bounds names (entry impl skills_data) 0 100
                (entry_bounds impl skills_data) names 0) as Ht.
  apply truncated_average; [| lia | lia | lia].
  rewrite Hlen. destruct skills_data; [now contradiction Hne|].
  cbn [length]. nia.
Qed.

(** X18. The pairs listed by the duplicity report, for skills with distinct
    names.  A pair is listed once, with the smaller name first; its score
    is the similarity of the first skill to the second; a high pair has a
    score of 70 or more, a moderate pair a score from 50 to 69; both
    lists are in the order of non-increasing scores; and, up to [2^26]
    skills, the number of the remaining pairs is not negative. *)
Theorem duplicity_pairs_sound (impl : sum_impl) (skills_data : skills) :
  NoDup (keys skills_data) -> skills_data <> [] ->
  exists figures,
    duplicity_report_statistics impl skills_data = ret figures
    /\ (forall a b s,
          In (a, b, s) (high_dup_pairs figures)
          \/ In (a, b, s) (moderate_dup_pairs figures) ->
          PyStr.ltb a b = true
          /\ exists d1 d2,
               get skills_data a = Some d1 /\ get skills_data b = Some d2
               /\ s = _calculate_similarity impl d1 d2 weights)
    /\ (forall a b s, In (a, b, s) (high_dup_pairs figures) -> 70 <= s <= 100)
    /\ (forall a b s, In (a, b, s) (moderate_dup_pairs figures) -> 50 <= s < 70)
    /\ by_score (high_dup_pairs figures)
    /\ by_score (moderate_dup_pairs figures)
    /\ (Z.of_nat (length skills_data) <= 2 ^ 26 ->
        0 <= low_dup_count figures).
Proof.
  intros Hnd Hne. rewrite (duplicity_statistics_eq impl skills_data Hne).
  eexists. split; [reflexivity|].
  cbn [figures_of high_dup_pairs moderate_dup_pairs low_dup_count].
  pose proof (sorted_names_length skills_data) as Hlen.
  set (names := PySort.sorted_str (keys skills_data)) in *.
  set (f := entry impl skills_data).
  assert (Hnames : NoDup names).
  { apply (Permutation_NoDup (Permutation_sym (sorted_str_perm _)) Hnd). }
  assert (Hpair : forall keep a b s,
            In (a, b, s) (PySort.sort score_geb (all_pairs f keep names)) ->
            follows names a b /\ keep a b = true /\ s = f a b).
  { intros keep a b s Hin. apply all_pairs_In.
    apply (Permutation_in _ (sort_perm score_geb _) Hin). }
  split; [|split; [|split; [|split; [|split]]]].
  - intros a b s Hin.
    assert (Hf : follows names a b /\ s = f a b).
    { destruct Hin as [Hin | Hin]; apply Hpair in Hin; tauto. }
    destruct Hf as [Hf ->].
    pose proof (follows_ltb names a b (sorted_str_ordered _) Hnames Hf) as Hlt.
    split; [exact Hlt|].
    destruct Hf as (l1 & l2 & E & Hb).
    assert (Ha : In a (keys skills_data)).
    { apply sorted_names_loaded. fold names. rewrite E.
      apply in_app_iff. right. now left. }
    assert (Hb' : In b (keys skills_data)).
    { apply sorted_names_loaded. fold names. rewrite E.
      apply in_app_iff. right. now right. }
    destruct (In_get_Some _ _ Ha) as [d1 E1].
    destruct (In_get_Some _ _ Hb') as [d2 E2].
    exists d1, d2. split; [exact E1|]. split; [exact E2|].
    unfold f, entry. rewrite E1, E2.
    destruct (PyStr.eqb a b) eqn:Eab; [|reflexivity].
    apply eqb_eq in Eab. subst b. now rewrite ltb_irrefl in Hlt.
  - intros a b s Hin. apply Hpair in Hin as (_ & Hk & ->).
    unfold is_high in Hk. apply Z.leb_le in Hk.
    pose proof (entry_bounds impl skills_data a b). fold f in H. lia.
  - intros a b s Hin. apply Hpair in Hin as (_ & Hk & ->).
    unfold is_moderate in Hk. apply andb_true_iff in Hk as [H70 H50].
    apply negb_true_iff, Z.leb_gt in H70. apply Z.leb_le in H50. lia.
  - apply sort_by_score.
  - apply sort_by_score.
  - intros Hsize.
    rewrite !(Permutation_length (sort_perm score_geb _)).
    pose proof (all_pairs_length f names) as Hp.
    pose proof (pairs_count_eq names) as Hc.
    remember (length names) as n eqn:En.
    assert (E : Z.of_nat n * (Z.of_nat n - 1) = 2 * Z.of_nat (pairs_count names)).
    { destruct n as [|n]; [simpl in Hc; lia|].
      replace (S n - 1)%nat with n in Hc by lia. nia. }
    rewrite E, half_exact; [lia|].
    split; [lia|]. subst n.
    assert (2 * Z.of_nat (pairs_count names) <= 2 ^ 26 * 2 ^ 26) by nia.
    change (2 ^ 26 * 2 ^ 26) with (2 ^ 52) in H.
    change (2 ^ 53) with (2 * 2 ^ 52). lia.
Qed.

Lemma duplicity_pairs_sound_witness :
  exists figures,
    duplicity_report_statistics SumPlain
      [(lit "b", SimilarityFacts.skill_with "lint" "");
       (lit "a", SimilarityFacts.skill_with "link" "")] = ret figures
    /\ (forall a b s,
          In (a, b, s) (high_dup_pairs figures)
          \/ In (a, b, s) (moderate_dup_pairs figures) ->
          PyStr.ltb a b = true
          /\ exists d1 d2,
               get [(lit "b", SimilarityFacts.skill_with "lint" "");
                    (lit "a", SimilarityFacts.skill_with "link" "")] a = Some d1
               /\ get [(lit "b", SimilarityFacts.skill_with "lint" "");
                       (lit "a", SimilarityFacts.skill_with "link" "")] b = Some d2
               /\ s = _calculate_similarity SumPlain d1 d2 weights)
    /\ (forall a b s, In (a, b, s) (high_dup_pairs figures) -> 70 <= s <= 100)
    /\ (forall a b s, In (a, b, s) (moderate_dup_pairs figures) -> 50 <= s < 70)
    /\ by_score (high_dup_pairs figures)
    /\ by_score (moderate_dup_pairs figures)
    /\ (Z.of_nat 2 <= 2 ^ 26 -> 0 <= low_dup_count figures).
Proof.
  apply (duplicity_pairs_sound SumPlain
           [(lit "b", SimilarityFacts.skill_with "lint" "");
            (lit "a", SimilarityFacts.skill_with "link" "")]).
  - repeat constructor; simpl; intuition discriminate.
  - discriminate.
Defined.

(** X19. The table of the most duplicated skills has at most ten rows, in
    the order of non-increasing counts, and the count of a skill is the
    number of high pairs that name it, which is at least one. *)
Theorem most_duplicated_counts (impl : sum_impl) (skills_data : skills) :
  skills_data <> [] ->
  exists figures,
    duplicity_report_statistics impl skills_data = ret figures
    /\ (length (most_duplicated figures) <= 10)%nat
    /\ StronglySorted (fun x y => snd y <= snd x) (most_duplicated figures)
    /\ forall skill count,
         In (skill, count) (most_duplicated figures) ->
         count = mentions skill (high_dup_pairs figures) /\ 1 <= count.
Proof.
  intros Hne. rewrite (duplicity_statistics_eq impl skills_data Hne).
  eexists. split; [reflexivity|].
  cbn [figures_of high_dup_pairs most_duplicated].
  set (high := PySort.sort score_geb _).
  split; [apply firstn_le_length|]. split.
  - apply StronglySorted_firstn.
    apply (StronglySorted_weaken (fun x y => count_geb x y = true)).
    + intros x y H. now apply Z.leb_le.
    + apply sort_sorted; [exact count_geb_total | exact count_geb_trans].
  - intros skill count Hin. apply In_firstn in Hin.
    apply (Permutation_in _ (sort_perm count_geb _)) in Hin.
    unfold items in Hin.
    apply NoDup_keys_get in Hin; [|apply tally_NoDup; constructor].
    split.
    + pose proof (count_of_tally high [] skill) as Hc.
      unfold count_of at 1 in Hc. rewrite Hin in Hc. exact Hc.
    + apply (tally_positive high [] ltac:(intros k c H; discriminate H) _ _ Hin).
Qed.

Lemma most_duplicated_counts_witness :
  exists figures,
    duplicity_report_statistics SumPlain
      [(lit "b", SimilarityFacts.skill_with "lint" "");
       (lit "a", SimilarityFacts.skill_with "link" "")] = ret figures
    /\ (length (most_duplicated figures) <= 10)%nat
    /\ StronglySorted (fun x y => snd y <= snd x) (most_duplicated figures)
    /\ forall skill count,
         In (skill, count) (most_duplicated figures) ->
         count = mentions skill (high_dup_pairs figures) /\ 1 <= count.
Proof.
  apply (most_duplicated_counts SumPlain
           [(lit "b", SimilarityFacts.skill_with "lint" "");
            (lit "a", SimilarityFacts.skill_with "link" "")]).
  discriminate.
Defined.

(** ** Figures of the token report *)

Definition tokens_total (l : list token_record) : Z :=
  fold_left (fun (total : Z) s => total + tr_tokens s) l 0.

Lemma fold_add_from (l : list token_record) (t : Z) :
  fold_left (fun (total : Z) s => total + tr_tokens s) l t
  = t + tokens_total l.
Proof.
  unfold tokens_total. revert t.
  induction l as [|s l IH]; intros t; cbn [fold_left].
  - lia.
  - rewrite (IH (t + tr_tokens s)), (IH (0 + tr_tokens s)). lia.
Qed.

Lemma tokens_total_cons (s : token_record) (l : list token_record) :
  tokens_total (s :: l) = tr_tokens s + tokens_total l.
Proof. unfold tokens_total at 1. cbn [fold_left]. rewrite fold_add_from. lia. Qed.

Lemma tokens_total_perm (l l' : list token_record) :
  Permutation l l' -> tokens_total l = tokens_total l'.
Proof.
  induction 1; rewrite ?tokens_total_cons; lia.
Qed.

Lemma count_records_eq (p : token_record -> bool) (l : list token_record) :
  count_records p l = Z.of_nat (length (filter p l)).
Proof.
  unfold count_records.
  assert (H : forall t,
    fold_left (fun (total : Z) s => if p s then total + 1 else total) l t
    = t + Z.of_nat (length (filter p l))).
  { induction l as [|s l IH]; intros t; simpl; [lia|].
    rewrite IH. destruct (p s); simpl length; lia. }
  apply (H 0).
Qed.

(** *** Categories *)

(** The data of a category, or zeros for a category not seen yet. *)
Definition category_of (d : dict category_data) (cat : str) : category_data :=
  match get d cat with Some e => e | None => (0, 0) end.

Definition add_record (d : dict category_data) (s : token_record)
  : dict category_data :=
  set d (tr_category s)
      (fst (category_of d (tr_category s)) + 1,
       snd (category_of d (tr_category s)) + tr_tokens s).

Lemma set_set {V : Type} (d : dict V) (k : str) (v v' : V) :
  set (set d k v) k v' = set d k v'.
Proof.
  induction d as [|[k0 v0] d IH]; simpl.
  - now rewrite eqb_refl.
  - destruct (PyStr.eqb k0 k) eqn:E; simpl; rewrite E; [reflexivity|].
    now rewrite IH.
Qed.

(** No lookup of the loop over the records fails. *)
Lemma add_category_eq (d : dict category_data) (s : token_record) :
  add_category (ret d) s = ret (add_record d s).
Proof.
  unfold add_category, add_record, category_of, lookup. cbn [bind ret].
  destruct (get d (tr_category s)) as [[c t]|] eqn:E.
  - rewrite E. cbn [bind ret fst snd]. rewrite get_set_same.
    cbn [bind ret fst snd]. now rewrite set_set.
  - rewrite get_set_same. cbn [bind ret fst snd]. rewrite get_set_same.
    cbn [bind ret fst snd]. now rewrite !set_set.
Qed.

Lemma add_categories_eq (l : list token_record) (d : dict category_data) :
  fold_left add_category l (ret d) = ret (fold_left add_record l d).
Proof.
  revert d. induction l as [|s l IH]; intros d; [reflexivity|].
  cbn [fold_left]. now rewrite add_category_eq, IH.
Qed.

(** The sum of one component over the categories. *)
Definition weight (g : category_data -> Z) (d : dict category_data) : Z :=
  fold_right (fun e n => g (snd e) + n) 0 d.

Lemma weight_set (g : category_data -> Z) (d : dict category_data)
    (k : str) (v : category_data) :
  g (0, 0) = 0 ->
  weight g (set d k v) = weight g d - g (category_of d k) + g v.
Proof.
  intros Hg. unfold category_of.
  induction d as [|[k0 v0] d IH]; simpl.
  - rewrite Hg. lia.
  - destruct (PyStr.eqb k0 k); simpl; [lia|]. rewrite IH. lia.
Qed.

Lemma weight_counts (l : list token_record) (d : dict category_data) :
  weight fst (fold_left add_record l d) = weight fst d + Z.of_nat (length l).
Proof.
  revert d. induction l as [|s l IH]; intros d; simpl fold_left.
  - simpl. lia.
  - rewrite IH. unfold add_record. rewrite weight_set by reflexivity.
    cbn [fst length]. lia.
Qed.

Lemma weight_tokens (l : list token_record) (d : dict category_data) :
  weight snd (fold_left add_record l d) = weight snd d + tokens_total l.
Proof.
  revert d. induction l as [|s l IH]; intros d; simpl fold_left.
  - unfold tokens_total. simpl. lia.
  - rewrite IH, tokens_total_cons. unfold add_record.
    rewrite weight_set by reflexivity. cbn [snd]. lia.
Qed.

(** Every category holds at least one record. *)
Definition populated (d : dict category_data) : Prop :=
  Forall (fun e : str * category_data => 1 <= fst (snd e)) d.

Lemma get_In_items {V : Type} (d : dict V) (k : str) (v : V) :
  get d k = Some v -> In (k, v) d.
Proof.
  induction d as [|[k0 v0] d IH]; simpl; [discriminate|].
  destruct (PyStr.eqb k0 k) eqn:E.
  - apply eqb_eq in E. subst k0. intros H. injection H as ->. now left.
  - intros H. right. now apply IH.
Qed.

Lemma set_populated (d : dict category_data) (k : str) (v : category_data) :
  populated d -> 1 <= fst v -> populated (set d k v).
Proof.
  unfold populated. intros Hd Hv.
  induction d as [|[k0 v0] d IH]; simpl.
  - now repeat constructor.
  - inversion Hd as [|? ? H0 Hd']; subst.
    destruct (PyStr.eqb k0 k); constructor; auto.
Qed.

Lemma add_record_populated (d : dict category_data) (s : token_record) :
  populated d -> populated (add_record d s).
Proof.
  intros Hd. apply set_populated; [exact Hd|]. cbn [fst].
  unfold category_of. destruct (get d (tr_category s)) as [e|] eqn:E; [|simpl; lia].
  apply get_In_items in E. unfold populated in Hd.
  rewrite Forall_forall in Hd. specialize (Hd _ E). simpl in Hd. lia.
Qed.

Lemma add_records_populated (l : list token_record) (d : dict category_data) :
  populated d -> populated (fold_left add_record l d).
Proof.
  revert d. induction l as [|s l IH]; intros d Hd; simpl; [exact Hd|].
  now apply IH, add_record_populated.
Qed.

Lemma add_records_NoDup (l : list token_record) (d : dict category_data) :
  NoDup (keys d) -> NoDup (keys (fold_left add_record l d)).
Proof.
  revert d. induction l as [|s l IH]; intros d Hd; simpl; [exact Hd|].
  apply IH. unfold add_record. now apply keys_set_NoDup.
Qed.

(** *** The category table *)

Definition line_of (total : Z) (e : str * category_data) : category_row :=
  (fst e, fst (snd e), to_int (int_truediv (snd (snd e)) (fst (snd e))),
   snd (snd e),
   to_int (fmul (int_truediv (snd (snd e)) total) (of_int 100))).

Lemma category_line_eq (total : Z) (e : str * category_data) :
  total <> 0 -> 1 <= fst (snd e) ->
  category_line total e = ret (line_of total e).
Proof.
  intros Ht Hc. destruct e as [cat [count tokens]]. simpl in Hc.
  unfold category_line, truediv.
  destruct (Z.eqb_spec count 0); [lia|].
  destruct (Z.eqb_spec total 0); [contradiction|]. reflexivity.
Qed.

Lemma category_line_zero (e : str * category_data) :
  1 <= fst (snd e) -> category_line 0 e = raise ZeroDivisionError.
Proof.
  intros Hc. destruct e as [cat [count tokens]]. simpl in Hc.
  unfold category_line, truediv.
  destruct (Z.eqb_spec count 0); [lia|]. reflexivity.
Qed.

Lemma table_from (total : Z) (l : list (str * category_data))
    (table : list category_row) :
  total <> 0 -> populated l ->
  fold_left
    (fun (table : result (list category_row)) e =>
       table <- table ;;
       row <- category_line total e ;;
       ret (table ++ [row]))
    l (ret table)
  = ret (table ++ map (line_of total) l).
Proof.
  intros Ht. revert table. induction l as [|e l IH]; intros table Hl.
  - simpl. now rewrite app_nil_r.
  - inversion Hl as [|? ? He Hl']; subst. cbn [fold_left]. cbn [bind ret].
    rewrite (category_line_eq total e Ht He). cbn [bind ret].
    rewrite IH by exact Hl'. simpl. now rewrite <- app_assoc.
Qed.

(** Once an exception is raised, the rest of a loop is skipped. *)
Lemma fold_raised {A B : Type} (step : result A -> B -> result A)
    (l : list B) (e : exn) :
  (forall x, step (inr e) x = inr e) -> fold_left step l (inr e) = inr e.
Proof.
  intros H. induction l as [|x l IH]; [reflexivity|].
  cbn [fold_left]. now rewrite H.
Qed.

Lemma map_fst_sort (l : list (str * category_data)) :
  map fst (PySort.sort category_leb l) = PySort.sorted_str (map fst l).
Proof.
  assert (Hi : forall x l,
    map fst (PySort.insert category_leb x l)
    = PySort.insert PyStr.leb (fst x) (map fst l)).
  { intros x l0. induction l0 as [|y l0 IH]; simpl; [reflexivity|].
    unfold category_leb at 1. destruct (PyStr.leb (fst x) (fst y)); simpl;
      [reflexivity|]. now rewrite IH. }
  unfold PySort.sorted_str. induction l as [|x l IH]; simpl; [reflexivity|].
  now rewrite Hi, IH.
Qed.

(** *** The report as a whole *)

(** The figures [token_statistics] returns when the total is not zero. *)
Definition token_figures_of (l : list token_record) : token_figures :=
  {| total_tokens := tokens_total l;
     avg_tokens := to_int (int_truediv (tokens_total l) (Z.of_nat (length l)));
     critical_count := count_records is_critical l;
     oversized_count := count_records is_oversized l;
     categories := fold_left add_record l [];
     category_table :=
       map (line_of (tokens_total l))
           (PySort.sort category_leb (items (fold_left add_record l []))) |}.

Lemma sorted_populated (l : list token_record) :
  populated (PySort.sort category_leb (items (fold_left add_record l []))).
Proof.
  assert (Hpop : populated (fold_left add_record l []))
    by (apply add_records_populated; constructor).
  unfold populated, items in *. rewrite Forall_forall in *.
  intros e He. apply Hpop.
  apply (Permutation_in _ (sort_perm category_leb _) He).
Qed.

Lemma token_statistics_eq (l : list token_record) :
  tokens_total l <> 0 -> token_statistics l = ret (token_figures_of l).
Proof.
  intros Ht. unfold token_statistics. fold (tokens_total l).
  unfold truediv.
  destruct (Z.eqb_spec (Z.of_nat (length l)) 0) as [E|E].
  { destruct l; [now contradiction Ht | simpl in E; lia]. }
  cbn [bind ret]. rewrite add_categories_eq. cbn [bind ret].
  rewrite table_from; [reflexivity | exact Ht | apply sorted_populated].
Qed.

(** Without a total the share of a category cannot be computed. *)
Lemma token_statistics_zero (l : list token_record) :
  tokens_total l = 0 -> token_statistics l = raise ZeroDivisionError.
Proof.
  intros Ht. unfold token_statistics. fold (tokens_total l). rewrite Ht.
  destruct l as [|s l]; [reflexivity|].
  unfold truediv.
  destruct (Z.eqb_spec (Z.of_nat (length (s :: l))) 0) as [E|E];
    [simpl in E; lia|].
  cbn [bind ret]. rewrite add_categories_eq. cbn [bind ret].
  pose proof (sorted_populated (s :: l)) as Hpop.
  pose proof (weight_counts (s :: l) []) as Hw.
  pose proof (Permutation_length
                (sort_perm category_leb (items (fold_left add_record (s :: l) []))))
    as Hlen.
  destruct (PySort.sort category_leb (items (fold_left add_record (s :: l) [])))
    as [|e rest].
  - unfold items in Hlen. destruct (fold_left add_record (s :: l) []);
      [simpl in Hw; lia | discriminate Hlen].
  - inversion Hpop as [|? ? He _]; subst. cbn [fold_left]. cbn [bind ret].
    rewrite (category_line_zero e He). cbn [bind raise].
    rewrite fold_raised; [reflexivity | intros x; reflexivity].
Qed.

(** X20. When the estimates do not add up to zero, the figures of the token
    report are computed without an exception.  Every record is counted
    in exactly one category: the counts of the categories add up to the
    number of records and their tokens to the total.  The critical skills
    are among the oversized ones.  The category table has one row per
    category, in the order of the names. *)
Theorem token_figures_consistent (token_analysis : list token_record) :
  tokens_total token_analysis <> 0 ->
  exists figures,
    token_statistics token_analysis = ret figures
    /\ total_tokens figures = tokens_total token_analysis
    /\ weight fst (categories figures) = Z.of_nat (length token_analysis)
    /\ weight snd (categories figures) = total_tokens figures
    /\ 0 <= critical_count figures <= oversized_count figures
    /\ oversized_count figures <= Z.of_nat (length token_analysis)
    /\ map (fun r : category_row => fst (fst (fst (fst r))))
           (category_table figures)
       = PySort.sorted_str (keys (categories figures))
    /\ NoDup (keys (categories figures)).
Proof.
  intros Ht. rewrite (token_statistics_eq token_analysis Ht).
  eexists. split; [reflexivity|]. unfold token_figures_of.
  cbn [total_tokens categories critical_count oversized_count category_table].
  split; [reflexivity|].
  split; [rewrite weight_counts; simpl; lia|].
  split; [rewrite weight_tokens; simpl; lia|].
  rewrite !count_records_eq.
  split; [split; [lia|]|split; [|split]].
  - apply inj_le.
    assert (H : forall l, (length (filter is_critical l)
                           <= length (filter is_oversized l))%nat).
    { induction l as [|s l IH]; simpl; [lia|].
      unfold is_critical at 1, is_oversized at 1.
      destruct (tr_status s); simpl; lia. }
    apply H.
  - apply inj_le, filter_length_le.
  - rewrite map_map. unfold keys, items. rewrite <- map_fst_sort.
    apply map_ext. intros [cat [count tokens]]. reflexivity.
  - apply add_records_NoDup. constructor.
Qed.

Lemma token_figures_consistent_witness :
  exists figures,
    token_statistics
      (analyze_token_costs
         [(lit "python-a", skill_of_size 8000); (lit "b-linter", skill_of_size 400);
          (lit "python-c", skill_of_size 12000)]) = ret figures
    /\ total_tokens figures = 5610
    /\ weight fst (categories figures) = 3
    /\ weight snd (categories figures) = total_tokens figures
    /\ 0 <= critical_count figures <= oversized_count figures
    /\ oversized_count figures <= 3
    /\ map (fun r : category_row => fst (fst (fst (fst r))))
           (category_table figures)
       = PySort.sorted_str (keys (categories figures))
    /\ NoDup (keys (categories figures)).
Proof.
  apply (token_figures_consistent
           (analyze_token_costs
              [(lit "python-a", skill_of_size 8000);
               (lit "b-linter", skill_of_size 400);
               (lit "python-c", skill_of_size 12000)])).
  vm_compute. discriminate.
Defined.

(** *** Corpora without content *)

Lemma estimate_small (n : Z) :
  0 <= n <= 3 -> estimate_tokens (skill_of_size n) = 0.
Proof.
  intros Hn.
  pose proof (estimate_tokens_le 0 n ltac:(lia)) as H0.
  pose proof (estimate_tokens_le n 3 ltac:(lia)) as H3.
  change (estimate_tokens (skill_of_size 0)) with 0 in H0.
  change (estimate_tokens (skill_of_size 3)) with 0 in H3. lia.
Qed.

Lemma estimate_large (n : Z) :
  4 <= n -> 1 <= estimate_tokens (skill_of_size n).
Proof. intros Hn. apply (estimate_tokens_le 4 n Hn). Qed.

Lemma total_nonneg (l : list token_record) :
  (forall r, In r l -> 0 <= tr_tokens r) -> 0 <= tokens_total l.
Proof.
  induction l as [|s l IH]; intros H; [unfold tokens_total; simpl; lia|].
  rewrite tokens_total_cons.
  pose proof (H s (or_introl eq_refl)).
  pose proof (IH (fun r Hr => H r (or_intror Hr))). lia.
Qed.

Lemma total_zero_iff (l : list token_record) :
  (forall r, In r l -> 0 <= tr_tokens r) ->
  (tokens_total l = 0 <-> forall r, In r l -> tr_tokens r = 0).
Proof.
  induction l as [|s l IH]; intros H.
  - split; [intros _ r [] | reflexivity].
  - rewrite tokens_total_cons.
    pose proof (H s (or_introl eq_refl)) as Hs.
    pose proof (total_nonneg l (fun r Hr => H r (or_intror Hr))) as Hl.
    specialize (IH (fun r Hr => H r (or_intror Hr))). split.
    + intros E r [<- | Hr]; [lia|]. apply IH; [lia | exact Hr].
    + intros E. rewrite (E s (or_introl eq_refl)).
      rewrite (proj2 IH (fun r Hr => E r (or_intror Hr))). reflexivity.
Qed.

Lemma analysis_records (skills_data : skills) (r : token_record) :
  In r (analyze_token_costs skills_data)
  <-> exists e, In e (items skills_data) /\ r = token_entry (fst e) (snd e).
Proof.
  unfold analyze_token_costs. split.
  - intros H. apply (Permutation_in _ (sort_perm tokens_geb _)) in H.
    apply in_map_iff in H as (e & <- & He). now exists e.
  - intros (e & He & ->).
    apply (Permutation_in _ (Permutation_sym (sort_perm tokens_geb _))).
    apply (in_map (fun e : str * skill => token_entry (fst e) (snd e))).
    exact He.
Qed.

(** X21. For files of sizes that are not negative, the token report raises
    [ZeroDivisionError] exactly when no file has four characters or more:
    on an empty corpus, and on a corpus whose estimates are all zero. *)
Theorem token_report_needs_content (skills_data : skills) :
  (forall e, In e (items skills_data) -> 0 <= char_count (snd e)) ->
  (token_report_statistics skills_data = raise ZeroDivisionError
   <-> forall e, In e (items skills_data) -> char_count (snd e) <= 3).
Proof.
  intros Hsize. unfold token_report_statistics.
  assert (Hnn : forall r, In r (analyze_token_costs skills_data) ->
                          0 <= tr_tokens r).
  { intros r Hr. apply analysis_records in Hr as (e & He & ->).
    cbn [token_entry tr_tokens]. rewrite estimate_tokens_size.
    apply (estimate_tokens_le 0 _ (Hsize e He)). }
  split.
  - intros Hraise e He.
    destruct (Z_le_gt_dec (char_count (snd e)) 3) as [Hle|Hgt]; [exact Hle|].
    exfalso.
    assert (Ht : tokens_total (analyze_token_costs skills_data) <> 0).
    { intros E0.
      pose proof (proj1 (total_zero_iff _ Hnn) E0
                    (token_entry (fst e) (snd e))
                    (proj2 (analysis_records _ _)
                           (ex_intro _ e (conj He eq_refl)))) as E.
      cbn [token_entry tr_tokens] in E. rewrite estimate_tokens_size in E.
      pose proof (estimate_large (char_count (snd e)) ltac:(lia)). lia. }
    rewrite (token_statistics_eq _ Ht) in Hraise. discriminate Hraise.
  - intros Hle. apply token_statistics_zero. apply (total_zero_iff _ Hnn).
    intros r Hr. apply analysis_records in Hr as (e & He & ->).
    cbn [token_entry tr_tokens]. rewrite estimate_tokens_size.
    apply estimate_small. split; [apply Hsize | apply Hle]; exact He.
Qed.

Lemma token_report_needs_content_witness :
  token_report_statistics
    [(lit "a", skill_of_size 3); (lit "b", skill_of_size 0)]
  = raise ZeroDivisionError.
Proof.
  apply (token_report_needs_content
           [(lit "a", skill_of_size 3); (lit "b", skill_of_size 0)]).
  - intros e [<- | [<- | []]]; simpl; lia.
  - intros e [<- | [<- | []]]; simpl; lia.
Defined.

(** ** Optimization targets *)

(** The savings by size: [char_count * 0.02]. *)
Definition size_savings (char_count : Z) : Q :=
  fmul (of_int char_count) (literal (2 # 100)).

Lemma size_savings_mono (a b : Z) :
  a <= b -> (size_savings a <= size_savings b)%Q.
Proof.
  intros H. unfold size_savings, fmul, of_int. apply rnd_mono.
  apply Qmult_le_compat_r; [|vm_compute; discriminate].
  apply rnd_mono. now rewrite <- Zle_Qle.
Qed.

Lemma gt_float (x : Q) (k : Z) :
  gt_int (Float x) k = true <-> (inject_Z k < x)%Q.
Proof.
  cbn [gt_int]. rewrite negb_true_iff. split.
  - intros H. apply Qnot_le_lt. intros Hle.
    apply Qle_bool_iff in Hle. congruence.
  - intros H. destruct (Qle_bool x (inject_Z k)) eqn:E; [|reflexivity].
    apply Qle_bool_iff in E. exfalso. apply (Qlt_not_le _ _ H E).
Qed.

Lemma gt_float_false (x : Q) (k : Z) :
  gt_int (Float x) k = false <-> (x <= inject_Z k)%Q.
Proof.
  cbn [gt_int]. rewrite negb_false_iff. apply Qle_bool_iff.
Qed.

(** The skills that end up in the high list and in the medium list. *)
Definition is_high_target (r : token_record) : bool :=
  (3 <? tr_code_blocks r) || (10000 <? tr_char_count r).

Definition is_medium_target (r : token_record) : bool :=
  negb (3 <? tr_code_blocks r)
  && (5000 <? tr_char_count r) && (tr_char_count r <=? 10000).

Lemma savings_high (r : token_record) :
  is_high_target r = true -> gt_int (potential_savings r) 200 = true.
Proof.
  unfold is_high_target, potential_savings.
  destruct (Z.ltb_spec 3 (tr_code_blocks r)) as [Hcb|Hcb]; cbn [orb add_int].
  - intros _.
    assert (Hi : 300 <= 0 + tr_code_blocks r / 2 * 150).
    { assert (2 <= tr_code_blocks r / 2) by (apply Z.div_le_lower_bound; lia).
      lia. }
    destruct (Z.ltb_spec 5000 (tr_char_count r)) as [Hcc|Hcc].
    + cbn [add_float]. apply gt_float. unfold fadd.
      apply Qlt_le_trans with (rnd 300); [vm_compute; reflexivity|].
      apply rnd_mono.
      assert (H1 : (rnd 300 <= of_int (0 + tr_code_blocks r / 2 * 150))%Q).
      { unfold of_int. apply rnd_mono.
        change 300%Q with (inject_Z 300). now rewrite <- Zle_Qle. }
      assert (H2 : (size_savings 0 <= size_savings (tr_char_count r))%Q)
        by (apply size_savings_mono; lia).
      fold (size_savings (tr_char_count r)).
      replace (rnd 300) with 300%Q in H1 by (vm_compute; reflexivity).
      change (size_savings 0) with 0%Q in H2. lra.
    + cbn [gt_int]. apply Z.ltb_lt. lia.
  - intros Hcc. apply Z.ltb_lt in Hcc.
    destruct (Z.ltb_spec 5000 (tr_char_count r)) as [_|]; [|lia].
    cbn [add_float]. apply gt_float. unfold fadd.
    fold (size_savings (tr_char_count r)).
    apply Qlt_le_trans with (rnd (of_int 0 + size_savings 10001));
      [vm_compute; reflexivity|].
    apply rnd_mono.
    pose proof (size_savings_mono 10001 (tr_char_count r) ltac:(lia)). lra.
Qed.

Lemma savings_medium (r : token_record) :
  is_medium_target r = true ->
  gt_int (potential_savings r) 200 = false
  /\ gt_int (potential_savings r) 100 = true
  /\ 100 <= int_of (potential_savings r) <= 200.
Proof.
  unfold is_medium_target, potential_savings.
  rewrite !andb_true_iff, negb_true_iff. intros [[Hcb Hlo] Hhi].
  rewrite Hcb, Hlo. apply Z.leb_le in Hhi. apply Z.ltb_lt in Hlo.
  cbn [add_float int_of]. unfold fadd.
  fold (size_savings (tr_char_count r)).
  assert (H1 : (rnd (of_int 0 + size_savings 5001)
                <= rnd (of_int 0 + size_savings (tr_char_count r)))%Q).
  { apply rnd_mono.
    pose proof (size_savings_mono 5001 (tr_char_count r) ltac:(lia)). lra. }
  assert (H2 : (rnd (of_int 0 + size_savings (tr_char_count r))
                <= rnd (of_int 0 + size_savings 10000))%Q).
  { apply rnd_mono.
    pose proof (size_savings_mono (tr_char_count r) 10000 ltac:(lia)). lra. }
  split; [|split].
  - apply gt_float_false. apply Qle_trans with (1 := H2).
    vm_compute. discriminate.
  - apply gt_float. apply Qlt_le_trans with (2 := H1).
    vm_compute. reflexivity.
  - apply CostFacts.to_int_mono in H1, H2.
    replace (to_int (rnd (of_int 0 + size_savings 5001))) with 100 in H1
      by (vm_compute; reflexivity).
    replace (to_int (rnd (of_int 0 + size_savings 10000))) with 200 in H2
      by (vm_compute; reflexivity).
    lia.
Qed.

Lemma savings_none (r : token_record) :
  is_high_target r = false -> is_medium_target r = false ->
  potential_savings r = Int 0.
Proof.
  unfold is_high_target, is_medium_target, potential_savings.
  destruct (Z.ltb_spec 3 (tr_code_blocks r)); [discriminate|].
  destruct (Z.ltb_spec 10000 (tr_char_count r)); [discriminate|].
  destruct (Z.ltb_spec 5000 (tr_char_count r)); [|reflexivity].
  destruct (Z.leb_spec (tr_char_count r) 10000); [discriminate | lia].
Qed.

Lemma high_not_medium (r : token_record) :
  is_high_target r = true -> is_medium_target r = false.
Proof.
  unfold is_high_target, is_medium_target.
  destruct (Z.ltb_spec 3 (tr_code_blocks r)); [reflexivity|].
  destruct (Z.ltb_spec 10000 (tr_char_count r)); [|discriminate].
  intros _. cbn [negb andb].
  destruct (Z.leb_spec (tr_char_count r) 10000); [lia|].
  apply andb_false_r.
Qed.

Lemma add_target_cases (targets : impact_targets) (r : token_record) :
  add_target targets r
  = let row := (tr_name r, int_of (potential_savings r)) in
    if is_high_target r then
      {| high_impact_targets := high_impact_targets targets ++ [row];
         medium_impact_targets := medium_impact_targets targets;
         low_impact_targets := low_impact_targets targets |}
    else if is_medium_target r then
      {| high_impact_targets := high_impact_targets targets;
         medium_impact_targets := medium_impact_targets targets ++ [row];
         low_impact_targets := low_impact_targets targets |}
    else targets.
Proof.
  unfold add_target. cbv zeta.
  destruct (is_high_target r) eqn:Eh.
  - now rewrite (savings_high r Eh).
  - destruct (is_medium_target r) eqn:Em.
    + destruct (savings_medium r Em) as (-> & -> & _). reflexivity.
    + rewrite (savings_none r Eh Em). reflexivity.
Qed.

(** X22. The low-impact list is always empty: savings are either zero or
    above 100.  The high-impact list holds the skills with more than
    three code blocks or more than 10000 characters, the medium-impact
    list the other skills with more than 5000 characters, each in the
    order of the records; a medium row shows savings from 100 to 200. *)
Theorem optimization_targets_split (token_analysis : list token_record) :
  let targets := optimization_targets token_analysis in
  low_impact_targets targets = []
  /\ map fst (high_impact_targets targets)
     = map tr_name (filter is_high_target token_analysis)
  /\ map fst (medium_impact_targets targets)
     = map tr_name (filter is_medium_target token_analysis)
  /\ Forall (fun row : target_row => 100 <= snd row <= 200)
            (medium_impact_targets targets).
Proof.
  cbv zeta. unfold optimization_targets.
  assert (H : forall l t,
    let t' := fold_left add_target l t in
    low_impact_targets t' = low_impact_targets t
    /\ map fst (high_impact_targets t')
       = map fst (high_impact_targets t) ++ map tr_name (filter is_high_target l)
    /\ map fst (medium_impact_targets t')
       = map fst (medium_impact_targets t)
         ++ map tr_name (filter is_medium_target l)
    /\ (Forall (fun row : target_row => 100 <= snd row <= 200)
               (medium_impact_targets t) ->
        Forall (fun row : target_row => 100 <= snd row <= 200)
               (medium_impact_targets t'))).
  { induction l as [|r l IH]; intros t; cbv zeta.
    - simpl. rewrite !app_nil_r. tauto.
    - cbn [fold_left filter]. specialize (IH (add_target t r)). cbv zeta in IH.
      destruct IH as (IH1 & IH2 & IH3 & IH4).
      rewrite IH1, IH2, IH3. rewrite add_target_cases in *. cbv zeta in *.
      destruct (is_high_target r) eqn:Eh.
      + rewrite (high_not_medium r Eh).
        cbn [low_impact_targets high_impact_targets medium_impact_targets] in *.
        rewrite map_app. cbn [map fst]. rewrite <- app_assoc.
        repeat split; try reflexivity. exact IH4.
      + destruct (is_medium_target r) eqn:Em.
        * cbn [low_impact_targets high_impact_targets medium_impact_targets] in *.
          rewrite map_app. cbn [map fst]. rewrite <- app_assoc.
          repeat split; try reflexivity.
          intros Hf. apply IH4. apply Forall_app. split; [exact Hf|].
          constructor; [|constructor]. cbn [snd].
          apply (savings_medium r Em).
        * repeat split; try reflexivity. exact IH4. }
  specialize (H token_analysis
    {| high_impact_targets := []; medium_impact_targets := [];
       low_impact_targets := [] |}).
  cbv zeta in H. destruct H as (H1 & H2 & H3 & H4).
  split; [exact H1|]. split; [exact H2|]. split; [exact H3|].
  apply H4. constructor.
Qed.

End ReportFacts.
